(** * VeritasAI: canonicalisation, fingerprinting and classification core

    A shallow embedding of the domain layer of the VeritasAI back end
    ([src/utils/text_processor.py], [src/domain/value_objects/*.py],
    [src/domain/entities/*.py]) and the proofs of its specification.

    Conventions of the embedding.
    - A Python [str] is a list of Unicode code points ([N]).
    - A Python [float] is a rational ([Q]); a decimal literal is the
      rational it spells, and the arithmetic and the comparisons of floats
      are those of the rationals, which leaves out rounding errors of the
      order of 1e-16.  In front of [round] such an error decides the result,
      and there the doubles are modelled: [round(v, n)] takes the double
      nearest to [v] ([binary64]), which is the float that Python holds for
      [v], and rounds the exact value of that double to [n] decimals, ties
      to even; the quotient that [from_percentage] passes to [round] is the
      quotient of floats.  Python returns the double nearest to the decimal
      found; the model writes the decimal itself for it.
    - A raised exception is an [Err] of the [result] type.
    - The Unicode character database consulted by [str.lower], by
      [unicodedata.normalize], by [unicodedata.category] and by the regular
      expression class [\w] is not part of the repository: it is a record
      of functions, [UnicodeData], every definition takes as a parameter.
    - A pydantic model checks the declarative constraints of a [Field]
      ([ge], [le], [min_length], [max_length], [max_items]) first and runs the
      [field_validator] of the field on the value that passed them.
    - A [set] of strings is a [gset str]; a dictionary with a fixed set of
      keys is a record.
    - The codecs of the standard library that [ApiKey] calls ([base64] and
      the decoder of UTF-8) are a record of functions, [Codecs], as the
      Unicode database is.
    - What a call reads from its environment is an argument of the
      definition: the time of [datetime.utcnow()], the bytes of
      [secrets.token_bytes] and the digits of [uuid.uuid4()].
    - A method that changes its object returns the object it leaves. *)

From Stdlib Require Import ZArith NArith QArith Qround Qabs Qminmax Qpower Lqa List String Ascii Bool Lia Sorted Permutation.
From stdpp Require Import base option gmap strings.
Import ListNotations.

Local Open Scope N_scope.

(** ** Exceptions *)

Inductive error : Type :=
  | ValueError (msg : string)
  | ValidationError (field : string)
  | UnicodeEncodeError.

Inductive result (A : Type) : Type :=
  | Ok (a : A)
  | Err (e : error).
Arguments Ok {A} a.
Arguments Err {A} e.

Definition bind {A B : Type} (r : result A) (k : A -> result B) : result B :=
  match r with
  | Ok a => k a
  | Err e => Err e
  end.

Notation "'let*' x := r 'in' k" := (bind r (fun x => k))
  (at level 10, x name, r at level 100, k at level 200).

Definition is_ok {A : Type} (r : result A) : bool :=
  match r with Ok _ => true | Err _ => false end.

(** ** Python strings *)

Definition char : Type := N.
Definition str : Type := list char.

(** Code points of an ASCII literal. *)
Definition u (s : string) : str :=
  List.map N_of_ascii (list_ascii_of_string s).

Definition str_eqb (a b : str) : bool :=
  bool_decide (a = b).

Definition SP : char := 32.
Definition TAB : char := 9.
Definition LF : char := 10.
Definition CR : char := 13.
Definition DQUOTE : char := 34.
Definition SQUOTE : char := 39.

(** [str.isspace] of one character, which is also the class [\s] of a
    [str] pattern: the characters of bidirectional type WS, B or S and of
    category Zs. *)
Definition isspace (c : char) : bool :=
  ((9 <=? c) && (c <=? 13)) || ((28 <=? c) && (c <=? 32))
  || (c =? 0x85) || (c =? 0xA0) || (c =? 0x1680)
  || ((0x2000 <=? c) && (c <=? 0x200A))
  || (c =? 0x2028) || (c =? 0x2029) || (c =? 0x202F)
  || (c =? 0x205F) || (c =? 0x3000).

Fixpoint lstrip (s : str) : str :=
  match s with
  | [] => []
  | c :: r => if isspace c then lstrip r else s
  end.

Definition rstrip (s : str) : str := rev (lstrip (rev s)).

(** [s.strip()] *)
Definition strip (s : str) : str := rstrip (lstrip s).

(** [char::is_whitespace] of Rust: the characters with the Unicode property
    White_Space.  They are those of [str.isspace] without the four
    separators U+001C to U+001F. *)
Definition is_whitespace (c : char) : bool :=
  ((9 <=? c) && (c <=? 13)) || (c =? 32)
  || (c =? 0x85) || (c =? 0xA0) || (c =? 0x1680)
  || ((0x2000 <=? c) && (c <=? 0x200A))
  || (c =? 0x2028) || (c =? 0x2029) || (c =? 0x202F)
  || (c =? 0x205F) || (c =? 0x3000).

Fixpoint trim_start (s : str) : str :=
  match s with
  | [] => []
  | c :: r => if is_whitespace c then trim_start r else s
  end.

Definition trim_end (s : str) : str := rev (trim_start (rev s)).

(** [s.trim()] of Rust.  pydantic validates a string field in Rust, and
    under [str_strip_whitespace] it strips the string with [trim], not with
    [str.strip]. *)
Definition trim (s : str) : str := trim_end (trim_start s).

(** [re.sub(r'\s+', ' ', s)]: every maximal run of white space becomes one
    space.  [in_run] tells that the previous character was white space. *)
Fixpoint sub_ws_from (in_run : bool) (s : str) : str :=
  match s with
  | [] => []
  | c :: r =>
      if isspace c
      then (if in_run then sub_ws_from true r else SP :: sub_ws_from true r)
      else c :: sub_ws_from false r
  end.

Definition sub_ws (s : str) : str := sub_ws_from false s.

(** [s.split()]: the maximal runs of characters that are not white space.
    [cur] is the word being read, last character first. *)
Fixpoint split_from (cur : str) (s : str) : list str :=
  match s with
  | [] => match cur with [] => [] | _ => [rev cur] end
  | c :: r =>
      if isspace c
      then match cur with
           | [] => split_from [] r
           | _ => rev cur :: split_from [] r
           end
      else split_from (c :: cur) r
  end.

Definition split (s : str) : list str := split_from [] s.

(** [s.replace(old, new)] for one-character [old] and [new]. *)
Definition replace_char (old new : char) (s : str) : str :=
  List.map (fun c => if c =? old then new else c) s.

(** [lst[:k]], with Python's reading of a negative bound. *)
Definition slice_to {A : Type} (k : Z) (l : list A) : list A :=
  if (0 <=? k)%Z then firstn (Z.to_nat k) l
  else firstn (length l - Z.to_nat (- k))%nat l.

(** [re.split(p, s)] for a pattern [p] that reads one or more characters of
    the class [cls]: the pieces of [s] between the maximal runs of such
    characters, the empty pieces at both ends included.  [in_run] tells
    that the previous character was of the class, [cur] is the piece being
    read, last character first. *)
Fixpoint re_split_from (cls : char -> bool) (in_run : bool) (cur : str) (s : str)
  : list str :=
  match s with
  | [] => [rev cur]
  | c :: r =>
      if cls c
      then (if in_run then re_split_from cls true [] r
            else rev cur :: re_split_from cls true [] r)
      else re_split_from cls false (c :: cur) r
  end.

Definition re_split (cls : char -> bool) (s : str) : list str :=
  re_split_from cls false [] s.

(** [s.rfind(c)] for one character: the index of its last occurrence, or
    -1.  [i] is the index of the head of [s], [found] the answer so far. *)
Fixpoint rfind_from (c : char) (i found : Z) (s : str) : Z :=
  match s with
  | [] => found
  | d :: r => rfind_from c (i + 1) (if d =? c then i else found) r
  end.

Definition rfind (c : char) (s : str) : Z := rfind_from c 0 (-1) s.

(** ** The Unicode character database *)

Record UnicodeData : Type := {
  (** [s.lower()] *)
  str_lower : str -> str;
  (** [unicodedata.normalize('NFC', s)] *)
  nfc : str -> str;
  (** [unicodedata.category(c)[0] == 'C'] *)
  category_C : char -> bool;
  (** [c.isalnum()]: with the underscore, the class [\w] *)
  isalnum : char -> bool
}.

Definition is_ascii (s : str) : Prop := Forall (fun c => c < 128) s.

Definition ascii_upper (c : char) : bool := (65 <=? c) && (c <=? 90).
Definition ascii_lower (c : char) : bool := (97 <=? c) && (c <=? 122).
Definition ascii_digit (c : char) : bool := (48 <=? c) && (c <=? 57).

Definition ascii_to_lower (c : char) : char :=
  if ascii_upper c then c + 32 else c.

(** What the database says on Basic Latin, U+0000 to U+007F. *)
Record ascii_exact (U : UnicodeData) : Prop := {
  lower_ascii : forall s, is_ascii s -> str_lower U s = List.map ascii_to_lower s;
  nfc_ascii : forall s, is_ascii s -> nfc U s = s;
  category_C_ascii : forall c, c < 128 ->
    category_C U c = (c <? 32) || (c =? 127);
  isalnum_ascii : forall c, c < 128 ->
    isalnum U c = ascii_upper c || ascii_lower c || ascii_digit c
}.

(** The database cut down to Basic Latin: every other code point has no
    case mapping, no decomposition, and is neither a control character nor
    alphanumeric.  It is used to run the code on concrete inputs. *)
Definition basic_latin : UnicodeData := {|
  str_lower := List.map ascii_to_lower;
  nfc := fun s => s;
  category_C := fun c => (c <? 32) || (c =? 127);
  isalnum := fun c => ascii_upper c || ascii_lower c || ascii_digit c
|}.

(** The database cut down to Basic Latin and the Greek letters U+0391 to
    U+03A9 and U+03B1 to U+03C9, to run the code on Greek words.  Of a
    capital sigma [str.lower] makes the final form U+03C2 when a cased
    letter stands before it and none after it, and U+03C3 otherwise; the
    characters that case ignores are skipped on both sides, which are, of
    these, the apostrophe, the full stop, the colon, the circumflex and the
    grave accent. *)
Definition greek_upper (c : char) : bool :=
  (0x391 <=? c) && (c <=? 0x3A9) && negb (c =? 0x3A2).

Definition greek_lower (c : char) : bool := (0x3B1 <=? c) && (c <=? 0x3C9).

Definition cased (c : char) : bool :=
  ascii_upper c || ascii_lower c || greek_upper c || greek_lower c.

Definition case_ignorable (c : char) : bool :=
  (c =? 39) || (c =? 46) || (c =? 58) || (c =? 94) || (c =? 96).

Fixpoint cased_ahead (s : str) : bool :=
  match s with
  | [] => false
  | c :: r => if case_ignorable c then cased_ahead r else cased c
  end.

(** [cased_behind] tells that the last character in front of [s] that case
    does not ignore is a cased letter. *)
Fixpoint lower_from (cased_behind : bool) (s : str) : str :=
  match s with
  | [] => []
  | c :: r =>
      (if c =? 0x3A3
       then (if cased_behind && negb (cased_ahead r) then 0x3C2 else 0x3C3)
       else if greek_upper c then c + 32 else ascii_to_lower c)
      :: lower_from (if case_ignorable c then cased_behind else cased c) r
  end.

Definition latin_greek : UnicodeData := {|
  str_lower := lower_from false;
  nfc := fun s => s;
  category_C := fun c => (c <? 32) || (c =? 127);
  isalnum := fun c => ascii_upper c || ascii_lower c || ascii_digit c
                      || greek_upper c || greek_lower c
|}.

(** ** UTF-8 and SHA-256 ([hashlib.sha256(s.encode('utf-8')).hexdigest()]) *)

Definition byte : Type := N.

(** [s.encode('utf-8')]: a surrogate code point cannot be encoded. *)
Definition utf8_char (c : char) : option (list byte) :=
  if c <? 0x80 then Some [c]
  else if c <? 0x800 then
    Some [N.lor 0xC0 (N.shiftr c 6); N.lor 0x80 (N.land c 0x3F)]
  else if (0xD800 <=? c) && (c <=? 0xDFFF) then None
  else if c <? 0x10000 then
    Some [N.lor 0xE0 (N.shiftr c 12);
          N.lor 0x80 (N.land (N.shiftr c 6) 0x3F);
          N.lor 0x80 (N.land c 0x3F)]
  else
    Some [N.lor 0xF0 (N.land (N.shiftr c 18) 0x07);
          N.lor 0x80 (N.land (N.shiftr c 12) 0x3F);
          N.lor 0x80 (N.land (N.shiftr c 6) 0x3F);
          N.lor 0x80 (N.land c 0x3F)].

Fixpoint utf8_encode (s : str) : result (list byte) :=
  match s with
  | [] => Ok []
  | c :: r =>
      match utf8_char c with
      | None => Err UnicodeEncodeError
      | Some bs => let* rest := utf8_encode r in Ok (bs ++ rest)
      end
  end.

Module SHA256.

Definition word : Type := N.

Definition mask32 : N := 0xFFFFFFFF.
Definition add32 (a b : word) : word := N.land (a + b) mask32.
Definition not32 (a : word) : word := N.lxor a mask32.
Definition rotr (n : N) (x : word) : word :=
  N.lor (N.shiftr x n) (N.land (N.shiftl x (32 - n)) mask32).
Definition shr (n : N) (x : word) : word := N.shiftr x n.

Definition Ch (x y z : word) : word :=
  N.lxor (N.land x y) (N.land (not32 x) z).
Definition Maj (x y z : word) : word :=
  N.lxor (N.lxor (N.land x y) (N.land x z)) (N.land y z).
Definition Sigma0 (x : word) : word :=
  N.lxor (N.lxor (rotr 2 x) (rotr 13 x)) (rotr 22 x).
Definition Sigma1 (x : word) : word :=
  N.lxor (N.lxor (rotr 6 x) (rotr 11 x)) (rotr 25 x).
Definition sigma0 (x : word) : word :=
  N.lxor (N.lxor (rotr 7 x) (rotr 18 x)) (shr 3 x).
Definition sigma1 (x : word) : word :=
  N.lxor (N.lxor (rotr 17 x) (rotr 19 x)) (shr 10 x).

(** The first sixty-four primes. *)
Definition primes : list N :=
  [2; 3; 5; 7; 11; 13; 17; 19; 23; 29; 31; 37; 41; 43; 47; 53;
   59; 61; 67; 71; 73; 79; 83; 89; 97; 101; 103; 107; 109; 113; 127; 131;
   137; 139; 149; 151; 157; 163; 167; 173; 179; 181; 191; 193; 197; 199;
   211; 223; 227; 229; 233; 239; 241; 251; 257; 263; 269; 271; 277; 281;
   283; 293; 307; 311].

(** The largest [r] below [2 ^ 40] with [r ^ k <= n], found bit by bit. *)
Definition iroot (k n : N) : N :=
  fold_left (fun r b => if (r + N.shiftl 1 b) ^ k <=? n
                        then r + N.shiftl 1 b else r)
            (List.map N.of_nat (rev (seq 0 40))) 0.

(** The first thirty-two bits of the fractional part of the [k]-th root
    of [p]. *)
Definition root_bits (k p : N) : word :=
  N.land (iroot k (N.shiftl p (32 * k))) mask32.

(** The round constants: cube roots of the first sixty-four primes. *)
Definition K : list word := List.map (root_bits 3) primes.

(** The eight working variables, and the chaining value. *)
Record state : Type := State {
  ha : word; hb : word; hc : word; hd : word;
  he : word; hf : word; hg : word; hh : word
}.

(** The initial value: square roots of the first eight primes. *)
Definition H0 : state :=
  match List.map (root_bits 2) (firstn 8 primes) with
  | [a; b; c; d; e; f; g; h] => State a b c d e f g h
  | _ => State 0 0 0 0 0 0 0 0
  end.

(** Padding: the bit 1, zeros up to 56 modulo 64, the length in bits on
    eight bytes, most significant first. *)
Definition be_bytes (n : nat) (x : N) : list byte :=
  List.map (fun i => N.land (N.shiftr x (8 * N.of_nat i)) 0xFF) (rev (seq 0 n)).

Definition pad (msg : list byte) : list byte :=
  let len := length msg in
  let zeros := ((119 - len mod 64) mod 64)%nat in
  msg ++ [0x80] ++ repeat 0 zeros ++ be_bytes 8 (8 * N.of_nat len).

Fixpoint words_of (fuel : nat) (bs : list byte) : list word :=
  match fuel, bs with
  | S f, b0 :: b1 :: b2 :: b3 :: r =>
      (N.shiftl b0 24 + N.shiftl b1 16 + N.shiftl b2 8 + b3) :: words_of f r
  | _, _ => []
  end.

(** The message schedule, most recent word first: [w] holds at least
    sixteen words. *)
Fixpoint expand (n : nat) (w : list word) : list word :=
  match n with
  | O => w
  | S n' =>
      let x := add32 (add32 (sigma1 (nth 1 w 0)) (nth 6 w 0))
                     (add32 (sigma0 (nth 14 w 0)) (nth 15 w 0)) in
      expand n' (x :: w)
  end.

Definition schedule (block : list word) : list word :=
  rev (expand 48 (rev block)).

Definition round (s : state) (kw : word * word) : state :=
  let t1 := add32 (add32 (add32 (hh s) (Sigma1 (he s)))
                         (add32 (Ch (he s) (hf s) (hg s)) (fst kw)))
                  (snd kw) in
  let t2 := add32 (Sigma0 (ha s)) (Maj (ha s) (hb s) (hc s)) in
  State (add32 t1 t2) (ha s) (hb s) (hc s)
        (add32 (hd s) t1) (he s) (hf s) (hg s).

Definition compress (h : state) (block : list word) : state :=
  let s := fold_left round (combine K (schedule block)) h in
  State (add32 (ha h) (ha s)) (add32 (hb h) (hb s))
        (add32 (hc h) (hc s)) (add32 (hd h) (hd s))
        (add32 (he h) (he s)) (add32 (hf h) (hf s))
        (add32 (hg h) (hg s)) (add32 (hh h) (hh s)).

Fixpoint blocks (fuel : nat) (ws : list word) (h : state) : state :=
  match fuel with
  | O => h
  | S f =>
      match ws with
      | [] => h
      | _ => blocks f (skipn 16 ws) (compress h (firstn 16 ws))
      end
  end.

Definition digest (msg : list byte) : state :=
  let bs := pad msg in
  let ws := words_of (length bs) bs in
  blocks (length ws) ws H0.

Definition hex_digit (d : N) : char :=
  if d <? 10 then 48 + d else 87 + d.

Definition hex_word (w : word) : str :=
  List.map (fun i => hex_digit (N.land (N.shiftr w (4 * N.of_nat i)) 0xF))
           (rev (seq 0 8)).

Definition hexdigest (msg : list byte) : str :=
  let s := digest msg in
  hex_word (ha s) ++ hex_word (hb s) ++ hex_word (hc s) ++ hex_word (hd s)
  ++ hex_word (he s) ++ hex_word (hf s) ++ hex_word (hg s) ++ hex_word (hh s).

End SHA256.

(** [hashlib.sha256(s.encode('utf-8')).hexdigest()] *)
Definition sha256_hex (s : str) : result str :=
  let* bs := utf8_encode s in Ok (SHA256.hexdigest bs).

(** [intersection / union if union > 0 else 0.0], where [intersection] and
    [union] are the sizes of the intersection and of the union of two sets
    of words: the last lines of [TextProcessor.similarity_score] and of
    [Text.is_similar_to]. *)
Definition jaccard (words1 words2 : gset str) : Q :=
  let intersection := size (words1 ∩ words2) in
  let union := size (words1 ∪ words2) in
  if (0 <? union)%nat
  then (inject_Z (Z.of_nat intersection) / inject_Z (Z.of_nat union))%Q
  else 0.0%Q.

(** ** [src/utils/text_processor.py] *)

Module TextProcessor.

Definition MIN_TEXT_LENGTH : nat := 10.
Definition MAX_TEXT_LENGTH : nat := 2000.
Definition MIN_SENTENCE_LENGTH : nat := 10.

(** [CONTROL_CHARS_PATTERN]: [[\u0000-\u001F\u007F-\u009F]] *)
Definition CONTROL_CHARS (c : char) : bool :=
  (c <=? 0x1F) || ((0x7F <=? c) && (c <=? 0x9F)).

(** The class of [PUNCTUATION_CLEANUP_PATTERN]: [[.,;:!?]] *)
Definition PUNCTUATION (c : char) : bool :=
  (c =? 46) || (c =? 44) || (c =? 59) || (c =? 58) || (c =? 33) || (c =? 63).

(** [PUNCTUATION_CLEANUP_PATTERN.sub(lambda match: match.group(0)[0], s)]:
    a maximal run of two or more punctuation marks keeps its first
    character.  [in_run] tells that the previous character was one. *)
Fixpoint sub_punctuation_from (in_run : bool) (s : str) : str :=
  match s with
  | [] => []
  | c :: r =>
      if PUNCTUATION c
      then (if in_run then sub_punctuation_from true r
            else c :: sub_punctuation_from true r)
      else c :: sub_punctuation_from false r
  end.

Definition sub_punctuation (s : str) : str := sub_punctuation_from false s.

(** [QUOTE_NORMALIZATION_PATTERNS], as the source file spells them: each
    character class lists the straight quote three times. *)
Definition QUOTE_NORMALIZATION_PATTERNS : list (list char * char) :=
  [ ([DQUOTE; DQUOTE; DQUOTE], DQUOTE);
    ([SQUOTE; SQUOTE; SQUOTE], SQUOTE) ].

(** [pattern.sub(replacement, s)] for a one-character class. *)
Definition sub_class (pattern : list char) (replacement : char) (s : str) : str :=
  List.map (fun c => if existsb (N.eqb c) pattern then replacement else c) s.

(** The dictionary that [get_text_stats] returns, a field for each key.
    [hash] is [None] for the value [None]; [has_meaningful_content] is
    [None] when the dictionary has no such key. *)
Module Stats.

Record t : Type := Build {
  character_count : Z;
  word_count : Z;
  sentence_count : Z;
  is_valid_length : bool;
  normalized_length : Z;
  hash : option str;
  has_meaningful_content : option bool
}.

End Stats.

Section WithUnicode.

Variable U : UnicodeData.

Definition normalize (text : str) (for_hashing : bool) : result str :=
  match text with
  | [] => Err (ValueError "Text must be a non-empty string")
  | _ =>
      (* Step 1: tabs and newlines to spaces, other controls removed *)
      let normalized :=
        replace_char CR SP (replace_char LF SP (replace_char TAB SP text)) in
      let normalized := List.filter (fun c => negb (CONTROL_CHARS c)) normalized in
      (* Step 2 *)
      let normalized := sub_ws normalized in
      (* Step 3 *)
      let normalized := nfc U normalized in
      (* Step 4 *)
      let normalized := strip normalized in
      (* Step 5 *)
      if for_hashing then
        let normalized := str_lower U normalized in
        let normalized := sub_punctuation normalized in
        Ok (fold_left (fun acc pr => sub_class (fst pr) (snd pr) acc)
                      QUOTE_NORMALIZATION_PATTERNS normalized)
      else Ok normalized
  end.

Definition generate_hash (text : str) : result str :=
  match text with
  | [] => Err (ValueError "Text must be a non-empty string")
  | _ =>
      let* normalized := normalize text true in
      sha256_hex normalized
  end.

Definition is_valid_length (text : str) : bool :=
  match text with
  | [] => false
  | _ =>
      let cleaned := strip text in
      (MIN_TEXT_LENGTH <=? length cleaned)%nat
      && (length cleaned <=? MAX_TEXT_LENGTH)%nat
  end.

(** The class [\w] of a [str] pattern. *)
Definition is_word (c : char) : bool := isalnum U c || (c =? 95).

(** The class [[.!?]] *)
Definition SENTENCE_END (c : char) : bool :=
  (c =? 46) || (c =? 33) || (c =? 63).

(** The class [[,;:]] *)
Definition CLAUSE_END (c : char) : bool :=
  (c =? 44) || (c =? 59) || (c =? 58).

(** [re.sub(r'(cls){2,}', r'\1', s)]: group 1 holds the last repetition,
    so a maximal run keeps its last character. *)
Fixpoint sub_runs_last (cls : char -> bool) (s : str) : str :=
  match s with
  | [] => []
  | c :: r =>
      if cls c then
        match r with
        | d :: _ => if cls d then sub_runs_last cls r
                    else c :: sub_runs_last cls r
        | [] => [c]
        end
      else c :: sub_runs_last cls r
  end.

(** [re.sub(r'\s+([.!?,:;])', r'\1', s)]: white space in front of a
    punctuation mark goes.  [pend] is the run of white space read so
    far, last character first. *)
Fixpoint sub_space_before_punct (pend : str) (s : str) : str :=
  match s with
  | [] => rev pend
  | c :: r =>
      if isspace c then sub_space_before_punct (c :: pend) r
      else if SENTENCE_END c || CLAUSE_END c
           then c :: sub_space_before_punct [] r
           else rev pend ++ c :: sub_space_before_punct [] r
  end.

(** [re.sub(r'([.!?])\s*([A-Z])', r'\1 \2', s)]: exactly one space
    between the end of a sentence and a capital letter.  [st] holds the
    mark that opened a match and the white space read after it, last
    character first. *)
Fixpoint sub_space_after_sentence (st : option (char * str)) (s : str) : str :=
  match s with
  | [] => match st with
          | None => []
          | Some (p, ws) => p :: rev ws
          end
  | c :: r =>
      match st with
      | None =>
          if SENTENCE_END c then sub_space_after_sentence (Some (c, [])) r
          else c :: sub_space_after_sentence None r
      | Some (p, ws) =>
          if isspace c then sub_space_after_sentence (Some (p, c :: ws)) r
          else if ascii_upper c
               then p :: SP :: c :: sub_space_after_sentence None r
               else p :: rev ws ++
                    (if SENTENCE_END c
                     then sub_space_after_sentence (Some (c, [])) r
                     else c :: sub_space_after_sentence None r)
      end
  end.

Definition clean_for_analysis (text : str) : str :=
  match text with
  | [] => []
  | _ =>
      match normalize text false with
      | Err _ => []
      | Ok cleaned =>
          (* re.sub(r'[^\w\s.,!?;:-]', '', cleaned) *)
          let cleaned :=
            List.filter (fun c => is_word c || isspace c || SENTENCE_END c
                             || CLAUSE_END c || (c =? 45)) cleaned in
          let cleaned := sub_runs_last SENTENCE_END cleaned in
          let cleaned := sub_runs_last CLAUSE_END cleaned in
          let cleaned := sub_space_before_punct [] cleaned in
          let cleaned := sub_space_after_sentence None cleaned in
          strip (sub_ws cleaned)
      end
  end.

Definition stop_words : list str :=
  List.map u
    ["a"; "an"; "and"; "are"; "as"; "at"; "be"; "by"; "for"; "from";
     "has"; "he"; "in"; "is"; "it"; "its"; "of"; "on"; "that"; "the";
     "to"; "was"; "will"; "with"; "this"; "these"; "those"; "they";
     "o"; "a"; "e"; "os"; "as"; "um"; "uma"; "de"; "do"; "da"; "dos"; "das";
     "em"; "no"; "na"; "nos"; "nas"; "para"; "por"; "com"; "sem"; "que";
     "se"]
  (* the source file spells this entry n, U+00C3, U+00A3, o *)
  ++ [[110; 195; 163; 111]]
  ++ List.map u ["mais"; "muito"].

Definition in_stop_words (w : str) : bool := existsb (str_eqb w) stop_words.

(** [word_freq[w] = word_freq.get(w, 0) + 1] on a dictionary that keeps
    its keys in insertion order. *)
Fixpoint dict_incr (w : str) (d : list (str * nat)) : list (str * nat) :=
  match d with
  | [] => [(w, 1%nat)]
  | (k, n) :: r =>
      if str_eqb k w then (k, S n) :: r else (k, n) :: dict_incr w r
  end.

(** [re.sub(r'[^\w]', '', word)] *)
Definition clean_word (word : str) : str := List.filter is_word word.

(** The body of the counting loop. *)
Definition count_word (word_freq : list (str * nat)) (word : str)
  : list (str * nat) :=
  let clean_word := clean_word word in
  if (3 <=? length clean_word)%nat && negb (in_stop_words clean_word)
  then dict_incr clean_word word_freq
  else word_freq.

(** [sorted(items, key=lambda x: x[1], reverse=True)]: the sort is
    stable, also when reversed. *)
Fixpoint insert_desc (x : str * nat) (l : list (str * nat)) : list (str * nat) :=
  match l with
  | [] => [x]
  | y :: t =>
      if (snd x <? snd y)%nat then y :: insert_desc x t else x :: y :: t
  end.

Definition sorted_desc (l : list (str * nat)) : list (str * nat) :=
  fold_right insert_desc [] l.

Definition extract_keywords_basic (text : str) (max_keywords : Z) : list str :=
  match text with
  | [] => []
  | _ =>
      let cleaned := clean_for_analysis text in
      let words := split (str_lower U cleaned) in
      let word_freq := fold_left count_word words [] in
      let sorted_words := sorted_desc word_freq in
      List.map fst (slice_to max_keywords sorted_words)
  end.

(** [re.sub(r'[\s\W]', '', s)] *)
Definition content_chars (s : str) : str :=
  List.filter (fun c => negb (isspace c || negb (is_word c))) s.

Definition validate_text (text : str) : bool * option string :=
  match text with
  | [] => (false, Some "Text must be a non-empty string"%string)
  | _ =>
      let cleaned := strip text in
      if (length cleaned <? MIN_TEXT_LENGTH)%nat
      then (false, Some "Text must be at least 10 characters long"%string)
      else if (MAX_TEXT_LENGTH <? length cleaned)%nat
      then (false, Some "Text cannot exceed 2000 characters"%string)
      else
        (* Check for meaningful content (not just whitespace/punctuation) *)
        if (length (content_chars cleaned) <? 5)%nat
        then (false, Some "Text must contain meaningful content"%string)
        else (true, None)
  end.

(** The loop of [extract_sentences]. *)
Fixpoint clean_sentences (min_length : Z) (sentences : list str) : list str :=
  match sentences with
  | [] => []
  | sentence :: r =>
      let sentence := strip sentence in
      if (min_length <=? Z.of_nat (length sentence))%Z
      then sentence :: clean_sentences min_length r
      else clean_sentences min_length r
  end.

Definition extract_sentences (text : str) (min_length : option Z)
  : result (list str) :=
  match text with
  | [] => Ok []
  | _ =>
      let min_length :=
        match min_length with
        | None => Z.of_nat MIN_SENTENCE_LENGTH
        | Some m => m
        end in
      (* Normalize text first *)
      let* normalized := normalize text false in
      (* Split into sentences using punctuation *)
      let sentences := re_split SENTENCE_END normalized in
      Ok (clean_sentences min_length sentences)
  end.

Definition similarity_score (text1 text2 : str) : result Q :=
  match text1, text2 with
  | [], _ | _, [] => Ok 0.0%Q
  | _, _ =>
      (* Normalize both texts *)
      let* norm1 := normalize text1 true in
      let* norm2 := normalize text2 true in
      (* If texts are identical after normalization *)
      if str_eqb norm1 norm2 then Ok 1.0%Q
      else
        (* Simple word-based similarity (Jaccard similarity) *)
        let words1 : gset str := list_to_set (split norm1) in
        let words2 : gset str := list_to_set (split norm2) in
        if bool_decide (words1 = ∅) || bool_decide (words2 = ∅) then Ok 0.0%Q
        else Ok (jaccard words1 words2)
  end.

Definition get_text_stats (text : str) : result Stats.t :=
  match text with
  | [] => Ok (Stats.Build 0 0 0 false 0 None None)
  | _ =>
      let* normalized := normalize text false in
      let* sentences := extract_sentences text None in
      let* hash :=
        match strip text with
        | [] => Ok None
        | _ => let* h := generate_hash text in Ok (Some h)
        end in
      Ok (Stats.Build
            (Z.of_nat (length text))
            (match normalized with
             | [] => 0
             | _ => Z.of_nat (length (split normalized))
             end)
            (Z.of_nat (length sentences))
            (is_valid_length text)
            (Z.of_nat (length normalized))
            hash
            (Some (match content_chars (strip text) with
                   | [] => false
                   | _ => true
                   end)))
  end.

End WithUnicode.

End TextProcessor.

(** ** [src/domain/value_objects/text_hash.py] *)

Module TextHash.

Record t : Type := Build { value : str }.

(** The class [[a-f0-9]] *)
Definition hex_lower (c : char) : bool :=
  ((97 <=? c) && (c <=? 102)) || ((48 <=? c) && (c <=? 57)).

(** The [Field] of [value]: [min_length=64], [max_length=64] and
    [pattern=r"^[a-f0-9]{64}$"]. *)
Definition value_field (v : str) : bool :=
  (length v =? 64)%nat && forallb hex_lower v.

(** [re.match(r"^[a-f0-9]{64}$", s)]: [$] also matches in front of a
    last newline. *)
Definition match_hash_format (s : str) : bool :=
  (length (firstn 64 s) =? 64)%nat && forallb hex_lower (firstn 64 s)
  && (str_eqb (skipn 64 s) [] || str_eqb (skipn 64 s) [LF]).

Section WithUnicode.

Variable U : UnicodeData.

Definition validate_hash_format (v : str) : result str :=
  if negb (match_hash_format (str_lower U v))
  then Err (ValueError "Hash must be a 64-character hexadecimal string")
  else Ok (str_lower U v).

(** [TextHash(value=v)].  Under [str_strip_whitespace] of the [Config]
    pydantic trims the string before it checks the [Field]; the validator
    of the field runs last. *)
Definition new (v : str) : result t :=
  let v := trim v in
  if value_field v
  then let* v := validate_hash_format v in Ok (Build v)
  else Err (ValidationError "value").

Definition _normalize_text (text : str) : str :=
  (* Remove extra whitespace *)
  let normalized := sub_ws (strip text) in
  (* Convert to lowercase for case-insensitive comparison *)
  let normalized := str_lower U normalized in
  (* Normalize Unicode to NFC form *)
  nfc U normalized.

Definition from_text (text : str) : result t :=
  match text with
  | [] => Err (ValueError "Text must be a non-empty string")
  | _ =>
      let normalized_text := _normalize_text text in
      let* hash_value := sha256_hex normalized_text in
      new hash_value
  end.

End WithUnicode.

Definition __eq__ (self other : t) : bool := str_eqb (value self) (value other).

(** [hash(self.value)]: [hash] is the interpreter's hash of a string. *)
Definition __hash__ (hash : str -> Z) (self : t) : Z := hash (value self).

End TextHash.

(** ** [src/domain/value_objects/confidence_score.py] *)

Module ConfidenceScore.

Local Open Scope Q_scope.

Record t : Type := Build { value : Q }.

(** The integer nearest to [x], the even one of two that are as near. *)
Definition round_half_even (x : Q) : Z :=
  let f := Qfloor x in
  match Qcompare (x - inject_Z f) (1 # 2) with
  | Lt => f
  | Gt => (f + 1)%Z
  | Eq => if Z.even f then f else (f + 1)%Z
  end.

(** The binary exponent of [x]: the [e] with [2^e <= |x| < 2^(e+1)], for
    [x] other than 0.  The difference of the two logarithms is [e] or
    [e + 1]. *)
Definition binade (x : Q) : Z :=
  let e := (Z.log2 (Z.abs (Qnum x)) - Z.log2 (Zpos (Qden x)))%Z in
  if Qle_bool (2 ^ e) (Qabs x) then e else (e - 1)%Z.

(** The float that Python holds for [x]: the double (IEEE 754 binary64)
    nearest to [x], the one with the even significand of two that are as
    near.  A double of exponent [e] is a multiple of [2^(e-52)], and of
    [2^(-1074)] below [2^(-1022)].  (The infinities that Python has from
    [2^1024] on are not modelled.) *)
Definition binary64 (x : Q) : Q :=
  let e := Z.max (binade x) (-1022) in
  let q := 2 ^ (e - 52) in
  inject_Z (round_half_even (x / q)) * q.

(** [round(v, ndigits)] for [ndigits >= 0].  The interpreter writes the
    exact value of the double [v] in decimal with [ndigits] digits after
    the point, correctly rounded (ties to even), and reads that decimal
    back as a double.  So 0.12345, whose double is a little above
    12345/100000, is rounded to 0.1235, and 0.03125, a double itself, to
    0.0312.  The result here is the decimal; the double that Python returns
    is the one nearest to it. *)
Definition round (v : Q) (ndigits : nat) : Q :=
  let p := (10 ^ Z.of_nat ndigits)%Z in
  inject_Z (round_half_even (binary64 v * inject_Z p)) / inject_Z p.

Definition validate_range (v : Q) : result Q :=
  if negb (Qle_bool 0 v && Qle_bool v 1)
  then Err (ValueError "Confidence score must be between 0.0 and 1.0")
  else Ok (round v 4).

(** [ConfidenceScore(value=v)]: the [Field] has [ge=0.0] and [le=1.0]. *)
Definition new (v : Q) : result t :=
  if Qle_bool 0 v && Qle_bool v 1
  then let* v := validate_range v in Ok (Build v)
  else Err (ValidationError "value").

(** [percentage / 100.0] goes into [round]: it is the division of floats,
    the double nearest to the quotient of the double of [percentage]. *)
Definition from_percentage (percentage : Q) : result t :=
  if negb (Qle_bool 0 percentage && Qle_bool percentage 100)
  then Err (ValueError "Percentage must be between 0 and 100")
  else new (binary64 (binary64 percentage / 100)).

Definition to_percentage (self : t) : Q := round (value self * 100) 2.

Definition is_high_confidence (self : t) (threshold : Q) : bool :=
  Qle_bool threshold (value self).

Definition is_low_confidence (self : t) (threshold : Q) : bool :=
  negb (Qle_bool threshold (value self)).

Definition get_confidence_level (self : t) : string :=
  if Qle_bool 0.8 (value self) then "HIGH"
  else if Qle_bool 0.6 (value self) then "MEDIUM"
  else if Qle_bool 0.2 (value self) then "LOW"
  else "VERY_LOW".

Definition __float__ (self : t) : Q := value self.

Definition __eq__ (self other : t) : bool :=
  negb (Qle_bool 0.0001 (Qabs (value self - value other))).

End ConfidenceScore.

(** ** [src/domain/entities/classification.py] *)

(** A value of a [Dict[str, Any]]. *)
Inductive py_value : Type :=
  | PyNone
  | PyBool (b : bool)
  | PyInt (z : Z)
  | PyFloat (q : Q)
  | PyStr (s : str).

Module ClassificationType.

Inductive t : Type := RELIABLE | INCONCLUSIVE | UNFOUNDED | FAKE.

Definition from_confidence (confidence : ConfidenceScore.t) : t :=
  if Qle_bool 0.8 (ConfidenceScore.value confidence) then RELIABLE
  else if Qle_bool 0.4 (ConfidenceScore.value confidence) then INCONCLUSIVE
  else if Qle_bool 0.2 (ConfidenceScore.value confidence) then UNFOUNDED
  else FAKE.

Definition get_color_code (self : t) : string :=
  match self with
  | RELIABLE => "#22c55e"
  | INCONCLUSIVE => "#eab308"
  | UNFOUNDED => "#f97316"
  | FAKE => "#ef4444"
  end.

Definition get_description (self : t) : string :=
  match self with
  | RELIABLE => "Information appears to be trustworthy and well-founded"
  | INCONCLUSIVE => "Cannot determine the reliability of this information"
  | UNFOUNDED => "Information lacks proper foundation or evidence"
  | FAKE => "Information appears to be false or misleading"
  end.

End ClassificationType.

(** [list(dict.fromkeys(l))]: the first occurrence of each entry, in
    order.  [seen] holds the keys already in the dictionary. *)
Fixpoint fromkeys_from (seen : list str) (l : list str) : list str :=
  match l with
  | [] => []
  | x :: r =>
      if existsb (str_eqb x) seen then fromkeys_from seen r
      else x :: fromkeys_from (x :: seen) r
  end.

Definition dict_fromkeys (l : list str) : list str := fromkeys_from [] l.

Definition nonempty (s : str) : bool :=
  match s with [] => false | _ => true end.

Module Classification.

Record t : Type := Build {
  classification_type : ClassificationType.t;
  confidence : ConfidenceScore.t;
  reasoning : option str;
  evidence_sources : list str;
  metadata : gmap string py_value
}.

Definition validate_evidence_sources (v : list str) : list str :=
  (* Remove empty strings and duplicates *)
  let cleaned :=
    dict_fromkeys (List.map strip (List.filter (fun source => nonempty (strip source)) v)) in
  (* Limit to 10 sources *)
  slice_to 10 cleaned.

Definition validate_reasoning (v : option str) : option str :=
  match v with
  | None => None
  | Some v =>
      let cleaned := strip v in
      if nonempty cleaned then Some cleaned else None
  end.

(** [Classification(classification_type=.., confidence=.., reasoning=..,
    evidence_sources=..)]: [reasoning] has [max_length=1000] and
    [evidence_sources] has [max_items=10]. *)
Definition new (classification_type : ClassificationType.t)
    (confidence : ConfidenceScore.t) (reasoning : option str)
    (evidence_sources : list str) : result t :=
  if negb (match reasoning with
           | Some r => (length r <=? 1000)%nat
           | None => true
           end)
  then Err (ValidationError "reasoning")
  else if negb (length evidence_sources <=? 10)%nat
  then Err (ValidationError "evidence_sources")
  else Ok (Build classification_type confidence
                 (validate_reasoning reasoning)
                 (validate_evidence_sources evidence_sources)
                 ∅).

(** [x or []] *)
Definition or_empty (l : option (list str)) : list str :=
  match l with Some l => l | None => [] end.

Definition create_reliable (confidence : ConfidenceScore.t)
    (reasoning : option str) (evidence_sources : option (list str)) : result t :=
  new ClassificationType.RELIABLE confidence reasoning (or_empty evidence_sources).

Definition create_fake (confidence : ConfidenceScore.t)
    (reasoning : option str) (evidence_sources : option (list str)) : result t :=
  new ClassificationType.FAKE confidence reasoning (or_empty evidence_sources).

Definition create_inconclusive (confidence : ConfidenceScore.t)
    (reasoning : option str) : result t :=
  new ClassificationType.INCONCLUSIVE confidence
      (match reasoning with
       | Some ((_ :: _) as r) => Some r
       | _ => Some (u "Insufficient evidence to determine reliability")
       end)
      [].

Definition from_confidence_auto (confidence : ConfidenceScore.t)
    (reasoning : option str) (evidence_sources : option (list str)) : result t :=
  let classification_type := ClassificationType.from_confidence confidence in
  new classification_type confidence reasoning (or_empty evidence_sources).

Definition is_trustworthy (self : t) : bool :=
  match classification_type self with
  | ClassificationType.RELIABLE => true
  | _ => false
  end.

Definition is_problematic (self : t) : bool :=
  match classification_type self with
  | ClassificationType.UNFOUNDED | ClassificationType.FAKE => true
  | _ => false
  end.

End Classification.

(** ** [src/domain/entities/text.py] *)

Module Text.

Record t : Type := Build {
  original_content : str;
  normalized_content : str;
  text_hash : TextHash.t;
  language : option str;
  word_count : Z;
  character_count : Z;
  keywords : list str;
  source_url : option str;
  created_at : Z;
  metadata : gmap string py_value
}.

Definition DEFAULT_LANGUAGE : str := u "pt".

(** [re.match(r'^[a-z]{2}(-[A-Z]{2})?$', v)]: [$] also matches in front
    of a last newline. *)
Definition match_language_code (v : str) : bool :=
  match v with
  | [a; b] | [a; b; 10] => ascii_lower a && ascii_lower b
  | [a; b; 45; c; d] | [a; b; 45; c; d; 10] =>
      ascii_lower a && ascii_lower b && ascii_upper c && ascii_upper d
  | _ => false
  end.

Definition validate_content_length (v : str) : result str :=
  if negb (nonempty v) || negb (nonempty (strip v))
  then Err (ValueError "Text content cannot be empty")
  else
    let stripped := strip v in
    if (length stripped <? 10)%nat
    then Err (ValueError "Text must be at least 10 characters long")
    else if (2000 <? length stripped)%nat
    then Err (ValueError "Text cannot exceed 2000 characters")
    else Ok stripped.

Section WithUnicode.

Variable U : UnicodeData.

Definition validate_language_code (v : option str) : option str :=
  match v with
  | None => Some DEFAULT_LANGUAGE (* Default to Portuguese *)
  | Some v =>
      (* Basic validation for ISO 639-1 codes *)
      if negb (match_language_code v)
      then Some DEFAULT_LANGUAGE (* Fallback to Portuguese if invalid *)
      else Some (str_lower U v)
  end.

(** The loop of [validate_keywords]: [seen] is the set of the keywords
    kept so far. *)
Fixpoint clean_keywords (seen : list str) (v : list str) : list str :=
  match v with
  | [] => []
  | keyword :: r =>
      let clean_keyword := str_lower U (strip keyword) in
      if nonempty clean_keyword && (2 <=? length clean_keyword)%nat
         && negb (existsb (str_eqb clean_keyword) seen)
      then clean_keyword :: clean_keywords (clean_keyword :: seen) r
      else clean_keywords seen r
  end.

Definition validate_keywords (v : list str) : list str :=
  match v with
  | [] => []
  | _ => slice_to 20 (clean_keywords [] v)
  end.

(** [Text(original_content=.., ..)]: the [Field] constraints of each
    field, then its validator.  [now] is [datetime.utcnow()]. *)
Definition new (now : Z) (original_content normalized_content : str)
    (text_hash : TextHash.t) (language : option str)
    (word_count character_count : Z) (keywords : list str)
    (source_url : option str) : result t :=
  if negb ((10 <=? length original_content)%nat
           && (length original_content <=? 2000)%nat)
  then Err (ValidationError "original_content")
  else
    let* original_content := validate_content_length original_content in
    if negb (match language with
             | Some l => (2 <=? length l)%nat && (length l <=? 5)%nat
             | None => true
             end)
    then Err (ValidationError "language")
    else if negb (1 <=? word_count)%Z
    then Err (ValidationError "word_count")
    else if negb ((10 <=? character_count)%Z && (character_count <=? 2000)%Z)
    then Err (ValidationError "character_count")
    else if negb (length keywords <=? 20)%nat
    then Err (ValidationError "keywords")
    else if negb (match source_url with
                  | Some s => (length s <=? 500)%nat
                  | None => true
                  end)
    then Err (ValidationError "source_url")
    else Ok (Build original_content normalized_content text_hash
                   (validate_language_code language)
                   word_count character_count
                   (validate_keywords keywords)
                   source_url now ∅).

Definition _normalize_content (content : str) : str :=
  (* Remove extra whitespace *)
  let normalized := sub_ws (strip content) in
  (* Normalize Unicode *)
  let normalized := nfc U normalized in
  (* Remove control characters but keep basic punctuation *)
  List.filter (fun c => negb (category_C U c)
                   || (c =? LF) || (c =? CR) || (c =? TAB)) normalized.

Definition create (now : Z) (content : str) (source_url : option str)
    (language : option str) (keywords : option (list str)) : result t :=
  (* Validate and clean content *)
  if negb (nonempty content) || negb (nonempty (strip content))
  then Err (ValueError "Content cannot be empty")
  else
    let original_content := strip content in
    (* Normalize content *)
    let normalized_content := _normalize_content original_content in
    (* Generate hash *)
    let* text_hash := TextHash.from_text U normalized_content in
    (* Count words and characters *)
    let word_count := Z.of_nat (length (split normalized_content)) in
    let character_count := Z.of_nat (length original_content) in
    new now original_content normalized_content text_hash
        (match language with
         | Some ((_ :: _) as l) => Some l
         | _ => Some DEFAULT_LANGUAGE
         end)
        word_count character_count
        (Classification.or_empty keywords)
        source_url.

Definition is_similar_to (self other : t) (threshold : Q) : bool :=
  if TextHash.__eq__ (text_hash self) (text_hash other) then true
  else
    (* Simple similarity based on common words *)
    let words1 : gset str :=
      list_to_set (split (str_lower U (normalized_content self))) in
    let words2 : gset str :=
      list_to_set (split (str_lower U (normalized_content other))) in
    if bool_decide (words1 = ∅) || bool_decide (words2 = ∅) then false
    else
      let similarity := jaccard words1 words2 in
      Qle_bool threshold similarity.

End WithUnicode.

(** [extract_sentences]: the pattern is [[.!?]+], the class of
    [TextProcessor.SENTENCE_END], and the minimum length is 10. *)
Definition extract_sentences (self : t) : list str :=
  (* Simple sentence splitting *)
  let sentences := re_split TextProcessor.SENTENCE_END (normalized_content self) in
  (* Clean and filter sentences *)
  TextProcessor.clean_sentences 10 sentences.

Definition get_preview (self : t) (max_length : Z) : str :=
  if (Z.of_nat (length (original_content self)) <=? max_length)%Z
  then original_content self
  else
    (* Find a good breaking point *)
    let truncated := slice_to max_length (original_content self) in
    let last_space := rfind SP truncated in
    let truncated :=
      (* If space is reasonably close to end *)
      if negb (Qle_bool (inject_Z last_space) (inject_Z max_length * 0.8)%Q)
      then slice_to last_space truncated
      else truncated in
    truncated ++ u "...".

Definition __eq__ (self other : t) : bool :=
  TextHash.__eq__ (text_hash self) (text_hash other).

(** [hash(self.text_hash.value)] *)
Definition __hash__ (hash : str -> Z) (self : t) : Z :=
  hash (TextHash.value (text_hash self)).

End Text.

(** ** [src/domain/entities/analysis_result.py] *)

Module AnalysisSource.

Local Open Scope Q_scope.

Inductive t : Type := FACT_CHECK | LLM | VECTOR_SEARCH | CACHE | HYBRID | MANUAL.

(** [self.value] *)
Definition value (self : t) : str :=
  match self with
  | FACT_CHECK => u "fact_check"
  | LLM => u "llm"
  | VECTOR_SEARCH => u "vector_search"
  | CACHE => u "cache"
  | HYBRID => u "hybrid"
  | MANUAL => u "manual"
  end.

Definition get_reliability_score (self : t) : Q :=
  match self with
  | FACT_CHECK => 0.95
  | VECTOR_SEARCH => 0.85
  | LLM => 0.75
  | HYBRID => 0.90
  | CACHE => 1.0
  | MANUAL => 1.0
  end.

Definition eqb (a b : t) : bool :=
  match a, b with
  | FACT_CHECK, FACT_CHECK | LLM, LLM | VECTOR_SEARCH, VECTOR_SEARCH
  | CACHE, CACHE | HYBRID, HYBRID | MANUAL, MANUAL => true
  | _, _ => false
  end.

End AnalysisSource.

Module AnalysisResult.

Local Open Scope Q_scope.

Record t : Type := Build {
  text : Text.t;
  classification : Classification.t;
  source : AnalysisSource.t;
  processing_time_ms : Z;
  cost_cents : Z;
  created_at : Z;
  expires_at : option Z;
  fact_check_sources : list str;
  similar_texts_found : Z;
  api_response_raw : option (gmap string py_value);
  metadata : gmap string py_value
}.

Definition validate_processing_time (v : Z) : result Z :=
  if (v <? 0)%Z then Err (ValueError "Processing time cannot be negative")
  else Ok v.

Definition validate_cost (v : Z) : result Z :=
  if (v <? 0)%Z then Err (ValueError "Cost cannot be negative")
  else Ok v.

(** The loop of [validate_fact_check_sources]. *)
Fixpoint clean_sources (seen : list str) (v : list str) : list str :=
  match v with
  | [] => []
  | source :: r =>
      let clean_source := strip source in
      if nonempty clean_source && negb (existsb (str_eqb clean_source) seen)
      then clean_source :: clean_sources (clean_source :: seen) r
      else clean_sources seen r
  end.

Definition validate_fact_check_sources (v : list str) : list str :=
  match v with
  | [] => []
  | _ => slice_to 10 (clean_sources [] v) (* Limit to 10 sources *)
  end.

(** [AnalysisResult(text=.., ..)]: [processing_time_ms], [cost_cents] and
    [similar_texts_found] have [ge=0], [fact_check_sources] has
    [max_items=10].  [now] is [datetime.utcnow()]. *)
Definition new (now : Z) (text : Text.t) (classification : Classification.t)
    (source : AnalysisSource.t) (processing_time_ms cost_cents : Z)
    (expires_at : option Z) (fact_check_sources : list str)
    (similar_texts_found : Z)
    (api_response_raw : option (gmap string py_value))
    (metadata : gmap string py_value) : result t :=
  if negb (0 <=? processing_time_ms)%Z
  then Err (ValidationError "processing_time_ms")
  else
    let* processing_time_ms := validate_processing_time processing_time_ms in
    if negb (0 <=? cost_cents)%Z
    then Err (ValidationError "cost_cents")
    else
      let* cost_cents := validate_cost cost_cents in
      if negb (length fact_check_sources <=? 10)%nat
      then Err (ValidationError "fact_check_sources")
      else if negb (0 <=? similar_texts_found)%Z
      then Err (ValidationError "similar_texts_found")
      else Ok (Build text classification source processing_time_ms cost_cents
                     now expires_at
                     (validate_fact_check_sources fact_check_sources)
                     similar_texts_found api_response_raw metadata).

Definition create_from_fact_check (now : Z) (text : Text.t)
    (classification : Classification.t) (processing_time_ms : Z)
    (fact_check_sources : list str) (cost_cents : Z)
    (expires_at : option Z) : result t :=
  new now text classification AnalysisSource.FACT_CHECK
      processing_time_ms cost_cents expires_at fact_check_sources 0%Z None ∅.

Definition create_from_llm (now : Z) (text : Text.t)
    (classification : Classification.t) (processing_time_ms cost_cents : Z)
    (api_response_raw : option (gmap string py_value))
    (expires_at : option Z) : result t :=
  new now text classification AnalysisSource.LLM
      processing_time_ms cost_cents expires_at [] 0%Z api_response_raw ∅.

(** The default of [processing_time_ms] in [create_from_cache]. *)
Definition CACHE_PROCESSING_TIME_MS : Z := 1.

Definition create_from_cache (now : Z) (text : Text.t)
    (classification : Classification.t) (original_source : AnalysisSource.t)
    (processing_time_ms : Z) : result t :=
  new now text classification AnalysisSource.CACHE
      processing_time_ms 0%Z None [] 0%Z None
      {[ "original_source"%string := PyStr (AnalysisSource.value original_source) ]}.

Definition create_inconclusive (now : Z) (text : Text.t)
    (processing_time_ms : Z) (reason : str) : result t :=
  let* confidence := ConfidenceScore.new 0.5 in
  let* classification :=
    Classification.create_inconclusive confidence (Some reason) in
  new now text classification AnalysisSource.HYBRID
      processing_time_ms 0%Z None [] 0%Z None ∅.

Definition is_cached (self : t) : bool :=
  AnalysisSource.eqb (source self) AnalysisSource.CACHE.

(** [now] is [datetime.utcnow()]. *)
Definition is_expired (now : Z) (self : t) : bool :=
  match expires_at self with
  | None => false
  | Some e => (e <? now)%Z
  end.

Definition is_high_confidence (self : t) (threshold : Q) : bool :=
  ConfidenceScore.is_high_confidence
    (Classification.confidence (classification self)) threshold.

Definition is_fast_response (self : t) (threshold_ms : Z) : bool :=
  (processing_time_ms self <=? threshold_ms)%Z.

Definition is_cost_effective (self : t) (threshold_cents : Z) : bool :=
  (cost_cents self <=? threshold_cents)%Z.

Definition get_performance_score (self : t) : Q :=
  (* Confidence score (40% weight) *)
  let confidence_score :=
    ConfidenceScore.__float__ (Classification.confidence (classification self))
    * 0.4 in
  (* Speed score (30% weight) - faster is better *)
  let speed_score :=
    Qmin 1.0 (5000 / inject_Z (Z.max (processing_time_ms self) 100)) * 0.3 in
  (* Cost score (20% weight) - cheaper is better *)
  let cost_score :=
    Qmin 1.0 (50 / inject_Z (Z.max (cost_cents self) 1)) * 0.2 in
  (* Source reliability (10% weight) *)
  let source_score := AnalysisSource.get_reliability_score (source self) * 0.1 in
  confidence_score + speed_score + cost_score + source_score.

End AnalysisResult.

(** ** [src/domain/value_objects/api_key.py] *)

(** The codecs of the standard library that [ApiKey] calls.  They are not
    part of the repository: like the Unicode database, they are a record of
    functions that every definition takes as a parameter. *)
Record Codecs : Type := {
  (** [base64.b64encode(b).decode('utf-8')] *)
  b64encode : list byte -> str;
  (** [base64.b64decode(s)], [None] when it raises *)
  b64decode : str -> option (list byte);
  (** [b.decode('utf-8')], [None] when it raises *)
  utf8_decode : list byte -> option str
}.

(** [s.startswith(p)] *)
Definition startswith (p s : str) : bool := str_eqb (firstn (length p) s) p.

(** [p in s] *)
Fixpoint contains (p s : str) : bool :=
  startswith p s
  || match s with
     | [] => false
     | _ :: r => contains p r
     end.

Module ApiKey.

Record t : Type := Build {
  encrypted_value : str;
  service_name : str;
  is_default : bool
}.

(** What a call returns or raises: an exception of [error], or the
    [ZeroDivisionError] of an empty encryption key. *)
Inductive outcome (A : Type) : Type :=
  | Returns (a : A)
  | Raises (e : error)
  | RaisesZeroDivisionError.
Arguments Returns {A} a.
Arguments Raises {A} e.
Arguments RaisesZeroDivisionError {A}.

Definition allowed_services : list str :=
  [u "google_fact_check"; u "groq_llm"; u "openrouter"; u "custom"].

Definition STAR : char := 42.

(** [(key * ((n // len(key)) + 1))[:n]] *)
Definition key_repeated (key : list byte) (n : nat) : list byte :=
  firstn n (concat (repeat key (n / length key + 1))).

(** [bytes(a ^ b for a, b in zip(data, key_repeated))] *)
Definition xor_bytes (data key_repeated : list byte) : list byte :=
  List.map (fun ab => N.lxor (fst ab) (snd ab)) (combine data key_repeated).

Definition _simple_encrypt (data key : list byte) : outcome (list byte) :=
  match key with
  | [] => RaisesZeroDivisionError
  | _ =>
      (* Repeat key to match data length *)
      let key_repeated := key_repeated key (length data) in
      (* XOR encryption *)
      let encrypted := xor_bytes data key_repeated in
      (* Prepend key for decryption *)
      Returns (key ++ encrypted)
  end.

Section WithLibraries.

Variable U : UnicodeData.
Variable C : Codecs.

(** The message of the [ValueError] goes on with the allowed services, in
    the order in which the set gives them. *)
Definition validate_service_name (v : str) : result str :=
  if negb (existsb (str_eqb (str_lower U v)) allowed_services)
  then Err (ValueError "Service name must be one of: ")
  else Ok (str_lower U v).

Definition validate_encrypted_value (v : str) : result str :=
  match b64decode C v with
  | None => Err (ValueError "Encrypted value must be valid base64")
  | Some _ => Ok v
  end.

(** [ApiKey(encrypted_value=.., service_name=.., is_default=..)]:
    [encrypted_value] has [min_length=1], [service_name] has [min_length=1]
    and [max_length=50]. *)
Definition new (encrypted_value service_name : str) (is_default : bool)
  : result t :=
  if negb (1 <=? length encrypted_value)%nat
  then Err (ValidationError "encrypted_value")
  else
    let* encrypted_value := validate_encrypted_value encrypted_value in
    if negb ((1 <=? length service_name)%nat && (length service_name <=? 50)%nat)
    then Err (ValidationError "service_name")
    else
      let* service_name := validate_service_name service_name in
      Ok (Build encrypted_value service_name is_default).

(** [token_bytes] is what [secrets.token_bytes(32)] returns when it is
    called. *)
Definition create (token_bytes : list byte) (raw_key service_name : str)
    (is_default : bool) (encryption_key : option (list byte)) : outcome t :=
  match raw_key with
  | [] => Raises (ValueError "Raw key must be a non-empty string")
  | _ =>
      if (length (strip raw_key) <? 8)%nat
      then Raises (ValueError "API key must be at least 8 characters long")
      else
        let encryption_key :=
          match encryption_key with
          | None => token_bytes
          | Some k => k
          end in
        match utf8_encode raw_key with
        | Err e => Raises e
        | Ok data =>
            match _simple_encrypt data encryption_key with
            | Returns encrypted_bytes =>
                let encrypted_value := b64encode C encrypted_bytes in
                match new encrypted_value service_name is_default with
                | Ok k => Returns k
                | Err e => Raises e
                end
            | Raises e => Raises e
            | RaisesZeroDivisionError => RaisesZeroDivisionError
            end
        end
  end.

(** Every exception is caught and raised again as a [ValueError], whose
    message goes on with the text of the exception caught. *)
Definition decrypt (self : t) : result str :=
  match b64decode C (encrypted_value self) with
  | None => Err (ValueError "Failed to decrypt API key: ")
  | Some encrypted_bytes =>
      (* Extract key and encrypted data *)
      let key := firstn 32 encrypted_bytes in
      let encrypted_data := skipn 32 encrypted_bytes in
      match key with
      | [] => Err (ValueError "Failed to decrypt API key: ")
      | _ =>
          (* Decrypt using XOR *)
          let key_repeated := key_repeated key (length encrypted_data) in
          let decrypted := xor_bytes encrypted_data key_repeated in
          match utf8_decode C decrypted with
          | None => Err (ValueError "Failed to decrypt API key: ")
          | Some s => Ok s
          end
      end
  end.

Definition is_valid_format (self : t) : bool :=
  match decrypt self with
  | Err _ => false
  | Ok decrypted =>
      (* Basic format validation based on service *)
      if str_eqb (service_name self) (u "google_fact_check")
      then (20 <=? length decrypted)%nat
           && (startswith (u "AIza") decrypted || startswith (u "ya29") decrypted)
      else if str_eqb (service_name self) (u "groq_llm")
      then (30 <=? length decrypted)%nat && contains (u "gsk_") decrypted
      else if str_eqb (service_name self) (u "openrouter")
      then (20 <=? length decrypted)%nat
      else (8 <=? length decrypted)%nat
  end.

Definition mask_for_display (self : t) : str :=
  match decrypt self with
  | Err _ => u "***INVALID***"
  | Ok decrypted =>
      if (length decrypted <=? 8)%nat
      then repeat STAR (length decrypted)
      else firstn 4 decrypted
           ++ repeat STAR (length decrypted - 8)
           ++ skipn (length decrypted - 4) decrypted
  end.

End WithLibraries.

Definition __eq__ (self other : t) : bool :=
  str_eqb (encrypted_value self) (encrypted_value other)
  && str_eqb (service_name self) (service_name other).

End ApiKey.

(** The codecs of RFC 4648 and RFC 3629, to run the code on concrete
    inputs.  The decoder of base64 is the strict one: it refuses a string
    with a character outside the alphabet, which the decoder of the library
    skips. *)
Definition b64_char (d : N) : char :=
  if d <? 26 then 65 + d
  else if d <? 52 then 71 + d
  else if d <? 62 then d - 4
  else if d =? 62 then 43 else 47.

Definition b64_value (c : char) : option N :=
  if (65 <=? c) && (c <=? 90) then Some (c - 65)
  else if (97 <=? c) && (c <=? 122) then Some (c - 71)
  else if (48 <=? c) && (c <=? 57) then Some (c + 4)
  else if c =? 43 then Some 62
  else if c =? 47 then Some 63
  else None.

Fixpoint rfc_b64encode (bs : list byte) : str :=
  match bs with
  | [] => []
  | [a] => [b64_char (a / 4); b64_char (a mod 4 * 16); 61; 61]
  | [a; b] =>
      [b64_char (a / 4); b64_char (a mod 4 * 16 + b / 16);
       b64_char (b mod 16 * 4); 61]
  | a :: b :: c :: r =>
      b64_char (a / 4) :: b64_char (a mod 4 * 16 + b / 16)
      :: b64_char (b mod 16 * 4 + c / 64) :: b64_char (c mod 64)
      :: rfc_b64encode r
  end.

Fixpoint rfc_b64decode (s : str) : option (list byte) :=
  match s with
  | [] => Some []
  | c1 :: c2 :: c3 :: c4 :: r =>
      match b64_value c1, b64_value c2 with
      | Some v1, Some v2 =>
          match b64_value c3, b64_value c4, r with
          | Some v3, Some v4, _ =>
              match rfc_b64decode r with
              | Some rest =>
                  Some (v1 * 4 + v2 / 16 :: v2 mod 16 * 16 + v3 / 4
                        :: v3 mod 4 * 64 + v4 :: rest)
              | None => None
              end
          | Some v3, None, [] =>
              if c4 =? 61 then Some [v1 * 4 + v2 / 16; v2 mod 16 * 16 + v3 / 4]
              else None
          | None, None, [] =>
              if (c3 =? 61) && (c4 =? 61) then Some [v1 * 4 + v2 / 16] else None
          | _, _, _ => None
          end
      | _, _ => None
      end
  | _ => None
  end.

Definition utf8_tail (b : byte) : bool := (0x80 <=? b) && (b <=? 0xBF).

Fixpoint rfc_utf8_decode (bs : list byte) : option str :=
  match bs with
  | [] => Some []
  | b0 :: r =>
      if b0 <? 0x80 then option_map (cons b0) (rfc_utf8_decode r)
      else if (0xC2 <=? b0) && (b0 <=? 0xDF) then
        match r with
        | b1 :: r =>
            if utf8_tail b1
            then option_map (cons ((b0 - 0xC0) * 64 + (b1 - 0x80)))
                   (rfc_utf8_decode r)
            else None
        | _ => None
        end
      else if (0xE0 <=? b0) && (b0 <=? 0xEF) then
        match r with
        | b1 :: b2 :: r =>
            let c := (b0 - 0xE0) * 4096 + (b1 - 0x80) * 64 + (b2 - 0x80) in
            if utf8_tail b1 && utf8_tail b2 && (0x800 <=? c)
               && negb ((0xD800 <=? c) && (c <=? 0xDFFF))
            then option_map (cons c) (rfc_utf8_decode r)
            else None
        | _ => None
        end
      else if (0xF0 <=? b0) && (b0 <=? 0xF4) then
        match r with
        | b1 :: b2 :: b3 :: r =>
            let c := (b0 - 0xF0) * 262144 + (b1 - 0x80) * 4096
                     + (b2 - 0x80) * 64 + (b3 - 0x80) in
            if utf8_tail b1 && utf8_tail b2 && utf8_tail b3
               && (0x10000 <=? c) && (c <=? 0x10FFFF)
            then option_map (cons c) (rfc_utf8_decode r)
            else None
        | _ => None
        end
      else None
  end.

Definition rfc_codecs : Codecs := {|
  b64encode := rfc_b64encode;
  b64decode := rfc_b64decode;
  utf8_decode := rfc_utf8_decode
|}.

(** ** [src/domain/entities/user.py] *)

Module AnalysisMode.

Inductive t : Type :=
  AUTOMATIC | FACT_CHECK_ONLY | LLM_ONLY | VECTOR_ONLY | OFFLINE.

Definition get_display_name (self : t) : string :=
  match self with
  | AUTOMATIC => "Automatic (Recommended)"
  | FACT_CHECK_ONLY => "Fact Check API Only"
  | LLM_ONLY => "AI Language Model Only"
  | VECTOR_ONLY => "Similarity Search Only"
  | OFFLINE => "Offline Mode (Cache Only)"
  end.

End AnalysisMode.

Module UITheme.

Inductive t : Type := SYSTEM | LIGHT | DARK.

Definition get_display_name (self : t) : string :=
  match self with
  | SYSTEM => "System Default"
  | LIGHT => "Light Mode"
  | DARK => "Dark Mode"
  end.

End UITheme.

Module User.

Record t : Type := Build {
  user_id : str;
  analysis_mode : AnalysisMode.t;
  ui_theme : UITheme.t;
  api_keys : list ApiKey.t;
  auto_analyze : bool;
  cache_enabled : bool;
  cache_duration_days : Z;
  language_preference : str;
  confidence_threshold : Q;
  created_at : Z;
  last_active_at : Z;
  total_analyses : Z;
  total_cost_cents : Z;
  metadata : gmap string py_value
}.

(** The loop of [validate_api_keys]: [seen_services] is the set of the
    services of the keys kept so far. *)
Fixpoint unique_keys (seen_services : list str) (v : list ApiKey.t)
  : list ApiKey.t :=
  match v with
  | [] => []
  | key :: r =>
      if negb (existsb (str_eqb (ApiKey.service_name key)) seen_services)
      then key :: unique_keys (ApiKey.service_name key :: seen_services) r
      else unique_keys seen_services r
  end.

Definition validate_api_keys (v : list ApiKey.t) : list ApiKey.t :=
  match v with
  | [] => []
  | _ => unique_keys [] v (* Ensure no duplicate service keys *)
  end.

Section WithUnicode.

Variable U : UnicodeData.

(** [v.isalnum()] *)
Definition str_isalnum (v : str) : bool :=
  nonempty v && forallb (isalnum U) v.

Definition validate_user_id (v : str) : result str :=
  if negb (nonempty v) || negb (nonempty (strip v))
  then Err (ValueError "User ID cannot be empty")
  else
    (* Basic validation for user ID format *)
    if negb (str_isalnum v)
       && negb (forallb (fun c => isalnum U c || (c =? 45) || (c =? 95)) v)
    then Err (ValueError
                "User ID can only contain alphanumeric characters, hyphens, and underscores")
    else Ok (strip v).

(** The pattern is the one of [Text.validate_language_code]. *)
Definition validate_language_code (v : str) : str :=
  (* Basic validation for ISO 639-1 codes *)
  if negb (Text.match_language_code v)
  then u "pt" (* Fallback to Portuguese if invalid *)
  else str_lower U v.

(** [User(user_id=.., ..)]: [user_id] has [min_length=8] and
    [max_length=64], [cache_duration_days] has [ge=1] and [le=365],
    [language_preference] has [min_length=2] and [max_length=5],
    [confidence_threshold] has [ge=0.0] and [le=1.0], [total_analyses] and
    [total_cost_cents] have [ge=0]. *)
Definition new (user_id : str) (analysis_mode : AnalysisMode.t)
    (ui_theme : UITheme.t) (api_keys : list ApiKey.t)
    (auto_analyze cache_enabled : bool) (cache_duration_days : Z)
    (language_preference : str) (confidence_threshold : Q)
    (created_at last_active_at : Z) (total_analyses total_cost_cents : Z)
    (metadata : gmap string py_value) : result t :=
  if negb ((8 <=? length user_id)%nat && (length user_id <=? 64)%nat)
  then Err (ValidationError "user_id")
  else
    let* user_id := validate_user_id user_id in
    let api_keys := validate_api_keys api_keys in
    if negb ((1 <=? cache_duration_days)%Z && (cache_duration_days <=? 365)%Z)
    then Err (ValidationError "cache_duration_days")
    else if negb ((2 <=? length language_preference)%nat
                  && (length language_preference <=? 5)%nat)
    then Err (ValidationError "language_preference")
    else
      let language_preference := validate_language_code language_preference in
      if negb (Qle_bool 0 confidence_threshold && Qle_bool confidence_threshold 1)
      then Err (ValidationError "confidence_threshold")
      else if negb (0 <=? total_analyses)%Z
      then Err (ValidationError "total_analyses")
      else if negb (0 <=? total_cost_cents)%Z
      then Err (ValidationError "total_cost_cents")
      else Ok (Build user_id analysis_mode ui_theme api_keys auto_analyze
                     cache_enabled cache_duration_days language_preference
                     confidence_threshold created_at last_active_at
                     total_analyses total_cost_cents metadata).

(** [uuid_hex] is [uuid.uuid4().hex], [now] and [now'] are the two readings
    of [datetime.utcnow()] for [created_at] and [last_active_at]. *)
Definition create_new (uuid_hex : str) (now now' : Z) (user_id : str) : result t :=
  (* Generate a random user ID if not provided *)
  let user_id :=
    if negb (nonempty user_id) || negb (nonempty (strip user_id))
    then u "user_" ++ slice_to 12 uuid_hex
    else user_id in
  new user_id AnalysisMode.AUTOMATIC UITheme.SYSTEM [] false true 30 (u "pt")
      0.8%Q now now' 0 0 ∅.

End WithUnicode.

(** [self.api_keys = keys] *)
Definition set_api_keys (self : t) (keys : list ApiKey.t) : t :=
  Build (user_id self) (analysis_mode self) (ui_theme self) keys
        (auto_analyze self) (cache_enabled self) (cache_duration_days self)
        (language_preference self) (confidence_threshold self)
        (created_at self) (last_active_at self) (total_analyses self)
        (total_cost_cents self) (metadata self).

(** The methods that change the user return the user they leave. *)
Definition add_api_key (self : t) (api_key : ApiKey.t) : t :=
  (* Remove existing key for the same service *)
  let keys :=
    List.filter
      (fun key => negb (str_eqb (ApiKey.service_name key)
                          (ApiKey.service_name api_key)))
      (api_keys self) in
  (* Add the new key *)
  set_api_keys self (keys ++ [api_key]).

Definition remove_api_key (self : t) (service_name : str) : t * bool :=
  let original_count := length (api_keys self) in
  let keys :=
    List.filter
      (fun key => negb (str_eqb (ApiKey.service_name key) service_name))
      (api_keys self) in
  (set_api_keys self keys, (length keys <? original_count)%nat).

Definition get_api_key (self : t) (service_name : str) : option ApiKey.t :=
  List.find (fun key => str_eqb (ApiKey.service_name key) service_name)
    (api_keys self).

Definition has_api_key (self : t) (service_name : str) : bool :=
  existsb (fun key => str_eqb (ApiKey.service_name key) service_name)
    (api_keys self).

(** [now] is [datetime.utcnow()]. *)
Definition record_analysis (now : Z) (self : t) (cost_cents : Z) : t :=
  Build (user_id self) (analysis_mode self) (ui_theme self) (api_keys self)
        (auto_analyze self) (cache_enabled self) (cache_duration_days self)
        (language_preference self) (confidence_threshold self)
        (created_at self) now
        (total_analyses self + 1)
        (total_cost_cents self + Z.max 0 cost_cents)
        (metadata self).

End User.

(** ** Vocabulary of the specification *)

(** The type [ClassificationType.from_confidence] gives to
    [ConfidenceScore(value=v)], when the score can be built. *)
Definition classify_value (v : Q) : option ClassificationType.t :=
  match ConfidenceScore.new v with
  | Ok c => Some (ClassificationType.from_confidence c)
  | Err _ => None
  end.

(** The formula of the performance score as the specification writes it,
    and its table of source reliabilities. *)
Definition source_reliability_table (source : AnalysisSource.t) : Q :=
  match source with
  | AnalysisSource.FACT_CHECK => 95 # 100
  | AnalysisSource.VECTOR_SEARCH => 85 # 100
  | AnalysisSource.LLM => 75 # 100
  | AnalysisSource.HYBRID => 90 # 100
  | AnalysisSource.CACHE => 1
  | AnalysisSource.MANUAL => 1
  end.

Definition performance_formula (confidence : Q) (processing_time_ms cost_cents : Z)
    (source : AnalysisSource.t) : Q :=
  (4 # 10) * confidence
  + (3 # 10) * Qmin 1 (5000 / inject_Z (Z.max processing_time_ms 100))
  + (2 # 10) * Qmin 1 (50 / inject_Z (Z.max cost_cents 1))
  + (1 # 10) * source_reliability_table source.

(** Sample values: the [Text] of the content "Hello World!!", a
    classification of confidence 0.9 and the fact-check result of a second
    and five cents built from them. *)
Definition sample_text : Text.t :=
  Text.Build (u "Hello World!!") (u "Hello World!!")
    (TextHash.Build
       (u "8380c4c6720e0d5ce4789bf72df03a6e1b3ed80891f3adbe8833c760399b8e91"))
    (Some (u "pt")) 2 13 [] None 0 ∅.

Definition sample_classification : Classification.t :=
  Classification.Build ClassificationType.RELIABLE
    (ConfidenceScore.Build (9000 # 10000)) None [] ∅.

Definition sample_result : AnalysisResult.t :=
  AnalysisResult.Build sample_text sample_classification
    AnalysisSource.FACT_CHECK 1000 5 0 None [] 0 None ∅.

(** [x] stands in front of [y] in [l]. *)
Definition stands_before {A : Type} (x y : A) (l : list A) : Prop :=
  exists l1 l2 l3, l = l1 ++ x :: l2 ++ y :: l3.

(** [x] occurs in [l] in front of every occurrence of [y]: it is seen
    first. *)
Definition first_seen_before {A : Type} (x y : A) (l : list A) : Prop :=
  exists p q, l = p ++ x :: q /\ ~ In y p.

(** What a cleaned list of sources [r] owes to the list [v] it comes from:
    at most ten entries, none twice, each one the stripped form of an entry
    of [v] and not blank, in the order in which [v] shows them first, and
    nothing but blanks and repetitions left out short of the tenth. *)
Definition hygienic (v r : list str) : Prop :=
  (length r <= 10)%nat
  /\ List.NoDup r
  /\ (forall e, In e r -> e <> [] /\ strip e = e /\ In e (List.map strip v))
  /\ (forall x y, stands_before x y r -> first_seen_before x y (List.map strip v))
  /\ (forall e, In e (List.map strip v) -> e <> [] ->
      In e r \/ length r = 10%nat).

(** The list ["a", "a", "", "b"] * 3. *)
Definition twelve_sources : list str :=
  [u "a"; u "a"; []; u "b"] ++ [u "a"; u "a"; []; u "b"]
  ++ [u "a"; u "a"; []; u "b"].

(** [s] does not begin with white space. *)
Definition head_ok (s : str) : Prop :=
  match s with
  | [] => True
  | c :: _ => isspace c = false
  end.

(** [" ".join(ws)] *)
Fixpoint join_sp (ws : list str) : str :=
  match ws with
  | [] => []
  | w :: r => match r with
              | [] => w
              | _ => w ++ SP :: join_sp r
              end
  end.

(** Two characters that are the same up to the case of an ASCII letter. *)
Definition same_letter (c d : char) : Prop := ascii_to_lower c = ascii_to_lower d.

(** Two texts that differ only by letter case or white space: they split
    into the same words, up to the case of the letters. *)
Definition same_words (a b : str) : Prop :=
  Forall2 (Forall2 same_letter) (split a) (split b).

(** A printable ASCII character, a tab, a line feed or a carriage return. *)
Definition plain (c : char) : Prop :=
  (32 <= c /\ c <= 126) \/ c = TAB \/ c = LF \/ c = CR.

(** No punctuation mark of [[.,;:!?]] follows another in [s]; [prev] tells
    that the character in front of [s] is one. *)
Fixpoint no_run_from (prev : bool) (s : str) : Prop :=
  match s with
  | [] => True
  | c :: r =>
      (prev = true -> TextProcessor.PUNCTUATION c = false)
      /\ no_run_from (TextProcessor.PUNCTUATION c) r
  end.

Definition no_punctuation_run (s : str) : Prop := no_run_from false s.

(** A printable ASCII character. *)
Definition printable (c : char) : Prop := 32 <= c /\ c <= 126.

(** An ASCII letter. *)
Definition ascii_letter (c : char) : Prop :=
  (65 <= c /\ c <= 90) \/ (97 <= c /\ c <= 122).

(** Two ASCII characters that are the same up to the case of a letter. *)
Definition ascii_same_letter (c d : char) : Prop :=
  same_letter c d /\ c < 128 /\ d < 128.

(** The text "abc" between curly double quotes, U+201C and U+201D, and
    between straight ones. *)
Definition curly_quoted : str := [0x201C] ++ u "abc" ++ [0x201D].
Definition straight_quoted : str := [DQUOTE] ++ u "abc" ++ [DQUOTE].

(** The tokens the counting loop of [extract_keywords_basic] keeps, in the
    order of the text. *)
Definition keyword_tokens (U : UnicodeData) (text : str) : list str :=
  List.filter
    (fun w => (3 <=? length w)%nat && negb (TextProcessor.in_stop_words w))
    (List.map (TextProcessor.clean_word U)
       (split (str_lower U (TextProcessor.clean_for_analysis U text)))).

(** How often [w] occurs in [toks]. *)
Definition frequency (w : str) (toks : list str) : nat :=
  length (List.filter (str_eqb w) toks).

(** The order of two entries of a dictionary of counts after the sort:
    the larger count first, and of two equal counts the entry that stands
    first in [d]. *)
Definition sorted_before (d : list (str * nat)) (x y : str * nat) : Prop :=
  (snd y < snd x)%nat \/ (snd x = snd y /\ stands_before x y d).

(** The place of a type in the order FAKE, UNFOUNDED, INCONCLUSIVE,
    RELIABLE. *)
Definition reliability_rank (ct : ClassificationType.t) : nat :=
  match ct with
  | ClassificationType.FAKE => 0
  | ClassificationType.UNFOUNDED => 1
  | ClassificationType.INCONCLUSIVE => 2
  | ClassificationType.RELIABLE => 3
  end.

(** [set(s.split())]: the set of the words of [s]. *)
Definition word_set (s : str) : gset str := list_to_set (split s).

(** The laws of the codecs that the round trip of a key relies on:
    base64 decodes [bs] from what it encoded it to, and UTF-8 decodes [s]
    from the bytes it is encoded to. *)
Definition decodes_b64 (C : Codecs) (bs : list byte) : Prop :=
  b64decode C (b64encode C bs) = Some bs.

Definition decodes_utf8 (C : Codecs) (s : str) : Prop :=
  forall data, utf8_encode s = Ok data -> utf8_decode C data = Some s.

(** The key that [ApiKey.create] encrypts with. *)
Definition key_used (token_bytes : list byte) (encryption_key : option (list byte))
  : list byte :=
  match encryption_key with
  | None => token_bytes
  | Some k => k
  end.

(** The number of the characters of a mask that are not stars. *)
Definition shown (mask : str) : nat :=
  length (List.filter (fun c => negb (c =? ApiKey.STAR)) mask).

(** Sample values: a key of a service, and a user with a key for Groq and
    a custom key. *)
Definition sample_key (service value : string) : ApiKey.t :=
  ApiKey.Build (u value) (u service) false.

Definition sample_user : User.t :=
  User.Build (u "user_0123456789ab") AnalysisMode.AUTOMATIC UITheme.SYSTEM
    [sample_key "groq_llm" "QUJD"; sample_key "custom" "REVG"]
    false true 30 (u "pt") 0.8%Q 0 0 0 0 ∅.

(** A word: a string that is not empty and holds no white space. *)
Definition word (w : str) : Prop :=
  w <> [] /\ Forall (fun c => isspace c = false) w.

(** The characters that [clean_for_analysis] keeps: the class
    [[\w\s.,!?;:-]]. *)
Definition analysis_char (U : UnicodeData) (c : char) : bool :=
  TextProcessor.is_word U c || isspace c || TextProcessor.SENTENCE_END c
  || TextProcessor.CLAUSE_END c || (c =? 45).

(** An ASCII letter or digit, a space, a tab, a line feed or a carriage
    return. *)
Definition alnum_or_space (c : char) : Prop :=
  ascii_upper c || ascii_lower c || ascii_digit c = true
  \/ c = SP \/ c = TAB \/ c = LF \/ c = CR.

(** The small letter of a Greek capital, the sigma that is not final for
    the capital sigma. *)
Definition greek_to_small (c : char) : char :=
  if greek_upper c then c + 32 else c.

(** A Greek word for a road, three times, in capitals. *)
Definition odos_capitals : str :=
  [0x39F; 0x394; 0x39F; 0x3A3; SP; 0x39F; 0x394; 0x39F; 0x3A3; SP;
   0x39F; 0x394; 0x39F; 0x3A3].

(** The same in small letters, written with the sigma U+03C3. *)
Definition odos_small : str :=
  [0x3BF; 0x3B4; 0x3BF; 0x3C3; SP; 0x3BF; 0x3B4; 0x3BF; 0x3C3; SP;
   0x3BF; 0x3B4; 0x3BF; 0x3C3].

(** * Properties *)

(** ** The model on known values *)

Example sha256_test_vectors :
  sha256_hex [] = Ok (u "e3b0c44298fc1c149afbf4c8996fb92427ae41e4649b934ca495991b7852b855")
  /\ sha256_hex (u "abc")
     = Ok (u "ba7816bf8f01cfea414140de5dae2223b00361a396177a9cb410ff61f20015ad")
  /\ sha256_hex (u "abcdbcdecdefdefgefghfghighijhijkijkljklmklmnlmnomnopnopq")
     = Ok (u "248d6a61d20638b8e5c026930c3e6039a33ce45964ff2167f6ecedd419db06c1").
Proof. repeat split; vm_compute; reflexivity. Qed.

Example substitutions_on_samples :
  TextProcessor.sub_runs_last TextProcessor.SENTENCE_END (u "a?!.b..c!") = u "a.b.c!"
  /\ TextProcessor.sub_space_before_punct [] (u "a  , b " ++ [TAB] ++ u "!c  d")
     = u "a, b!c  d"
  /\ TextProcessor.sub_space_after_sentence None (u "a.B c.  D e. f .G!?H")
     = u "a. B c. D e. f . G!? H"
  /\ TextProcessor.sub_punctuation (u "a?!.b..c!,") = u "a?b.c!"
  /\ sub_ws (u "  a " ++ [TAB; LF] ++ u "b  ") = u " a b "
  /\ split (u "  a " ++ [TAB; LF] ++ u "b  ") = [u "a"; u "b"]
  /\ strip (u "  a  b  ") = u "a  b".
Proof. repeat split; vm_compute; reflexivity. Qed.

(** [str.lower] on a capital sigma, as the interpreter lowers "Σ.", "aΣ.",
    "aΣ.b", "a.Σ", "a Σ", "ΑΣ'Α" and "ΑΣ Σ". *)
Example lower_capital_sigma :
  str_lower latin_greek [0x3A3; 46] = [0x3C3; 46]
  /\ str_lower latin_greek [97; 0x3A3; 46] = [97; 0x3C2; 46]
  /\ str_lower latin_greek [97; 0x3A3; 46; 98] = [97; 0x3C3; 46; 98]
  /\ str_lower latin_greek [97; 46; 0x3A3] = [97; 46; 0x3C2]
  /\ str_lower latin_greek [97; SP; 0x3A3] = [97; SP; 0x3C3]
  /\ str_lower latin_greek [0x391; 0x3A3; 39; 0x391] = [0x3B1; 0x3C3; 39; 0x3B1]
  /\ str_lower latin_greek [0x391; 0x3A3; SP; 0x3A3] = [0x3B1; 0x3C2; SP; 0x3C3].
Proof. repeat split; vm_compute; reflexivity. Qed.

Local Open Scope Q_scope.

(** ** Rounding *)

(** The doubles of some decimals, as the interpreter gives them with
    [float.as_integer_ratio], one of them below the normal range and one
    above [2^53]; and [round] where the decimal and its double part: at
    the decimal ties 0.12345, 0.19995 and 2.675, and at the exact ties
    0.03125, 0.125 and 0.375. *)
Example binary64_on_samples :
  ConfidenceScore.binary64 0.1 == 3602879701896397 # 36028797018963968
  /\ ConfidenceScore.binary64 0.12345 == 2223877495995551 # 18014398509481984
  /\ ConfidenceScore.binary64 0.19995 == 7203957963941845 # 36028797018963968
  /\ ConfidenceScore.binary64 (-0.7) == -3152519739159347 # 4503599627370496
  /\ ConfidenceScore.binary64 0.03125 == 0.03125
  /\ ConfidenceScore.binary64 (inject_Z (10 ^ 23)) == inject_Z 99999999999999991611392
  /\ ConfidenceScore.binary64 (/ inject_Z (10 ^ 320)) == 2024 * / inject_Z (2 ^ 1074).
Proof. repeat split; vm_compute; reflexivity. Qed.

Example round_on_samples :
  ConfidenceScore.round 0.12345 4 == 0.1235
  /\ ConfidenceScore.round 0.19995 4 == 0.1999
  /\ ConfidenceScore.round 0.03125 4 == 0.0312
  /\ ConfidenceScore.round 0.79999 4 == 0.8
  /\ ConfidenceScore.round 2.675 2 == 2.67
  /\ ConfidenceScore.round 0.125 2 == 0.12
  /\ ConfidenceScore.round 0.375 2 == 0.38
  /\ ConfidenceScore.round 81.25 2 == 81.25.
Proof. repeat split; vm_compute; reflexivity. Qed.

Lemma round_half_even_near (x : Q) :
  inject_Z (ConfidenceScore.round_half_even x) - (1 # 2) <= x
  /\ x <= inject_Z (ConfidenceScore.round_half_even x) + (1 # 2).
Proof.
  unfold ConfidenceScore.round_half_even.
  pose proof (Qfloor_le x) as Hlo.
  pose proof (Qlt_floor x) as Hhi.
  rewrite inject_Z_plus in Hhi.
  change (inject_Z 1) with 1 in Hhi.
  destruct (Qcompare (x - inject_Z (Qfloor x)) (1 # 2)) eqn:E.
  - apply Qeq_alt in E.
    destruct (Z.even (Qfloor x)).
    + split; lra.
    + rewrite inject_Z_plus. change (inject_Z 1) with 1. split; lra.
  - apply Qlt_alt in E. split; lra.
  - apply Qgt_alt in E. rewrite inject_Z_plus. change (inject_Z 1) with 1.
    split; lra.
Qed.

Lemma round_half_even_range (x : Q) (n : Z) :
  0 <= x -> x <= inject_Z n ->
  (0 <= ConfidenceScore.round_half_even x <= n)%Z.
Proof.
  intros H0 Hn.
  destruct (round_half_even_near x) as [Hlo Hhi].
  split.
  - assert (H : inject_Z (-1) < inject_Z (ConfidenceScore.round_half_even x)).
    { change (inject_Z (-1)) with (-1 # 1). lra. }
    rewrite <- Zlt_Qlt in H. lia.
  - assert (H : inject_Z (ConfidenceScore.round_half_even x) < inject_Z (n + 1)).
    { rewrite inject_Z_plus. change (inject_Z 1) with 1. lra. }
    rewrite <- Zlt_Qlt in H. lia.
Qed.

Lemma round_half_even_comp (x y : Q) :
  x == y -> ConfidenceScore.round_half_even x = ConfidenceScore.round_half_even y.
Proof.
  intros H. unfold ConfidenceScore.round_half_even.
  rewrite (Qfloor_comp _ _ H).
  assert (E : x - inject_Z (Qfloor y) == y - inject_Z (Qfloor y)) by (rewrite H; reflexivity).
  rewrite (Qcompare_comp _ _ E _ _ (Qeq_refl (1 # 2))). reflexivity.
Qed.

Lemma round_half_even_nearest (y : Q) (m : Z) :
  inject_Z m - (1 # 2) < y -> y < inject_Z m + (1 # 2) ->
  ConfidenceScore.round_half_even y = m.
Proof.
  intros Hlo Hhi.
  destruct (round_half_even_near y) as [Nlo Nhi].
  assert (H1 : inject_Z (ConfidenceScore.round_half_even y) < inject_Z (m + 1)).
  { rewrite inject_Z_plus. change (inject_Z 1) with 1. lra. }
  assert (H2 : inject_Z (m + -1) < inject_Z (ConfidenceScore.round_half_even y)).
  { rewrite inject_Z_plus. change (inject_Z (-1)) with (-1 # 1). lra. }
  rewrite <- Zlt_Qlt in H1, H2. lia.
Qed.

Lemma round_half_even_le (x : Q) (z : Z) :
  x <= inject_Z z -> (ConfidenceScore.round_half_even x <= z)%Z.
Proof.
  intros H. destruct (round_half_even_near x) as [Nlo _].
  assert (H1 : inject_Z (ConfidenceScore.round_half_even x) < inject_Z (z + 1)).
  { rewrite inject_Z_plus. change (inject_Z 1) with 1. lra. }
  rewrite <- Zlt_Qlt in H1. lia.
Qed.

Lemma round_half_even_ge (x : Q) (z : Z) :
  inject_Z z <= x -> (z <= ConfidenceScore.round_half_even x)%Z.
Proof.
  intros H. destruct (round_half_even_near x) as [_ Nhi].
  assert (H1 : inject_Z (z + -1) < inject_Z (ConfidenceScore.round_half_even x)).
  { rewrite inject_Z_plus. change (inject_Z (-1)) with (-1 # 1). lra. }
  rewrite <- Zlt_Qlt in H1. lia.
Qed.

Lemma binade_le (x : Q) (j : Z) :
  (0 <= j)%Z -> Qabs x <= inject_Z (2 ^ j) -> (ConfidenceScore.binade x <= j)%Z.
Proof.
  intros Hj H.
  assert (He : (Z.log2 (Z.abs (Qnum x)) - Z.log2 (Zpos (Qden x)) <= j)%Z).
  { destruct x as [a b]. unfold Qabs, Qle in H. cbn [Qnum Qden inject_Z] in *.
    rewrite Z.mul_1_r in H.
    pose proof (Z.log2_nonneg (Zpos b)) as Hb.
    destruct (Z.eq_dec (Z.abs a) 0%Z) as [E | E].
    - rewrite E. change (Z.log2 0%Z) with 0%Z. lia.
    - apply Z.log2_le_mono in H.
      rewrite Z.mul_comm, Z.log2_mul_pow2 in H by lia. lia. }
  unfold ConfidenceScore.binade.
  destruct (Qle_bool _ _); lia.
Qed.

Lemma binary64_scaled (x : Q) (j : Z) :
  (0 <= j <= 52)%Z -> Qabs x <= inject_Z (2 ^ j) ->
  exists N : Z,
    (2 ^ (52 - j) <= N)%Z
    /\ ConfidenceScore.binary64 x * inject_Z N == inject_Z (ConfidenceScore.round_half_even (x * inject_Z N)).
Proof.
  intros Hj H.
  pose proof (binade_le x j (proj1 Hj) H) as He.
  unfold ConfidenceScore.binary64.
  set (e := Z.max (ConfidenceScore.binade x) (-1022)).
  assert (Hn : (0 <= 52 - e)%Z) by lia.
  exists (2 ^ (52 - e))%Z.
  split; [apply Z.pow_le_mono_r; lia |].
  assert (Hp : (0 < 2 ^ (52 - e))%Z) by (apply Z.pow_pos_nonneg; lia).
  assert (HpQ : 0 < inject_Z (2 ^ (52 - e))).
  { change 0 with (inject_Z 0). rewrite <- Zlt_Qlt. exact Hp. }
  assert (Hq : 2 ^ (e - 52) == / inject_Z (2 ^ (52 - e))).
  { replace (e - 52)%Z with (- (52 - e))%Z by lia.
    rewrite Qpower_opp. rewrite (Zpower_Qpower 2 (52 - e) Hn). reflexivity. }
  assert (Hx : x / 2 ^ (e - 52) == x * inject_Z (2 ^ (52 - e))).
  { rewrite Hq. field. lra. }
  rewrite (round_half_even_comp _ _ Hx). rewrite Hq. field. lra.
Qed.

Lemma binary64_near (x : Q) :
  Qabs x <= 128 ->
  x - (1 # 70368744177664) <= ConfidenceScore.binary64 x /\ ConfidenceScore.binary64 x <= x + (1 # 70368744177664).
Proof.
  intros H.
  destruct (binary64_scaled x 7) as (N & HN & HB); [lia | exact H |].
  change (2 ^ (52 - 7))%Z with 35184372088832%Z in HN.
  destruct (round_half_even_near (x * inject_Z N)) as [Hlo Hhi].
  rewrite <- HB in Hlo, Hhi.
  rewrite Zle_Qle in HN.
  change (inject_Z 35184372088832) with 35184372088832 in HN.
  set (S := inject_Z N) in *. set (B := ConfidenceScore.binary64 x) in *.
  split.
  - destruct (Qlt_le_dec B x) as [D | D]; [| lra].
    assert (P : (x - B) * 35184372088832 <= (x - B) * S).
    { apply Qmult_le_l; lra. }
    lra.
  - destruct (Qlt_le_dec x B) as [D | D]; [| lra].
    assert (P : (B - x) * 35184372088832 <= (B - x) * S).
    { apply Qmult_le_l; lra. }
    lra.
Qed.

Lemma binary64_le (x : Q) (z : Z) :
  Qabs x <= 128 -> x <= inject_Z z -> ConfidenceScore.binary64 x <= inject_Z z.
Proof.
  intros H Hz.
  destruct (binary64_scaled x 7) as (N & HN & HB); [lia | exact H |].
  assert (HN0 : (0 < N)%Z).
  { assert (0 < 2 ^ (52 - 7))%Z by (apply Z.pow_pos_nonneg; lia). lia. }
  assert (HS : 0 < inject_Z N).
  { change 0 with (inject_Z 0). rewrite <- Zlt_Qlt. exact HN0. }
  assert (Hr : (ConfidenceScore.round_half_even (x * inject_Z N) <= z * N)%Z).
  { apply round_half_even_le. rewrite inject_Z_mult.
    apply Qmult_le_compat_r; lra. }
  rewrite Zle_Qle, <- HB, inject_Z_mult in Hr.
  apply Qmult_lt_0_le_reg_r in Hr; assumption.
Qed.

Lemma binary64_ge (x : Q) (z : Z) :
  Qabs x <= 128 -> inject_Z z <= x -> inject_Z z <= ConfidenceScore.binary64 x.
Proof.
  intros H Hz.
  destruct (binary64_scaled x 7) as (N & HN & HB); [lia | exact H |].
  assert (HN0 : (0 < N)%Z).
  { assert (0 < 2 ^ (52 - 7))%Z by (apply Z.pow_pos_nonneg; lia). lia. }
  assert (HS : 0 < inject_Z N).
  { change 0 with (inject_Z 0). rewrite <- Zlt_Qlt. exact HN0. }
  assert (Hr : (z * N <= ConfidenceScore.round_half_even (x * inject_Z N))%Z).
  { apply round_half_even_ge. rewrite inject_Z_mult.
    apply Qmult_le_compat_r; lra. }
  rewrite Zle_Qle, <- HB, inject_Z_mult in Hr.
  apply Qmult_lt_0_le_reg_r in Hr; assumption.
Qed.

Lemma two_power_ratio (n m : Z) :
  (0 <= n)%Z -> (0 <= m)%Z ->
  2 ^ (n - m) == inject_Z (2 ^ n) / inject_Z (2 ^ m).
Proof.
  intros Hn Hm.
  unfold Z.sub. rewrite Qpower_plus by discriminate.
  rewrite Qpower_opp.
  rewrite (Zpower_Qpower 2 n Hn), (Zpower_Qpower 2 m Hm). reflexivity.
Qed.

(** [binade] is the binary exponent. *)
Lemma binade_spec (x : Q) :
  ~ x == 0 ->
  2 ^ ConfidenceScore.binade x <= Qabs x /\ Qabs x < 2 ^ (ConfidenceScore.binade x + 1).
Proof.
  intros Hx.
  destruct x as [a b].
  assert (Ha : (0 < Z.abs a)%Z).
  { assert (a <> 0%Z).
    { intros ->. apply Hx. reflexivity. }
    lia. }
  pose proof (Z.log2_spec _ Ha) as [La Ua].
  pose proof (Z.log2_spec (Zpos b) (Pos2Z.is_pos b)) as [Lb Ub].
  pose proof (Z.log2_nonneg (Z.abs a)) as Na.
  pose proof (Z.log2_nonneg (Zpos b)) as Nb.
  set (la := Z.log2 (Z.abs a)) in *. set (lb := Z.log2 (Zpos b)) in *.
  assert (Pa : (0 < 2 ^ la)%Z) by (apply Z.pow_pos_nonneg; lia).
  assert (Pb : (0 < 2 ^ lb)%Z) by (apply Z.pow_pos_nonneg; lia).
  assert (Hup : Qabs (a # b) < 2 ^ (la - lb + 1)).
  { replace (la - lb + 1)%Z with (Z.succ la - lb)%Z by lia.
    rewrite two_power_ratio by lia.
    apply Qlt_shift_div_l.
    - change 0 with (inject_Z 0). rewrite <- Zlt_Qlt. exact Pb.
    - unfold Qabs, Qlt, Qmult, inject_Z. cbn [Qnum Qden].
      rewrite Pos.mul_1_r, Z.mul_1_r. nia. }
  assert (Hlow : 2 ^ (la - lb - 1) <= Qabs (a # b)).
  { replace (la - lb - 1)%Z with (la - Z.succ lb)%Z by lia.
    rewrite two_power_ratio by lia.
    apply Qle_shift_div_r.
    - change 0 with (inject_Z 0). rewrite <- Zlt_Qlt. apply Z.pow_pos_nonneg; lia.
    - unfold Qabs, Qle, Qmult, inject_Z. cbn [Qnum Qden].
      rewrite Z.mul_1_r. nia. }
  unfold ConfidenceScore.binade. cbn [Qnum Qden]. fold la lb.
  destruct (Qle_bool (2 ^ (la - lb)) (Qabs (a # b))) eqn:E.
  - apply Qle_bool_iff in E. split; assumption.
  - split; [exact Hlow |].
    replace (la - lb - 1 + 1)%Z with (la - lb)%Z by lia.
    apply Qnot_le_lt. intros H. apply Qle_bool_iff in H. congruence.
Qed.

(** [binary64 x] is a double, and one nearest to [x]: a multiple of the
    unit of the binade of [x] by a significand of at most 53 bits, at most
    half a unit away from [x]. *)
Lemma binary64_nearest (x : Q) :
  exists r : Z,
    ConfidenceScore.binary64 x == inject_Z r * 2 ^ (Z.max (ConfidenceScore.binade x) (-1022) - 52)
    /\ Qabs (ConfidenceScore.binary64 x - x) <= 2 ^ (Z.max (ConfidenceScore.binade x) (-1022) - 52) * (1 # 2)
    /\ (Z.abs r <= 2 ^ 53)%Z.
Proof.
  unfold ConfidenceScore.binary64.
  set (e := Z.max (ConfidenceScore.binade x) (-1022)).
  set (q := 2 ^ (e - 52)).
  assert (Hq : 0 < q) by (apply Qpower_0_lt; reflexivity).
  exists (ConfidenceScore.round_half_even (x / q)).
  split; [reflexivity |].
  destruct (round_half_even_near (x / q)) as [Hlo Hhi].
  assert (Hx : x == x / q * q) by (field; lra).
  split.
  - set (r := inject_Z (ConfidenceScore.round_half_even (x / q))) in *.
    set (y := x / q) in *.
    assert (E : r * q - x == (r - y) * q) by (rewrite Hx at 1; ring).
    rewrite E. rewrite Qabs_Qmult, (Qabs_pos q) by lra.
    rewrite (Qmult_comm q (1 # 2)).
    apply Qmult_le_compat_r; [| lra].
    apply Qabs_Qle_condition. split; lra.
  - assert (Hb : Qabs (x / q) <= inject_Z (2 ^ 53)).
    { destruct (Qeq_dec x 0) as [Z0 | NZ].
      - rewrite Z0. unfold Qdiv. rewrite Qmult_0_l. discriminate.
      - destruct (binade_spec x NZ) as [_ Hup].
        unfold Qdiv. rewrite Qabs_Qmult, (Qabs_pos (/ q)).
        2:{ apply Qlt_le_weak, Qinv_lt_0_compat. exact Hq. }
        apply Qle_shift_div_r; [exact Hq |].
        assert (Hp : inject_Z (2 ^ 53) * q == 2 ^ (e + 1)).
        { unfold q. rewrite (Zpower_Qpower 2 53) by lia.
          change (inject_Z 2) with 2.
          rewrite <- Qpower_plus by discriminate.
          replace (53 + (e - 52))%Z with (e + 1)%Z by lia. reflexivity. }
        rewrite Hp.
        apply Qle_trans with (2 ^ (ConfidenceScore.binade x + 1)); [apply Qlt_le_weak; exact Hup |].
        apply Qpower_le_compat_l; [unfold e; lia | discriminate]. }
    apply Qabs_Qle_condition in Hb as [B1 B2].
    apply Z.abs_le. split.
    + apply round_half_even_ge. rewrite inject_Z_opp. exact B1.
    + apply round_half_even_le. exact B2.
Qed.

Lemma unit_magnitude (v : Q) : 0 <= v -> v <= 1 -> Qabs v <= 128.
Proof.
  intros H0 H1. apply Qabs_Qle_condition. split; lra.
Qed.

Lemma round4_scaled (v : Q) :
  ConfidenceScore.round v 4 * 10000
  == inject_Z (ConfidenceScore.round_half_even (ConfidenceScore.binary64 v * 10000)).
Proof.
  unfold ConfidenceScore.round.
  change (inject_Z (10 ^ Z.of_nat 4)) with 10000.
  field.
Qed.

Lemma binary64_unit (v : Q) :
  0 <= v -> v <= 1 ->
  0 <= ConfidenceScore.binary64 v /\ ConfidenceScore.binary64 v <= 1.
Proof.
  intros H0 H1. pose proof (unit_magnitude v H0 H1) as Hb. split.
  - apply (binary64_ge v 0 Hb). exact H0.
  - apply (binary64_le v 1 Hb). exact H1.
Qed.

Lemma round4_digits (v : Q) :
  0 <= v -> v <= 1 ->
  (0 <= ConfidenceScore.round_half_even (ConfidenceScore.binary64 v * 10000) <= 10000)%Z.
Proof.
  intros H0 H1. destruct (binary64_unit v H0 H1) as [Hlo Hhi].
  apply round_half_even_range.
  - lra.
  - change (inject_Z 10000) with 10000. lra.
Qed.

Lemma round4_range (v : Q) :
  0 <= v -> v <= 1 ->
  0 <= ConfidenceScore.round v 4 /\ ConfidenceScore.round v 4 <= 1.
Proof.
  intros H0 H1.
  pose proof (round4_scaled v) as Hs.
  destruct (round4_digits v H0 H1) as [Hlo Hhi].
  rewrite Zle_Qle in Hlo, Hhi.
  change (inject_Z 0) with 0 in Hlo. change (inject_Z 10000) with 10000 in Hhi.
  split; lra.
Qed.

Lemma round4_near (v : Q) :
  0 <= v -> v <= 1 ->
  Qabs (ConfidenceScore.round v 4 - v) < 1 # 10000.
Proof.
  intros H0 H1.
  pose proof (round4_scaled v) as Hs.
  destruct (round_half_even_near (ConfidenceScore.binary64 v * 10000)) as [Hlo Hhi].
  destruct (binary64_near v (unit_magnitude v H0 H1)) as [Nlo Nhi].
  apply Qabs_Qlt_condition. split; lra.
Qed.

(** The doubles of two decimals of four places stand in the order of the
    decimals, so that a stored value compares with a threshold of at most
    four decimals as their doubles do. *)
Lemma binary64_keeps_order (k k' : Z) :
  (0 <= k)%Z -> (k < k')%Z -> (k' <= 10000)%Z ->
  ConfidenceScore.binary64 (inject_Z k / 10000)
  < ConfidenceScore.binary64 (inject_Z k' / 10000).
Proof.
  intros H0 Hk H1.
  assert (Hs : (k + 1 <= k')%Z) by lia.
  rewrite Zle_Qle in H0, Hs, H1. rewrite inject_Z_plus in Hs.
  change (inject_Z 0) with 0 in H0. change (inject_Z 1) with 1 in Hs.
  change (inject_Z 10000) with 10000 in H1.
  assert (E : inject_Z k / 10000 == inject_Z k * (1 # 10000)) by field.
  assert (E' : inject_Z k' / 10000 == inject_Z k' * (1 # 10000)) by field.
  set (x := inject_Z k / 10000) in *. set (x' := inject_Z k' / 10000) in *.
  assert (Hb : Qabs x <= 128) by (apply Qabs_Qle_condition; split; lra).
  assert (Hb' : Qabs x' <= 128) by (apply Qabs_Qle_condition; split; lra).
  destruct (binary64_near x Hb) as [_ Hhi].
  destruct (binary64_near x' Hb') as [Hlo _].
  lra.
Qed.

Lemma round2_hundredths (x : Q) (m : Z) :
  Qabs x <= 128 ->
  x * 100 == inject_Z m -> ConfidenceScore.round x 2 == inject_Z m / 100.
Proof.
  intros Hb Hx. unfold ConfidenceScore.round.
  change (inject_Z (10 ^ Z.of_nat 2)) with 100.
  destruct (binary64_near x Hb) as [Hlo Hhi].
  rewrite (round_half_even_nearest _ m); [reflexivity | lra | lra].
Qed.

Lemma round4_myriadths (x : Q) (m : Z) :
  Qabs x <= 128 ->
  x * 10000 == inject_Z m -> ConfidenceScore.round x 4 == inject_Z m / 10000.
Proof.
  intros Hb Hx. unfold ConfidenceScore.round.
  change (inject_Z (10 ^ Z.of_nat 4)) with 10000.
  destruct (binary64_near x Hb) as [Hlo Hhi].
  rewrite (round_half_even_nearest _ m); [reflexivity | lra | lra].
Qed.

Lemma round4_idempotent (v : Q) :
  0 <= v -> v <= 1 ->
  ConfidenceScore.round (ConfidenceScore.round v 4) 4 == ConfidenceScore.round v 4.
Proof.
  intros H0 H1.
  pose proof (round4_scaled v) as Hs.
  destruct (round4_range v H0 H1) as [Hlo Hhi].
  rewrite (round4_myriadths _ _ (unit_magnitude _ Hlo Hhi) Hs).
  apply Qmult_inj_r with (z := 10000); [lra |]. rewrite Hs. field.
Qed.

(** ** Confidence scores and classification types *)

Lemma Qle_bool_false (x y : Q) : Qle_bool x y = false <-> y < x.
Proof.
  split.
  - intros H. apply Qnot_le_lt. intros Hle.
    apply Qle_bool_iff in Hle. congruence.
  - intros H. destruct (Qle_bool x y) eqn:E; [| reflexivity].
    apply Qle_bool_iff in E. lra.
Qed.

Lemma new_in_range (v : Q) :
  0 <= v -> v <= 1 ->
  ConfidenceScore.new v = Ok (ConfidenceScore.Build (ConfidenceScore.round v 4)).
Proof.
  intros H0 H1.
  unfold ConfidenceScore.new, ConfidenceScore.validate_range.
  apply Qle_bool_iff in H0. apply Qle_bool_iff in H1.
  rewrite H0, H1. reflexivity.
Qed.

Lemma new_out_of_range (v : Q) :
  v < 0 \/ 1 < v -> ConfidenceScore.new v = Err (ValidationError "value").
Proof.
  intros H.
  unfold ConfidenceScore.new.
  destruct H as [H | H]; apply Qle_bool_false in H; rewrite H.
  - reflexivity.
  - rewrite andb_false_r. reflexivity.
Qed.

(** C1, as amended: [ClassificationType.from_confidence] reads the stored
    value of the score with inclusive lower bounds (0.8 and above is
    RELIABLE, from 0.4 up to 0.8 INCONCLUSIVE, from 0.2 up to 0.4 UNFOUNDED,
    below 0.2 FAKE), the mapping is total, and since
    [ConfidenceScore(value=v)] stores [round(v, 4)], the values 0.8, 0.7999,
    0.4, 0.3999, 0.2 and 0.1999 are classified RELIABLE, INCONCLUSIVE,
    INCONCLUSIVE, UNFOUNDED, UNFOUNDED and FAKE, while 0.79999, 0.39999 and
    0.19999 are stored as 0.8, 0.4 and 0.2 and classified RELIABLE,
    INCONCLUSIVE and UNFOUNDED. *)
Theorem from_confidence_thresholds :
  (forall c : ConfidenceScore.t,
      (0.8 <= ConfidenceScore.value c ->
       ClassificationType.from_confidence c = ClassificationType.RELIABLE)
      /\ (0.4 <= ConfidenceScore.value c -> ConfidenceScore.value c < 0.8 ->
          ClassificationType.from_confidence c = ClassificationType.INCONCLUSIVE)
      /\ (0.2 <= ConfidenceScore.value c -> ConfidenceScore.value c < 0.4 ->
          ClassificationType.from_confidence c = ClassificationType.UNFOUNDED)
      /\ (ConfidenceScore.value c < 0.2 ->
          ClassificationType.from_confidence c = ClassificationType.FAKE))
  /\ (forall v : Q, 0 <= v -> v <= 1 ->
      exists c, ConfidenceScore.new v = Ok c
                /\ ConfidenceScore.value c = ConfidenceScore.round v 4
                /\ classify_value v = Some (ClassificationType.from_confidence c))
  /\ classify_value 0.8 = Some ClassificationType.RELIABLE
  /\ classify_value 0.7999 = Some ClassificationType.INCONCLUSIVE
  /\ classify_value 0.4 = Some ClassificationType.INCONCLUSIVE
  /\ classify_value 0.3999 = Some ClassificationType.UNFOUNDED
  /\ classify_value 0.2 = Some ClassificationType.UNFOUNDED
  /\ classify_value 0.1999 = Some ClassificationType.FAKE
  /\ classify_value 0.79999 = Some ClassificationType.RELIABLE
  /\ classify_value 0.39999 = Some ClassificationType.INCONCLUSIVE
  /\ classify_value 0.19999 = Some ClassificationType.UNFOUNDED.
Proof.
  split; [| split]; [| | repeat split; vm_compute; reflexivity].
  - intros [v]. unfold ClassificationType.from_confidence. simpl.
    repeat split.
    + intros H. apply Qle_bool_iff in H. rewrite H. reflexivity.
    + intros H1 H2. apply Qle_bool_false in H2. apply Qle_bool_iff in H1.
      rewrite H2, H1. reflexivity.
    + intros H1 H2.
      assert (H3 : v < 0.8) by lra.
      apply Qle_bool_false in H2, H3. apply Qle_bool_iff in H1.
      rewrite H3, H2, H1. reflexivity.
    + intros H1.
      assert (H2 : v < 0.4) by lra. assert (H3 : v < 0.8) by lra.
      apply Qle_bool_false in H1, H2, H3.
      rewrite H3, H2, H1. reflexivity.
  - intros v H0 H1. eexists. split; [apply new_in_range; assumption |].
    split; [reflexivity |].
    unfold classify_value. rewrite new_in_range by assumption. reflexivity.
Qed.

Lemma from_confidence_thresholds_witness :
  ClassificationType.from_confidence (ConfidenceScore.Build 0.5)
  = ClassificationType.INCONCLUSIVE.
Proof.
  apply (proj1 (proj2 (proj1 from_confidence_thresholds (ConfidenceScore.Build 0.5)))).
  - simpl. unfold Qle. simpl. lia.
  - simpl. unfold Qlt. simpl. lia.
Defined.

(** C1 as stated fails: [ConfidenceScore(value=0.79999)] stores 0.8, which
    is RELIABLE and not INCONCLUSIVE. *)
Lemma classify_079999_not_inconclusive :
  ConfidenceScore.new 0.79999 = Ok (ConfidenceScore.Build 0.8000)
  /\ classify_value 0.79999 = Some ClassificationType.RELIABLE
  /\ classify_value 0.79999 <> Some ClassificationType.INCONCLUSIVE.
Proof.
  repeat split; try (vm_compute; reflexivity).
  vm_compute. discriminate.
Qed.

(** C4: [ConfidenceScore(value=v)] is refused for every [v] below 0 or
    above 1, by the field and by [validate_range] alike; for every [v] of
    [0, 1] it is built and stores [round(v, 4)].  The stored value lies in
    [0, 1], is a whole number of ten-thousandths, differs from [v] by less
    than 1/10000, and rounding it to four decimals again gives it back. *)
Theorem confidence_score_range (v : Q) :
  (v < 0 \/ 1 < v ->
   ConfidenceScore.new v = Err (ValidationError "value")
   /\ ConfidenceScore.validate_range v
      = Err (ValueError "Confidence score must be between 0.0 and 1.0"))
  /\ (0 <= v -> v <= 1 ->
      exists c, ConfidenceScore.new v = Ok c
                /\ ConfidenceScore.value c = ConfidenceScore.round v 4
                /\ 0 <= ConfidenceScore.value c
                /\ ConfidenceScore.value c <= 1
                /\ (exists k : Z, (0 <= k <= 10000)%Z
                                  /\ ConfidenceScore.value c == inject_Z k / 10000)
                /\ Qabs (ConfidenceScore.value c - v) < 1 # 10000
                /\ ConfidenceScore.round (ConfidenceScore.value c) 4
                   == ConfidenceScore.value c).
Proof.
  split.
  - intros H. split; [apply new_out_of_range; assumption |].
    unfold ConfidenceScore.validate_range.
    destruct H as [H | H]; apply Qle_bool_false in H; rewrite H.
    + reflexivity.
    + rewrite andb_false_r. reflexivity.
  - intros H0 H1. eexists. split; [apply new_in_range; assumption |].
    simpl. split; [reflexivity |].
    destruct (round4_range v H0 H1) as [Hlo Hhi].
    split; [exact Hlo |]. split; [exact Hhi |]. split; [| split].
    + exists (ConfidenceScore.round_half_even (ConfidenceScore.binary64 v * 10000)).
      split; [apply round4_digits; assumption |].
      pose proof (round4_scaled v) as Hs.
      apply Qmult_inj_r with (z := 10000); [lra |]. rewrite Hs. field.
    + apply round4_near; assumption.
    + apply round4_idempotent; assumption.
Qed.

Lemma confidence_score_range_witness :
  exists c, ConfidenceScore.new 0.12345 = Ok c
            /\ ConfidenceScore.value c == 0.1235
            /\ ConfidenceScore.new 1.5 = Err (ValidationError "value").
Proof.
  destruct (proj2 (confidence_score_range 0.12345)) as (c & Hc & Hv & _).
  - unfold Qle. simpl. lia.
  - unfold Qle. simpl. lia.
  - exists c. split; [exact Hc |]. split.
    + rewrite Hv. vm_compute. reflexivity.
    + apply (proj1 (confidence_score_range 1.5)). right. unfold Qlt. simpl. lia.
Defined.

(** ** Analysis results *)

Example sample_text_created :
  Text.create basic_latin 0 (u "Hello World!!") None None None = Ok sample_text.
Proof. vm_compute. reflexivity. Qed.

Example sample_classification_created :
  (let* c := ConfidenceScore.new 0.9 in
   Classification.from_confidence_auto c None None)
  = Ok sample_classification.
Proof. vm_compute. reflexivity. Qed.

Example sample_result_created :
  AnalysisResult.create_from_fact_check 0 sample_text sample_classification
    1000 [] 5 None = Ok sample_result.
Proof. vm_compute. reflexivity. Qed.

Lemma reliability_table (source : AnalysisSource.t) :
  AnalysisSource.get_reliability_score source == source_reliability_table source.
Proof. destruct source; reflexivity. Qed.

Lemma reliability_range (source : AnalysisSource.t) :
  0 <= AnalysisSource.get_reliability_score source
  /\ AnalysisSource.get_reliability_score source <= 1.
Proof. destruct source; split; unfold Qle; simpl; lia. Qed.

(** [min(1.0, k / max(x, m))] lies in [0, 1] for positive [k] and [m]. *)
Lemma saturated_ratio_range (k : Q) (x m : Z) :
  0 <= k -> (0 < m)%Z ->
  0 <= Qmin 1.0 (k / inject_Z (Z.max x m))
  /\ Qmin 1.0 (k / inject_Z (Z.max x m)) <= 1.
Proof.
  intros Hk Hm. split.
  - apply Q.min_glb; [unfold Qle; simpl; lia |].
    assert (Hpos : 0 < inject_Z (Z.max x m)).
    { change 0 with (inject_Z 0). rewrite <- Zlt_Qlt. lia. }
    apply Qle_shift_div_l; [exact Hpos | lra].
  - apply Qle_trans with 1.0; [apply Q.le_min_l | unfold Qle; simpl; lia].
Qed.

Lemma Qmin_one (x : Q) : Qmin 1.0 x == Qmin 1 x.
Proof.
  destruct (Q.min_spec 1.0 x) as [[H1 H2] | [H1 H2]];
    destruct (Q.min_spec 1 x) as [[H3 H4] | [H3 H4]];
    rewrite H2, H4; lra.
Qed.

(** C5: with a confidence of [0, 1] and a time and a cost that are not
    negative, [get_performance_score] is 0.4 of the confidence plus 0.3 of
    [min(1, 5000 / max(time, 100))] plus 0.2 of [min(1, 50 / max(cost, 1))]
    plus 0.1 of the reliability of the source, read in the table 0.95 for
    FACT_CHECK, 0.85 for VECTOR_SEARCH, 0.75 for LLM, 0.90 for HYBRID, 1 for
    CACHE and for MANUAL; and it lies in [0, 1]. *)
Theorem performance_score_formula_and_bounds (r : AnalysisResult.t) :
  0 <= ConfidenceScore.value (Classification.confidence (AnalysisResult.classification r)) ->
  ConfidenceScore.value (Classification.confidence (AnalysisResult.classification r)) <= 1 ->
  (0 <= AnalysisResult.processing_time_ms r)%Z ->
  (0 <= AnalysisResult.cost_cents r)%Z ->
  AnalysisResult.get_performance_score r
  == performance_formula
       (ConfidenceScore.value (Classification.confidence (AnalysisResult.classification r)))
       (AnalysisResult.processing_time_ms r) (AnalysisResult.cost_cents r)
       (AnalysisResult.source r)
  /\ 0 <= AnalysisResult.get_performance_score r
  /\ AnalysisResult.get_performance_score r <= 1.
Proof.
  intros Hc0 Hc1 Ht Hcost.
  unfold AnalysisResult.get_performance_score, performance_formula,
    ConfidenceScore.__float__.
  pose proof (reliability_table (AnalysisResult.source r)) as Htab.
  pose proof (reliability_range (AnalysisResult.source r)) as [Hr0 Hr1].
  destruct (saturated_ratio_range 5000 (AnalysisResult.processing_time_ms r) 100)
    as [Hs0 Hs1]; [lra | lia |].
  destruct (saturated_ratio_range 50 (AnalysisResult.cost_cents r) 1)
    as [Hk0 Hk1]; [lra | lia |].
  rewrite <- !Qmin_one, <- Htab.
  set (c := ConfidenceScore.value _) in *.
  set (s := Qmin 1.0 (5000 / _)) in *.
  set (k := Qmin 1.0 (50 / _)) in *.
  set (rel := AnalysisSource.get_reliability_score _) in *.
  split; [| split].
  - ring.
  - lra.
  - lra.
Qed.

Lemma performance_score_witness :
  AnalysisResult.get_performance_score sample_result == 0.955.
Proof.
  destruct (performance_score_formula_and_bounds sample_result) as [H _].
  - simpl. unfold Qle. simpl. lia.
  - simpl. unfold Qle. simpl. lia.
  - simpl. lia.
  - simpl. lia.
  - rewrite H. vm_compute. reflexivity.
Defined.

(** C6: the result [create_from_cache] builds has the source CACHE, a cost
    of 0 and the original source under "original_source" in its metadata,
    whatever the time it is given; with the default time it is built, and
    its time is 1. *)
Theorem create_from_cache_fields (now : Z) (text : Text.t)
    (classification : Classification.t) (original_source : AnalysisSource.t) :
  (exists r,
      AnalysisResult.create_from_cache now text classification original_source
        AnalysisResult.CACHE_PROCESSING_TIME_MS = Ok r
      /\ AnalysisResult.processing_time_ms r = 1%Z
      /\ AnalysisResult.source r = AnalysisSource.CACHE
      /\ AnalysisResult.cost_cents r = 0%Z
      /\ AnalysisResult.metadata r !! "original_source"%string
         = Some (PyStr (AnalysisSource.value original_source)))
  /\ (forall (processing_time_ms : Z) (r : AnalysisResult.t),
      AnalysisResult.create_from_cache now text classification original_source
        processing_time_ms = Ok r ->
      AnalysisResult.source r = AnalysisSource.CACHE
      /\ AnalysisResult.cost_cents r = 0%Z
      /\ AnalysisResult.processing_time_ms r = processing_time_ms
      /\ AnalysisResult.text r = text
      /\ AnalysisResult.classification r = classification
      /\ AnalysisResult.metadata r !! "original_source"%string
         = Some (PyStr (AnalysisSource.value original_source))).
Proof.
  split.
  - eexists. split; [reflexivity |]. simpl.
    repeat (split; [reflexivity |]). apply lookup_singleton_eq.
  - intros t r.
    unfold AnalysisResult.create_from_cache, AnalysisResult.new,
      AnalysisResult.validate_processing_time.
    destruct (0 <=? t)%Z eqn:E1; simpl; [| discriminate].
    destruct (t <? 0)%Z eqn:E2; simpl; [discriminate |].
    intros H. injection H as <-. simpl.
    repeat (split; [reflexivity |]). apply lookup_singleton_eq.
Qed.

Lemma create_from_cache_witness :
  exists r,
    AnalysisResult.create_from_cache 0 sample_text sample_classification
      AnalysisSource.LLM 7 = Ok r
    /\ AnalysisResult.source r = AnalysisSource.CACHE
    /\ AnalysisResult.cost_cents r = 0%Z.
Proof.
  eexists. split; [reflexivity |].
  pose proof (proj2 (create_from_cache_fields 0 sample_text sample_classification
                       AnalysisSource.LLM) 7%Z _ eq_refl) as (H1 & H2 & _).
  exact (conj H1 H2).
Defined.

Local Close Scope Q_scope.

(** ** Stripping *)

Lemma lstrip_head_ok (s : str) : head_ok (lstrip s).
Proof.
  induction s as [| c r IH]; simpl; [exact I |].
  destruct (isspace c) eqn:E; [exact IH | exact E].
Qed.

Lemma lstrip_fixed (s : str) : head_ok s -> lstrip s = s.
Proof.
  destruct s as [| c r]; simpl; [reflexivity |].
  intros H. rewrite H. reflexivity.
Qed.

Lemma lstrip_suffix (s : str) :
  exists ws, s = ws ++ lstrip s /\ forallb isspace ws = true.
Proof.
  induction s as [| c r (ws & Hs & Hws)]; simpl.
  - exists []. split; reflexivity.
  - destruct (isspace c) eqn:E.
    + exists (c :: ws). simpl. rewrite E, Hws. split; [congruence | reflexivity].
    + exists []. split; reflexivity.
Qed.

Lemma rev_rstrip (s : str) : rev (rstrip s) = lstrip (rev s).
Proof. unfold rstrip. apply rev_involutive. Qed.

Lemma rstrip_prefix (s : str) :
  exists ws, s = rstrip s ++ ws /\ forallb isspace ws = true.
Proof.
  destruct (lstrip_suffix (rev s)) as (ws & Hs & Hws).
  exists (rev ws). split.
  - unfold rstrip. rewrite <- rev_app_distr, <- Hs, rev_involutive. reflexivity.
  - rewrite forallb_forall in *. intros x Hx. apply Hws.
    apply in_rev. exact Hx.
Qed.

Lemma rstrip_head_ok (s : str) : head_ok s -> head_ok (rstrip s).
Proof.
  intros H. destruct (rstrip_prefix s) as (ws & Hs & _).
  destruct (rstrip s) as [| c r]; [exact I |].
  rewrite Hs in H. exact H.
Qed.

Lemma strip_head_ok (s : str) : head_ok (strip s).
Proof. apply rstrip_head_ok, lstrip_head_ok. Qed.

Lemma rstrip_idempotent (s : str) : rstrip (rstrip s) = rstrip s.
Proof.
  unfold rstrip at 1. rewrite rev_rstrip.
  rewrite (lstrip_fixed _ (lstrip_head_ok _)). reflexivity.
Qed.

Lemma strip_idempotent (s : str) : strip (strip s) = strip s.
Proof.
  unfold strip at 1.
  rewrite (lstrip_fixed _ (strip_head_ok s)).
  unfold strip. apply rstrip_idempotent.
Qed.

(** ** Lists of sources *)

Lemma str_eqb_eq (a b : str) : str_eqb a b = true <-> a = b.
Proof. unfold str_eqb. apply bool_decide_eq_true. Qed.

Lemma existsb_str_eqb (x : str) (l : list str) :
  existsb (str_eqb x) l = true <-> In x l.
Proof.
  rewrite existsb_exists. split.
  - intros (y & Hy & E). apply str_eqb_eq in E. subst. exact Hy.
  - intros H. exists x. split; [exact H | apply str_eqb_eq; reflexivity].
Qed.

Lemma existsb_str_eqb_false (x : str) (l : list str) :
  existsb (str_eqb x) l = false <-> ~ In x l.
Proof.
  rewrite <- existsb_str_eqb.
  destruct (existsb (str_eqb x) l); split; congruence.
Qed.

Lemma nonempty_true (s : str) : nonempty s = true <-> s <> [].
Proof. destruct s; simpl; split; congruence. Qed.

Lemma slice_to_firstn {A : Type} (n : nat) (l : list A) :
  slice_to (Z.of_nat n) l = firstn n l.
Proof.
  unfold slice_to.
  destruct (0 <=? Z.of_nat n)%Z eqn:E; [| apply Z.leb_gt in E; lia].
  rewrite Nat2Z.id. reflexivity.
Qed.

Lemma fromkeys_in (seen l : list str) (e : str) :
  In e (fromkeys_from seen l) <-> In e l /\ ~ In e seen.
Proof.
  revert seen. induction l as [| a l IH]; intros seen; simpl.
  - tauto.
  - destruct (existsb (str_eqb a) seen) eqn:E.
    + apply existsb_str_eqb in E. rewrite IH. split.
      * intros [H1 H2]. tauto.
      * intros [[-> | H1] H2]; tauto.
    + apply existsb_str_eqb_false in E. simpl. rewrite IH. simpl. split.
      * intros [<- | [H1 H2]]; tauto.
      * intros [[-> | H1] H2]; [tauto |].
        destruct (decide (a = e)) as [-> | Hne]; [tauto |].
        right. tauto.
Qed.

Lemma fromkeys_nodup (seen l : list str) : List.NoDup (fromkeys_from seen l).
Proof.
  revert seen. induction l as [| a l IH]; intros seen; simpl.
  - constructor.
  - destruct (existsb (str_eqb a) seen) eqn:E; [apply IH |].
    constructor; [| apply IH].
    rewrite fromkeys_in. simpl. tauto.
Qed.

Lemma fromkeys_order (seen l : list str) (x y : str) :
  stands_before x y (fromkeys_from seen l) -> first_seen_before x y l.
Proof.
  revert seen. induction l as [| a l IH]; intros seen; simpl.
  - intros (l1 & l2 & l3 & H). destruct l1; discriminate.
  - destruct (existsb (str_eqb a) seen) eqn:E.
    + intros H.
      assert (Hy : In y (fromkeys_from seen l)).
      { destruct H as (l1 & l2 & l3 & ->).
        apply in_or_app. right. right. apply in_or_app. right. left. reflexivity. }
      apply fromkeys_in in Hy. apply existsb_str_eqb in E.
      destruct (IH _ H) as (p & q & -> & Hp).
      exists (a :: p), q. split; [reflexivity |].
      intros [-> | Hin]; tauto.
    + intros (l1 & l2 & l3 & H).
      destruct l1 as [| b l1]; simpl in H; injection H as <- H.
      * exists [], l. split; [reflexivity | intros []].
      * assert (Hs : stands_before x y (fromkeys_from (a :: seen) l)).
        { exists l1, l2, l3. exact H. }
        assert (Hy : In y (fromkeys_from (a :: seen) l)).
        { rewrite H. apply in_or_app. right. right. apply in_or_app.
          right. left. reflexivity. }
        apply fromkeys_in in Hy. simpl in Hy.
        destruct (IH _ Hs) as (p & q & -> & Hp).
        exists (a :: p), q. split; [reflexivity |].
        intros [-> | Hin]; tauto.
Qed.

Lemma firstn_in {A : Type} (n : nat) (l : list A) (x : A) :
  In x (firstn n l) -> In x l.
Proof.
  intros H. rewrite <- (firstn_skipn n l). apply in_or_app. left. exact H.
Qed.

Lemma firstn_nodup {A : Type} (n : nat) (l : list A) :
  List.NoDup l -> List.NoDup (firstn n l).
Proof.
  intros H. rewrite <- (firstn_skipn n l) in H.
  apply NoDup_app_remove_r in H. exact H.
Qed.

Lemma firstn_stands_before {A : Type} (n : nat) (l : list A) (x y : A) :
  stands_before x y (firstn n l) -> stands_before x y l.
Proof.
  intros (l1 & l2 & l3 & H).
  exists l1, l2, (l3 ++ skipn n l).
  rewrite <- (firstn_skipn n l) at 1. rewrite H.
  rewrite <- !app_assoc. simpl. rewrite <- app_assoc. reflexivity.
Qed.

Lemma firstn_in_or_full {A : Type} (n : nat) (l : list A) (x : A) :
  In x l -> In x (firstn n l) \/ length (firstn n l) = n.
Proof.
  intros H. destruct (Nat.le_gt_cases (length l) n) as [Hle | Hgt].
  - left. rewrite firstn_all2 by exact Hle. exact H.
  - right. apply firstn_length_le. lia.
Qed.

Lemma filter_split {A : Type} (P : A -> bool) (l p q : list A) (x : A) :
  List.filter P l = p ++ x :: q ->
  exists p' q', l = p' ++ x :: q' /\ List.filter P p' = p.
Proof.
  revert p. induction l as [| a l IH]; intros p; simpl.
  - intros H. destruct p; discriminate.
  - destruct (P a) eqn:E.
    + destruct p as [| b p]; simpl; intros H; injection H as <- H.
      * exists [], l. split; reflexivity.
      * destruct (IH _ H) as (p' & q' & -> & Hp).
        exists (a :: p'), q'. simpl. rewrite E, Hp. split; reflexivity.
    + intros H. destruct (IH _ H) as (p' & q' & -> & Hp).
      exists (a :: p'), q'. simpl. rewrite E. split; [reflexivity | exact Hp].
Qed.

Lemma filter_first_seen {A : Type} (P : A -> bool) (l : list A) (x y : A) :
  P y = true ->
  first_seen_before x y (List.filter P l) -> first_seen_before x y l.
Proof.
  intros Py (p & q & H & Hp).
  destruct (filter_split _ _ _ _ _ H) as (p' & q' & -> & Hf).
  exists p', q'. split; [reflexivity |].
  intros Hin. apply Hp. rewrite <- Hf. apply filter_In. split; assumption.
Qed.

Lemma strip_nonblank (v : list str) :
  List.map strip (List.filter (fun s => nonempty (strip s)) v)
  = List.filter nonempty (List.map strip v).
Proof.
  induction v as [| a v IH]; simpl; [reflexivity |].
  destruct (nonempty (strip a)); simpl; rewrite IH; reflexivity.
Qed.

Lemma clean_sources_fromkeys (seen v : list str) :
  AnalysisResult.clean_sources seen v
  = fromkeys_from seen (List.map strip (List.filter (fun s => nonempty (strip s)) v)).
Proof.
  revert seen. induction v as [| a v IH]; intros seen; simpl; [reflexivity |].
  destruct (nonempty (strip a)) eqn:E; simpl.
  - destruct (existsb (str_eqb (strip a)) seen); simpl; rewrite IH; reflexivity.
  - apply IH.
Qed.

Lemma validators_agree (v : list str) :
  AnalysisResult.validate_fact_check_sources v
  = Classification.validate_evidence_sources v.
Proof.
  unfold AnalysisResult.validate_fact_check_sources,
    Classification.validate_evidence_sources, dict_fromkeys.
  destruct v as [| a v]; [reflexivity |].
  rewrite clean_sources_fromkeys. reflexivity.
Qed.

Lemma validate_evidence_sources_hygienic (v : list str) :
  hygienic v (Classification.validate_evidence_sources v).
Proof.
  unfold Classification.validate_evidence_sources, dict_fromkeys.
  change 10%Z with (Z.of_nat 10). rewrite slice_to_firstn, strip_nonblank.
  set (full := fromkeys_from [] (List.filter nonempty (List.map strip v))).
  assert (Hin : forall e, In e full <-> In e (List.map strip v) /\ e <> []).
  { intros e. unfold full. rewrite fromkeys_in, filter_In, nonempty_true.
    simpl. tauto. }
  repeat split.
  - rewrite length_firstn. lia.
  - apply firstn_nodup, fromkeys_nodup.
  - apply firstn_in, Hin in H. tauto.
  - apply firstn_in, Hin in H. destruct H as [H _].
    apply in_map_iff in H. destruct H as (s & <- & _). apply strip_idempotent.
  - apply firstn_in, Hin in H. tauto.
  - intros x y H.
    assert (Hy : In y full).
    { destruct H as (l1 & l2 & l3 & H). apply (firstn_in 10). rewrite H.
      apply in_or_app. right. right. apply in_or_app. right. left. reflexivity. }
    apply Hin in Hy. destruct Hy as [_ Hy]. apply nonempty_true in Hy.
    apply firstn_stands_before, fromkeys_order in H.
    apply (filter_first_seen _ _ _ _ Hy H).
  - intros e He Hne. apply firstn_in_or_full. apply Hin. tauto.
Qed.

Lemma classification_new_ok (ct : ClassificationType.t) (c : ConfidenceScore.t)
    (reasoning : option str) (v : list str) (cl : Classification.t) :
  Classification.new ct c reasoning v = Ok cl ->
  (length v <= 10)%nat
  /\ Classification.evidence_sources cl = Classification.validate_evidence_sources v.
Proof.
  unfold Classification.new.
  destruct (negb _); [discriminate |].
  destruct (length v <=? 10)%nat eqn:E; simpl; [| discriminate].
  intros H. injection H as <-. simpl.
  apply Nat.leb_le in E. split; [exact E | reflexivity].
Qed.

Lemma classification_new_long (ct : ClassificationType.t) (c : ConfidenceScore.t)
    (reasoning : option str) (v : list str) :
  (10 < length v)%nat -> is_ok (Classification.new ct c reasoning v) = false.
Proof.
  intros H. unfold Classification.new.
  destruct (negb _); [reflexivity |].
  apply Nat.leb_gt in H. rewrite H. reflexivity.
Qed.

Lemma analysis_result_new_ok (now : Z) (text : Text.t) (cl : Classification.t)
    (source : AnalysisSource.t) (time cost : Z) (expires : option Z)
    (v : list str) (similar : Z) (raw : option (gmap string py_value))
    (md : gmap string py_value) (r : AnalysisResult.t) :
  AnalysisResult.new now text cl source time cost expires v similar raw md = Ok r ->
  (length v <= 10)%nat
  /\ AnalysisResult.fact_check_sources r
     = AnalysisResult.validate_fact_check_sources v.
Proof.
  unfold AnalysisResult.new, AnalysisResult.validate_processing_time,
    AnalysisResult.validate_cost.
  destruct (negb (0 <=? time)%Z); [discriminate |].
  destruct (time <? 0)%Z; simpl; [discriminate |].
  destruct (negb (0 <=? cost)%Z); [discriminate |].
  destruct (cost <? 0)%Z; simpl; [discriminate |].
  destruct (length v <=? 10)%nat eqn:E; simpl; [| discriminate].
  destruct (negb (0 <=? similar)%Z); [discriminate |].
  intros H. injection H as <-. simpl.
  apply Nat.leb_le in E. split; [exact E | reflexivity].
Qed.

Lemma analysis_result_new_long (now : Z) (text : Text.t) (cl : Classification.t)
    (source : AnalysisSource.t) (time cost : Z) (expires : option Z)
    (v : list str) (similar : Z) (raw : option (gmap string py_value))
    (md : gmap string py_value) :
  (10 < length v)%nat ->
  is_ok (AnalysisResult.new now text cl source time cost expires v similar raw md)
  = false.
Proof.
  intros H. apply Nat.leb_gt in H.
  unfold AnalysisResult.new, AnalysisResult.validate_processing_time,
    AnalysisResult.validate_cost.
  destruct (negb (0 <=? time)%Z); [reflexivity |].
  destruct (time <? 0)%Z; simpl; [reflexivity |].
  destruct (negb (0 <=? cost)%Z); [reflexivity |].
  destruct (cost <? 0)%Z; simpl; [reflexivity |].
  rewrite H. reflexivity.
Qed.

(** C7, as amended: the two validators agree and return, for every list,
    at most ten entries, blanks dropped, each entry stripped and unique, in
    the order in which the list shows them first; they reduce
    ["a", "a", "", "b"] * 3 to ["a", "b"].  A [Classification] or an
    [AnalysisResult] that is built had at most ten entries in its input
    list and stores what the validator returns; from a list of more than
    ten entries none is built. *)
Theorem source_lists_hygiene :
  (forall v : list str,
      AnalysisResult.validate_fact_check_sources v
      = Classification.validate_evidence_sources v
      /\ hygienic v (Classification.validate_evidence_sources v)
      /\ hygienic v (AnalysisResult.validate_fact_check_sources v))
  /\ Classification.validate_evidence_sources twelve_sources = [u "a"; u "b"]
  /\ AnalysisResult.validate_fact_check_sources twelve_sources = [u "a"; u "b"]
  /\ (forall v ct c reasoning cl,
      Classification.new ct c reasoning v = Ok cl ->
      (length v <= 10)%nat /\ hygienic v (Classification.evidence_sources cl))
  /\ (forall v ct c,
      (length v <= 10)%nat -> is_ok (Classification.new ct c None v) = true)
  /\ (forall v ct c reasoning,
      (10 < length v)%nat -> is_ok (Classification.new ct c reasoning v) = false)
  /\ (forall v now text cl source time cost expires similar raw md r,
      AnalysisResult.new now text cl source time cost expires v similar raw md
      = Ok r ->
      (length v <= 10)%nat /\ hygienic v (AnalysisResult.fact_check_sources r))
  /\ (forall v now text cl time cost expires,
      (length v <= 10)%nat -> (0 <= time)%Z -> (0 <= cost)%Z ->
      is_ok (AnalysisResult.create_from_fact_check now text cl time v cost expires)
      = true)
  /\ (forall v now text cl time cost expires,
      (10 < length v)%nat ->
      is_ok (AnalysisResult.create_from_fact_check now text cl time v cost expires)
      = false).
Proof.
  repeat apply conj.
  - intros v. rewrite validators_agree.
    split; [reflexivity | split; apply validate_evidence_sources_hygienic].
  - vm_compute. reflexivity.
  - vm_compute. reflexivity.
  - intros v ct c reasoning cl H.
    apply classification_new_ok in H. destruct H as [H1 H2].
    split; [exact H1 |]. rewrite H2. apply validate_evidence_sources_hygienic.
  - intros v ct c H. unfold Classification.new. simpl.
    apply Nat.leb_le in H. rewrite H. reflexivity.
  - intros v ct c reasoning. apply classification_new_long.
  - intros v now text cl source time cost expires similar raw md r H.
    apply analysis_result_new_ok in H. destruct H as [H1 H2].
    split; [exact H1 |]. rewrite H2, validators_agree.
    apply validate_evidence_sources_hygienic.
  - intros v now text cl time cost expires Hv Ht Hc.
    unfold AnalysisResult.create_from_fact_check, AnalysisResult.new,
      AnalysisResult.validate_processing_time, AnalysisResult.validate_cost.
    apply Nat.leb_le in Hv. rewrite Hv.
    destruct (Z.leb_spec 0 time); [| lia]. destruct (Z.ltb_spec time 0); [lia |].
    simpl.
    destruct (Z.leb_spec 0 cost); [| lia]. destruct (Z.ltb_spec cost 0); [lia |].
    reflexivity.
  - intros v now text cl time cost expires H.
    apply analysis_result_new_long. exact H.
Qed.

Lemma source_lists_hygiene_witness :
  Classification.new ClassificationType.RELIABLE (ConfidenceScore.Build 0.9) None
    [u " x "; u "x"; u "  "; u "y"]
  = Ok (Classification.Build ClassificationType.RELIABLE (ConfidenceScore.Build 0.9)
          None [u "x"; u "y"] ∅)
  /\ hygienic [u " x "; u "x"; u "  "; u "y"] [u "x"; u "y"].
Proof.
  split; [reflexivity |].
  pose proof source_lists_hygiene as (_ & _ & _ & H & _).
  exact (proj2 (H [u " x "; u "x"; u "  "; u "y"]
                  ClassificationType.RELIABLE (ConfidenceScore.Build 0.9) None
                  (Classification.Build ClassificationType.RELIABLE
                     (ConfidenceScore.Build 0.9) None [u "x"; u "y"] ∅)
                  eq_refl)).
Defined.

(** C7 as stated fails: no [Classification] and no [AnalysisResult] is
    built from the twelve entries of ["a", "a", "", "b"] * 3. *)
Lemma twelve_sources_rejected :
  length twelve_sources = 12%nat
  /\ Classification.new ClassificationType.RELIABLE (ConfidenceScore.Build 0.9)
       None twelve_sources = Err (ValidationError "evidence_sources")
  /\ AnalysisResult.create_from_fact_check 0 sample_text sample_classification
       1000 twelve_sources 0 None = Err (ValidationError "fact_check_sources").
Proof. repeat split. Qed.

(** ** Language codes *)

Lemma text_new_language (U : UnicodeData) (now : Z) (oc nc : str)
    (h : TextHash.t) (lang : option str) (wc cc : Z) (kw : list str)
    (url : option str) (t : Text.t) :
  Text.new U now oc nc h lang wc cc kw url = Ok t ->
  Text.language t = Text.validate_language_code U lang.
Proof.
  unfold Text.new.
  destruct (negb _); [discriminate |].
  destruct (Text.validate_content_length oc); simpl; [| discriminate].
  repeat (destruct (negb _); [discriminate |]).
  intros H. injection H as <-. reflexivity.
Qed.

Lemma text_new_language_in_range (U : UnicodeData) (now : Z) (oc nc : str)
    (h : TextHash.t) (l l' : str) (wc cc : Z) (kw : list str) (url : option str) :
  (2 <= length l <= 5)%nat -> (2 <= length l' <= 5)%nat ->
  is_ok (Text.new U now oc nc h (Some l) wc cc kw url)
  = is_ok (Text.new U now oc nc h (Some l') wc cc kw url).
Proof.
  intros [H1 H2] [H3 H4].
  unfold Text.new.
  apply Nat.leb_le in H1, H2, H3, H4. rewrite H1, H2, H3, H4. simpl.
  destruct (negb _); [reflexivity |].
  destruct (Text.validate_content_length oc); simpl; [| reflexivity].
  repeat (destruct (negb _); [reflexivity |]).
  reflexivity.
Qed.

Lemma text_new_language_out_of_range (U : UnicodeData) (now : Z) (oc nc : str)
    (h : TextHash.t) (l : str) (wc cc : Z) (kw : list str) (url : option str) :
  (length l < 2 \/ 5 < length l)%nat ->
  is_ok (Text.new U now oc nc h (Some l) wc cc kw url) = false.
Proof.
  intros H.
  assert (E : (2 <=? length l)%nat && (length l <=? 5)%nat = false).
  { destruct H as [H | H].
    - apply Nat.leb_gt in H. rewrite H. reflexivity.
    - apply Nat.leb_gt in H. rewrite H. apply andb_false_r. }
  unfold Text.new. cbv iota. rewrite E.
  destruct (negb ((10 <=? length oc)%nat && (length oc <=? 2000)%nat));
    [reflexivity |].
  destruct (Text.validate_content_length oc); reflexivity.
Qed.

(** C8, as amended: the validator answers "pt" to every code that has
    not the shape of a language code; a [Text] asked for with such a code
    of two to five characters is built whenever it is built with no code
    at all, and its language is "pt"; with such a code of one character or
    of more than five, no [Text] is built. *)
Theorem invalid_language_code (U : UnicodeData) (l : str) :
  Text.match_language_code l = false ->
  Text.validate_language_code U (Some l) = Some (u "pt")
  /\ (forall now content url kw,
      (2 <= length l <= 5)%nat ->
      is_ok (Text.create U now content url (Some l) kw)
      = is_ok (Text.create U now content url None kw)
      /\ forall t, Text.create U now content url (Some l) kw = Ok t ->
                   Text.language t = Some (u "pt"))
  /\ (forall now content url kw,
      (length l = 1 \/ 5 < length l)%nat ->
      is_ok (Text.create U now content url (Some l) kw) = false).
Proof.
  intros Hbad.
  assert (Hv : Text.validate_language_code U (Some l) = Some (u "pt")).
  { unfold Text.validate_language_code. rewrite Hbad. reflexivity. }
  split; [exact Hv |]. split.
  - intros now content url kw Hlen.
    unfold Text.create.
    destruct (negb (nonempty content) || negb (nonempty (strip content)));
      [split; [reflexivity | discriminate] |].
    destruct (TextHash.from_text U _) as [h | e]; simpl;
      [| split; [reflexivity | discriminate]].
    destruct l as [| c l']; [simpl in Hlen; lia |].
    split.
    + apply text_new_language_in_range; [exact Hlen | simpl; lia].
    + intros t Ht. apply text_new_language in Ht. rewrite Ht. exact Hv.
  - intros now content url kw Hlen.
    unfold Text.create.
    destruct (negb (nonempty content) || negb (nonempty (strip content)));
      [reflexivity |].
    destruct (TextHash.from_text U _) as [h | e]; simpl; [| reflexivity].
    destruct l as [| c l']; [simpl in Hlen; lia |].
    apply text_new_language_out_of_range. lia.
Qed.

Lemma invalid_language_code_witness :
  is_ok (Text.create basic_latin 0 (u "Hello World!!") None (Some (u "xx-y")) None)
  = true
  /\ forall t,
      Text.create basic_latin 0 (u "Hello World!!") None (Some (u "xx-y")) None = Ok t ->
      Text.language t = Some (u "pt").
Proof.
  split; [vm_compute; reflexivity |].
  apply (proj1 (proj2 (invalid_language_code basic_latin (u "xx-y") eq_refl))).
  simpl. lia.
Defined.

(** C8 as stated fails: "english" has not the shape of a language code,
    and the [Text] that is built without a code is not built with it. *)
Lemma language_english_rejected :
  Text.match_language_code (u "english") = false
  /\ Text.create basic_latin 0 (u "Hello World!!") None None None = Ok sample_text
  /\ Text.create basic_latin 0 (u "Hello World!!") None (Some (u "english")) None
     = Err (ValidationError "language").
Proof. repeat split; vm_compute; reflexivity. Qed.

(** ** White space and words *)

Lemma lstrip_app (l m : str) :
  lstrip (l ++ m) = if forallb isspace l then lstrip m else lstrip l ++ m.
Proof.
  induction l as [| c l IH]; simpl; [reflexivity |].
  destruct (isspace c); simpl; [exact IH | reflexivity].
Qed.

Lemma lstrip_allspace (s : str) : forallb isspace s = true -> lstrip s = [].
Proof.
  induction s as [| c r IH]; simpl; [reflexivity |].
  destruct (isspace c); simpl; [exact IH | discriminate].
Qed.

Lemma forallb_rev {A : Type} (P : A -> bool) (l : list A) :
  forallb P (rev l) = forallb P l.
Proof.
  induction l as [| a l IH]; simpl; [reflexivity |].
  rewrite forallb_app, IH. simpl. rewrite andb_true_r. apply andb_comm.
Qed.

Lemma rstrip_allspace (s : str) : forallb isspace s = true -> rstrip s = [].
Proof.
  intros H. unfold rstrip. rewrite lstrip_allspace; [reflexivity |].
  rewrite forallb_rev. exact H.
Qed.

Lemma rstrip_cons (c : char) (s : str) :
  rstrip (c :: s)
  = if forallb isspace s then (if isspace c then [] else [c]) else c :: rstrip s.
Proof.
  unfold rstrip. simpl rev. rewrite lstrip_app, forallb_rev.
  destruct (forallb isspace s).
  - simpl. destruct (isspace c); reflexivity.
  - rewrite rev_app_distr. reflexivity.
Qed.

Lemma rstrip_cons_nonspace (c : char) (s : str) :
  isspace c = false -> rstrip (c :: s) = c :: rstrip s.
Proof.
  intros H. rewrite rstrip_cons, H.
  destruct (forallb isspace s) eqn:E; [| reflexivity].
  rewrite (rstrip_allspace _ E). reflexivity.
Qed.

Lemma sub_ws_in_run (s : str) : sub_ws_from true s = sub_ws_from false (lstrip s).
Proof.
  induction s as [| c r IH]; simpl; [reflexivity |].
  destruct (isspace c) eqn:E; [exact IH |].
  simpl. rewrite E. reflexivity.
Qed.

Lemma sub_ws_allspace (b : bool) (s : str) :
  forallb isspace (sub_ws_from b s) = forallb isspace s.
Proof.
  revert b. induction s as [| c r IH]; intros b; simpl; [reflexivity |].
  destruct (isspace c) eqn:E; simpl.
  - destruct b; simpl; apply IH.
  - rewrite E. reflexivity.
Qed.

Lemma sub_ws_rstrip (b : bool) (s : str) :
  rstrip (sub_ws_from b s) = sub_ws_from b (rstrip s).
Proof.
  revert b. induction s as [| c r IH]; intros b; [reflexivity |].
  rewrite (rstrip_cons c r). simpl sub_ws_from at 1.
  destruct (isspace c) eqn:E.
  - destruct b.
    + rewrite IH. destruct (forallb isspace r) eqn:Er.
      * rewrite (rstrip_allspace _ Er). reflexivity.
      * simpl. rewrite E. reflexivity.
    + rewrite rstrip_cons, sub_ws_allspace.
      change (isspace SP) with true.
      destruct (forallb isspace r) eqn:Er; [reflexivity |].
      simpl. rewrite E, IH. reflexivity.
  - rewrite rstrip_cons, sub_ws_allspace, E.
    destruct (forallb isspace r) eqn:Er.
    + simpl. rewrite E. reflexivity.
    + simpl. rewrite E, IH. reflexivity.
Qed.

Lemma sub_ws_lstrip (s : str) : lstrip (sub_ws s) = sub_ws (lstrip s).
Proof.
  unfold sub_ws. destruct s as [| c r]; simpl; [reflexivity |].
  destruct (isspace c) eqn:E.
  - change (lstrip (SP :: sub_ws_from true r)) with (lstrip (sub_ws_from true r)).
    rewrite sub_ws_in_run. apply lstrip_fixed.
    pose proof (lstrip_head_ok r) as H.
    destruct (lstrip r) as [| d r']; simpl; [exact I |].
    simpl in H. rewrite H. exact H.
  - simpl. rewrite E. reflexivity.
Qed.

(** Stripping and squeezing white space commute. *)
Lemma sub_ws_strip (s : str) : strip (sub_ws s) = sub_ws (strip s).
Proof.
  unfold strip. rewrite sub_ws_lstrip. apply sub_ws_rstrip.
Qed.

Lemma sub_ws_idempotent (b : bool) (s : str) :
  sub_ws_from b (sub_ws_from b s) = sub_ws_from b s.
Proof.
  revert b. induction s as [| c r IH]; intros b; simpl; [reflexivity |].
  destruct (isspace c) eqn:E.
  - destruct b; [apply IH |].
    simpl. change (isspace SP) with true. cbv iota. rewrite IH. reflexivity.
  - simpl. rewrite E, IH. reflexivity.
Qed.

Lemma squeeze_idempotent (s : str) :
  sub_ws (strip (sub_ws (strip s))) = sub_ws (strip s).
Proof.
  rewrite sub_ws_strip, strip_idempotent.
  unfold sub_ws. apply sub_ws_idempotent.
Qed.

Lemma split_from_nil (cur s : str) :
  split_from cur s = [] <-> cur = [] /\ forallb isspace s = true.
Proof.
  revert cur. induction s as [| c r IH]; intros cur; simpl.
  - destruct cur; split; try tauto; try discriminate.
    intros [H _]. discriminate.
  - destruct (isspace c) eqn:E; simpl.
    + destruct cur as [| d cur].
      * rewrite IH. tauto.
      * split; [discriminate | intros [H _]; discriminate].
    + rewrite IH. split; [intros [H _]; discriminate | intros [_ H]; discriminate].
Qed.

(** The words of [s] joined by single spaces are [s] squeezed and
    stripped on the right; [cur] is the word being read. *)
Lemma join_split_from (cur s : str) :
  join_sp (split_from cur s)
  = match cur with
    | [] => rstrip (sub_ws_from true s)
    | _ => rev cur ++ rstrip (sub_ws_from false s)
    end.
Proof.
  revert cur. induction s as [| c r IH]; intros cur.
  - destruct cur; simpl; [reflexivity |]. rewrite app_nil_r. reflexivity.
  - simpl split_from. simpl sub_ws_from.
    destruct (isspace c) eqn:E.
    + destruct cur as [| d cur]; [apply (IH []) |].
      rewrite rstrip_cons, sub_ws_allspace. change (isspace SP) with true.
      specialize (IH []). simpl in IH.
      destruct (forallb isspace r) eqn:Er.
      * assert (Hn : split_from [] r = []) by (apply split_from_nil; tauto).
        rewrite Hn. simpl. rewrite app_nil_r. reflexivity.
      * destruct (split_from [] r) as [| w ws] eqn:Hs.
        { apply split_from_nil in Hs. destruct Hs as [_ Hs]. congruence. }
        rewrite <- IH. reflexivity.
    + rewrite (IH (c :: cur)). rewrite (rstrip_cons_nonspace _ _ E).
      destruct cur as [| d cur]; simpl; [reflexivity |].
      rewrite <- !app_assoc. reflexivity.
Qed.

(** [re.sub(r'\s+', ' ', s.strip())] is [" ".join(s.split())]. *)
Lemma squeeze_join_split (s : str) : sub_ws (strip s) = join_sp (split s).
Proof.
  unfold split. rewrite (join_split_from [] s).
  unfold strip, sub_ws.
  rewrite <- sub_ws_rstrip, <- sub_ws_in_run. reflexivity.
Qed.

(** ** Characters *)

Ltac char_cases :=
  try lia;
  repeat (match goal with
          | |- context [N.leb ?a ?b] => destruct (N.leb_spec a b)
          | |- context [N.ltb ?a ?b] => destruct (N.ltb_spec a b)
          | |- context [N.eqb ?a ?b] => destruct (N.eqb_spec a b)
          | H : context [N.leb ?a ?b] |- _ => destruct (N.leb_spec a b)
          | H : context [N.ltb ?a ?b] |- _ => destruct (N.ltb_spec a b)
          | H : context [N.eqb ?a ?b] |- _ => destruct (N.eqb_spec a b)
          end; simpl in *; try lia; try congruence; try reflexivity).

Lemma same_letter_cases (c d : char) :
  same_letter c d -> c = d \/ (ascii_letter c /\ ascii_letter d).
Proof.
  unfold same_letter, ascii_to_lower, ascii_upper, ascii_letter.
  intros H. char_cases.
Qed.

Lemma letter_not_space (c : char) : ascii_letter c -> isspace c = false.
Proof.
  unfold ascii_letter, isspace. intros H. char_cases.
Qed.

Lemma same_letter_isspace (c d : char) :
  same_letter c d -> isspace c = isspace d.
Proof.
  intros H. destruct (same_letter_cases _ _ H) as [-> | [Hc Hd]];
    [reflexivity |].
  rewrite (letter_not_space _ Hc), (letter_not_space _ Hd). reflexivity.
Qed.

Lemma map_lower_same (l l' : str) :
  Forall2 same_letter l l' ->
  List.map ascii_to_lower l = List.map ascii_to_lower l'.
Proof.
  induction 1 as [| c d l l' H _ IH]; simpl; [reflexivity |].
  rewrite H, IH. reflexivity.
Qed.

(** ** Relations carried through the pipeline *)

Lemma Forall2_rev' {A B : Type} (R : A -> B -> Prop) (l : list A) (l' : list B) :
  Forall2 R l l' -> Forall2 R (rev l) (rev l').
Proof.
  induction 1 as [| a b l l' H _ IH]; simpl; [constructor |].
  apply Forall2_app; [exact IH | constructor; [exact H | constructor]].
Qed.

Lemma Forall2_split (R : char -> char -> Prop) :
  (forall c d, R c d -> isspace c = isspace d) ->
  forall s s', Forall2 R s s' ->
  forall cur cur', Forall2 R cur cur' ->
  Forall2 (Forall2 R) (split_from cur s) (split_from cur' s').
Proof.
  intros HR s s' Hs.
  induction Hs as [| c d s s' Hcd _ IH]; intros cur cur' Hcur; simpl.
  - destruct Hcur; [constructor |].
    constructor; [| constructor].
    apply (Forall2_rev' R (_ :: _) (_ :: _)). constructor; assumption.
  - rewrite <- (HR _ _ Hcd). destruct (isspace c).
    + destruct Hcur; [apply IH; constructor |].
      constructor; [| apply IH; constructor].
      apply (Forall2_rev' R (_ :: _) (_ :: _)). constructor; assumption.
    + apply IH. constructor; assumption.
Qed.

Lemma Forall2_join (R : char -> char -> Prop) (ws ws' : list str) :
  R SP SP -> Forall2 (Forall2 R) ws ws' -> Forall2 R (join_sp ws) (join_sp ws').
Proof.
  intros HSP H. induction H as [| w w' ws ws' Hw Hws IH]; simpl; [constructor |].
  destruct Hws as [| v v' ws ws' Hv Hws]; [exact Hw |].
  apply Forall2_app; [exact Hw |]. constructor; [exact HSP | exact IH].
Qed.

Lemma Forall2_filter {A : Type} (R : A -> A -> Prop) (P : A -> bool)
    (l l' : list A) :
  (forall x y, R x y -> P x = P y) ->
  Forall2 R l l' -> Forall2 R (List.filter P l) (List.filter P l').
Proof.
  intros HP H. induction H as [| x y l l' Hxy _ IH]; simpl; [constructor |].
  rewrite <- (HP _ _ Hxy). destruct (P x); [constructor; assumption | exact IH].
Qed.

Lemma Forall2_and {A : Type} (R : A -> A -> Prop) (P Q : A -> Prop)
    (l l' : list A) :
  Forall2 R l l' -> Forall P l -> Forall Q l' ->
  Forall2 (fun x y => R x y /\ P x /\ Q y) l l'.
Proof.
  induction 1 as [| x y l l' Hxy _ IH]; intros HP HQ; [constructor |].
  inversion HP; inversion HQ; subst.
  constructor; [tauto | apply IH; assumption].
Qed.

Lemma Forall2_weaken {A : Type} (R R' : A -> A -> Prop) (l l' : list A) :
  (forall x y, R x y -> R' x y) -> Forall2 R l l' -> Forall2 R' l l'.
Proof.
  intros HR H. induction H; constructor; auto.
Qed.

Lemma Forall2_sides {A : Type} (R : A -> A -> Prop) (P Q : A -> Prop)
    (l l' : list A) :
  Forall2 (fun x y => R x y /\ P x /\ Q y) l l' -> Forall P l /\ Forall Q l'.
Proof.
  induction 1 as [| x y l l' (_ & Hp & Hq) _ [IH1 IH2]]; split; constructor;
    assumption.
Qed.

Lemma Forall_lstrip (P : char -> Prop) (s : str) : Forall P s -> Forall P (lstrip s).
Proof.
  induction 1 as [| c r Hc Hr IH]; simpl; [constructor |].
  destruct (isspace c); [exact IH | constructor; assumption].
Qed.

Lemma Forall_strip (P : char -> Prop) (s : str) : Forall P s -> Forall P (strip s).
Proof.
  intros H. unfold strip, rstrip.
  apply Forall_rev, Forall_lstrip, Forall_rev, Forall_lstrip, H.
Qed.

Lemma Forall_sub_ws (P : char -> Prop) (b : bool) (s : str) :
  P SP -> Forall P s -> Forall P (sub_ws_from b s).
Proof.
  intros HSP H. revert b.
  induction H as [| c r Hc Hr IH]; intros b; simpl; [constructor |].
  destruct (isspace c); [destruct b |]; try constructor; auto.
Qed.

(** ** Digests *)

Lemma hex_digit_lower (d : N) :
  d < 16 -> TextHash.hex_lower (SHA256.hex_digit d) = true.
Proof.
  intros H. unfold TextHash.hex_lower, SHA256.hex_digit. char_cases.
Qed.

Lemma hex_word_format (w : SHA256.word) :
  length (SHA256.hex_word w) = 8%nat
  /\ Forall (fun c => TextHash.hex_lower c = true) (SHA256.hex_word w).
Proof.
  unfold SHA256.hex_word. split.
  - rewrite length_map. reflexivity.
  - apply List.Forall_map, List.Forall_forall. intros i _.
    apply hex_digit_lower.
    change 15 with (N.ones 4). rewrite N.land_ones.
    apply N.mod_lt. discriminate.
Qed.

Lemma hexdigest_format (msg : list byte) :
  length (SHA256.hexdigest msg) = 64%nat
  /\ Forall (fun c => TextHash.hex_lower c = true) (SHA256.hexdigest msg).
Proof.
  unfold SHA256.hexdigest.
  set (s := SHA256.digest msg). split.
  - rewrite !length_app.
    rewrite !(proj1 (hex_word_format _)). reflexivity.
  - repeat (apply Forall_app; split); apply hex_word_format.
Qed.

Lemma hex_lower_plain (c : char) :
  TextHash.hex_lower c = true ->
  isspace c = false /\ c < 128 /\ ascii_to_lower c = c.
Proof.
  unfold TextHash.hex_lower, isspace, ascii_to_lower, ascii_upper.
  intros H. repeat split; char_cases.
Qed.

Lemma strip_fixed (s : str) :
  Forall (fun c => isspace c = false) s -> strip s = s.
Proof.
  intros H. unfold strip.
  assert (Hl : lstrip s = s).
  { apply lstrip_fixed. destruct H; [exact I | assumption]. }
  rewrite Hl. unfold rstrip.
  rewrite lstrip_fixed; [apply rev_involutive |].
  apply Forall_rev in H. destruct H; [exact I | assumption].
Qed.

Lemma is_whitespace_isspace (c : char) :
  is_whitespace c = true -> isspace c = true.
Proof.
  unfold is_whitespace, isspace. char_cases.
Qed.

Lemma trim_fixed (s : str) :
  Forall (fun c => isspace c = false) s -> trim s = s.
Proof.
  intros H.
  assert (Hw : forall l, Forall (fun c => isspace c = false) l -> trim_start l = l).
  { intros l Hl. destruct Hl as [| c r Hc _]; [reflexivity |]. simpl.
    destruct (is_whitespace c) eqn:E; [| reflexivity].
    apply is_whitespace_isspace in E. congruence. }
  unfold trim, trim_end. rewrite (Hw s H).
  rewrite (Hw (rev s)); [apply rev_involutive |].
  apply Forall_rev. exact H.
Qed.

Lemma trim_start_keeps (c : char) (s : str) :
  In c s -> is_whitespace c = false -> In c (trim_start s).
Proof.
  intros Hin Hc. induction s as [| d r IH]; [destruct Hin |].
  simpl. destruct (is_whitespace d) eqn:E; [| exact Hin].
  destruct Hin as [-> | Hin]; [congruence | exact (IH Hin)].
Qed.

Lemma trim_keeps (c : char) (s : str) :
  In c s -> is_whitespace c = false -> In c (trim s).
Proof.
  intros Hin Hc. unfold trim, trim_end.
  apply in_rev. rewrite rev_involutive.
  apply trim_start_keeps; [| exact Hc].
  apply in_rev. rewrite rev_involutive.
  apply trim_start_keeps; assumption.
Qed.

Lemma forallb_Forall {A : Type} (P : A -> bool) (l : list A) :
  forallb P l = true <-> Forall (fun x => P x = true) l.
Proof.
  rewrite forallb_forall, List.Forall_forall. reflexivity.
Qed.

Lemma map_fixed {A : Type} (f : A -> A) (l : list A) :
  Forall (fun x => f x = x) l -> List.map f l = l.
Proof.
  induction 1 as [| x l Hx _ IH]; simpl; [reflexivity |].
  rewrite Hx, IH. reflexivity.
Qed.

(** A digest is a well-formed [TextHash], and is stored as it is. *)
Lemma texthash_new_digest (U : UnicodeData) (msg : list byte) :
  ascii_exact U ->
  TextHash.new U (SHA256.hexdigest msg) = Ok (TextHash.Build (SHA256.hexdigest msg)).
Proof.
  intros HU.
  destruct (hexdigest_format msg) as [Hlen Hhex].
  revert Hlen Hhex. generalize (SHA256.hexdigest msg). intros d Hlen Hhex.
  assert (Hs : trim d = d).
  { apply trim_fixed. eapply List.Forall_impl; [| exact Hhex].
    intros c Hc. apply hex_lower_plain in Hc. tauto. }
  assert (Hl : str_lower U d = d).
  { rewrite (lower_ascii U HU).
    - apply map_fixed. eapply List.Forall_impl; [| exact Hhex].
      intros c Hc. apply hex_lower_plain in Hc. tauto.
    - eapply List.Forall_impl; [| exact Hhex].
      intros c Hc. apply hex_lower_plain in Hc. tauto. }
  apply forallb_Forall in Hhex.
  unfold TextHash.new, TextHash.validate_hash_format, TextHash.value_field,
    TextHash.match_hash_format.
  rewrite Hs, Hl, Hlen, Hhex. simpl.
  assert (Hf : firstn 64 d = d) by (apply firstn_all2; lia).
  assert (Hk : skipn 64 d = []) by (apply skipn_all2; lia).
  rewrite Hf, Hk, Hlen, Hhex. reflexivity.
Qed.

Lemma sha256_hex_inv (s d : str) :
  sha256_hex s = Ok d -> exists msg, utf8_encode s = Ok msg /\ d = SHA256.hexdigest msg.
Proof.
  unfold sha256_hex. destruct (utf8_encode s) as [msg | e]; simpl; [| discriminate].
  intros H. injection H as <-. exists msg. split; reflexivity.
Qed.

Lemma from_text_value (U : UnicodeData) (text : str) (h : TextHash.t) :
  ascii_exact U ->
  TextHash.from_text U text = Ok h ->
  text <> [] /\ sha256_hex (TextHash._normalize_text U text) = Ok (TextHash.value h).
Proof.
  intros HU. unfold TextHash.from_text.
  destruct text as [| c r]; [discriminate |].
  destruct (sha256_hex _) as [d |] eqn:E; simpl; [| discriminate].
  destruct (sha256_hex_inv _ _ E) as (msg & _ & ->).
  rewrite (texthash_new_digest U msg HU).
  intros H. injection H as <-. split; [discriminate | reflexivity].
Qed.

Lemma text_new_hash (U : UnicodeData) (now : Z) (oc nc : str)
    (h : TextHash.t) (lang : option str) (wc cc : Z) (kw : list str)
    (url : option str) (t : Text.t) :
  Text.new U now oc nc h lang wc cc kw url = Ok t ->
  Text.text_hash t = h /\ Text.normalized_content t = nc.
Proof.
  unfold Text.new.
  destruct (negb _); [discriminate |].
  destruct (Text.validate_content_length oc); simpl; [| discriminate].
  repeat (destruct (negb _); [discriminate |]).
  intros H. injection H as <-. split; reflexivity.
Qed.

(** What [Text.create] hashes. *)
Lemma text_create_hash (U : UnicodeData) (now : Z) (content : str)
    (url lang : option str) (kw : option (list str)) (t : Text.t) :
  ascii_exact U ->
  Text.create U now content url lang kw = Ok t ->
  content <> []
  /\ sha256_hex (TextHash._normalize_text U (Text._normalize_content U (strip content)))
     = Ok (TextHash.value (Text.text_hash t)).
Proof.
  intros HU. unfold Text.create.
  destruct content as [| c r]; [discriminate |].
  destruct (negb (nonempty (c :: r)) || negb (nonempty (strip (c :: r))));
    [discriminate |].
  destruct (TextHash.from_text U _) as [h |] eqn:E; simpl; [| discriminate].
  intros H. apply text_new_hash in H. destruct H as [-> _].
  apply (from_text_value U _ _ HU) in E. split; [discriminate | tauto].
Qed.

Lemma text_create_from_text (U : UnicodeData) (now : Z) (content : str)
    (url lang : option str) (kw : option (list str)) (t : Text.t) :
  Text.create U now content url lang kw = Ok t ->
  TextHash.from_text U (Text._normalize_content U (strip content))
  = Ok (Text.text_hash t).
Proof.
  unfold Text.create.
  destruct (negb (nonempty content) || negb (nonempty (strip content)));
    [discriminate |].
  destruct (TextHash.from_text U _) as [h |] eqn:E; simpl; [| discriminate].
  intros H. apply text_new_hash in H. destruct H as [-> _]. reflexivity.
Qed.

(** ** Runs of punctuation and quotes *)

Lemma space_not_punctuation (c : char) :
  isspace c = true -> TextProcessor.PUNCTUATION c = false.
Proof.
  unfold isspace, TextProcessor.PUNCTUATION. intros H. char_cases.
Qed.

Lemma lower_punctuation (c : char) :
  TextProcessor.PUNCTUATION (ascii_to_lower c) = TextProcessor.PUNCTUATION c.
Proof.
  unfold TextProcessor.PUNCTUATION, ascii_to_lower, ascii_upper. char_cases.
Qed.

Lemma no_run_lstrip (s : str) : no_run_from false s -> no_run_from false (lstrip s).
Proof.
  induction s as [| c r IH]; simpl; [tauto |].
  destruct (isspace c) eqn:E; simpl; [| tauto].
  intros [_ H]. rewrite (space_not_punctuation _ E) in H. apply IH, H.
Qed.

Lemma no_run_prefix (p : bool) (l m : str) :
  no_run_from p (l ++ m) -> no_run_from p l.
Proof.
  revert p. induction l as [| c r IH]; intros p; simpl; [tauto |].
  intros [H1 H2]. split; [exact H1 | apply IH, H2].
Qed.

Lemma no_run_rstrip (s : str) : no_run_from false s -> no_run_from false (rstrip s).
Proof.
  intros H. destruct (rstrip_prefix s) as (ws & Hs & _).
  rewrite Hs in H. apply no_run_prefix in H. exact H.
Qed.

Lemma no_run_sub_ws (b p : bool) (s : str) :
  (b = true -> p = false) ->
  no_run_from p s -> no_run_from p (sub_ws_from b s).
Proof.
  revert b p. induction s as [| c r IH]; intros b p Hb; simpl; [tauto |].
  intros [H1 H2].
  destruct (isspace c) eqn:E.
  - rewrite (space_not_punctuation _ E) in H2.
    destruct b.
    + rewrite (Hb eq_refl). apply IH; [reflexivity | exact H2].
    + simpl. split; [reflexivity |]. apply IH; [reflexivity | exact H2].
  - simpl. split; [exact H1 |]. apply IH; [discriminate | exact H2].
Qed.

Lemma no_run_map_lower (p : bool) (s : str) :
  no_run_from p s -> no_run_from p (List.map ascii_to_lower s).
Proof.
  revert p. induction s as [| c r IH]; intros p; simpl; [tauto |].
  rewrite lower_punctuation. intros [H1 H2]. split; [exact H1 | apply IH, H2].
Qed.

Lemma sub_punctuation_fixed (p : bool) (s : str) :
  no_run_from p s -> TextProcessor.sub_punctuation_from p s = s.
Proof.
  revert p. induction s as [| c r IH]; intros p; simpl; [reflexivity |].
  intros [H1 H2].
  destruct (TextProcessor.PUNCTUATION c) eqn:E.
  - destruct p; [specialize (H1 eq_refl); discriminate |].
    rewrite (IH _ H2). reflexivity.
  - rewrite (IH _ H2). reflexivity.
Qed.

(** The quote patterns of the source replace a straight quote by itself:
    they change no string. *)
Lemma quote_normalization_identity (s : str) :
  fold_left (fun acc pr => TextProcessor.sub_class (fst pr) (snd pr) acc)
            TextProcessor.QUOTE_NORMALIZATION_PATTERNS s = s.
Proof.
  assert (H : forall q t, TextProcessor.sub_class [q; q; q] q t = t).
  { intros q t. unfold TextProcessor.sub_class. apply map_fixed.
    apply List.Forall_forall. intros c _. simpl.
    destruct (N.eqb_spec c q) as [-> | Hne]; reflexivity. }
  simpl. rewrite !H. reflexivity.
Qed.

(** ** The two normalisations on plain text *)

Lemma printable_facts (c : char) :
  printable c ->
  c < 128 /\ TextProcessor.CONTROL_CHARS c = false
  /\ ((c <? 32) || (c =? 127) = false).
Proof.
  unfold printable, TextProcessor.CONTROL_CHARS. intros H.
  repeat split; char_cases.
Qed.

Lemma plain_nonspace (c : char) : plain c -> isspace c = false -> printable c.
Proof.
  unfold plain, printable, isspace, TAB, LF, CR. intros H E. char_cases.
Qed.

Lemma Forall_sub_ws_nonspace (P Q : char -> Prop) (b : bool) (s : str) :
  Q SP -> (forall c, P c -> isspace c = false -> Q c) ->
  Forall P s -> Forall Q (sub_ws_from b s).
Proof.
  intros HSP HPQ H. revert b.
  induction H as [| c r Hc Hr IH]; intros b; simpl; [constructor |].
  destruct (isspace c) eqn:E; [destruct b |]; try constructor; auto.
Qed.

Lemma filter_fixed {A : Type} (P : A -> bool) (l : list A) :
  Forall (fun x => P x = true) l -> List.filter P l = l.
Proof.
  induction 1 as [| x l Hx _ IH]; simpl; [reflexivity |].
  rewrite Hx, IH. reflexivity.
Qed.

Lemma sub_ws_map (f : char -> char) (b : bool) (s : str) :
  (forall c, isspace (f c) = isspace c) ->
  (forall c, isspace c = false -> f c = c) ->
  sub_ws_from b (List.map f s) = sub_ws_from b s.
Proof.
  intros H1 H2. revert b. induction s as [| c r IH]; intros b; simpl; [reflexivity |].
  rewrite H1. destruct (isspace c) eqn:E.
  - destruct b; rewrite IH; reflexivity.
  - rewrite (H2 _ E), IH. reflexivity.
Qed.

Lemma sub_ws_replace (old : char) (s : str) :
  isspace old = true -> sub_ws (replace_char old SP s) = sub_ws s.
Proof.
  intros H. unfold sub_ws, replace_char. apply sub_ws_map.
  - intros c. destruct (N.eqb_spec c old) as [-> | _]; [| reflexivity].
    rewrite H. reflexivity.
  - intros c Hc. destruct (N.eqb_spec c old) as [-> | _]; [congruence | reflexivity].
Qed.

Lemma plain_replaced_printable (s : str) :
  Forall plain s ->
  Forall printable (replace_char CR SP (replace_char LF SP (replace_char TAB SP s))).
Proof.
  intros H. unfold replace_char. rewrite !List.map_map.
  apply List.Forall_map. eapply List.Forall_impl; [| exact H].
  intros c Hc. unfold plain, printable, TAB, LF, CR, SP in *. char_cases.
Qed.

(** The squeezed and stripped form of a plain text. *)
Lemma squeezed_printable (s : str) :
  Forall plain s -> Forall printable (sub_ws (strip s)).
Proof.
  intros H. unfold sub_ws.
  apply (Forall_sub_ws_nonspace plain printable).
  - unfold printable, SP. lia.
  - apply plain_nonspace.
  - apply Forall_strip, H.
Qed.

Lemma printable_ascii (s : str) : Forall printable s -> is_ascii s.
Proof.
  intros H. eapply List.Forall_impl; [| exact H].
  intros c Hc. apply printable_facts in Hc. tauto.
Qed.

Lemma lower_printable (s : str) :
  Forall printable s -> Forall printable (List.map ascii_to_lower s).
Proof.
  intros H. apply List.Forall_map. eapply List.Forall_impl; [| exact H].
  intros c. unfold printable, ascii_to_lower, ascii_upper. intros Hc. char_cases.
Qed.

(** What [Text.create] hashes of a plain text: its words in lower case,
    one space apart. *)
Lemma fingerprint_preimage (U : UnicodeData) (t : str) :
  ascii_exact U -> Forall plain t ->
  TextHash._normalize_text U (Text._normalize_content U (strip t))
  = List.map ascii_to_lower (sub_ws (strip t)).
Proof.
  intros HU Ht.
  pose proof (squeezed_printable t Ht) as HA.
  unfold Text._normalize_content. rewrite strip_idempotent.
  rewrite (nfc_ascii U HU _ (printable_ascii _ HA)).
  rewrite filter_fixed.
  2:{ eapply List.Forall_impl; [| exact HA].
      intros c Hc. destruct (printable_facts c Hc) as (Hlt & _ & Hcat).
      rewrite (category_C_ascii U HU c Hlt), Hcat. reflexivity. }
  unfold TextHash._normalize_text. rewrite squeeze_idempotent.
  rewrite (lower_ascii U HU _ (printable_ascii _ HA)).
  apply (nfc_ascii U HU). apply printable_ascii, lower_printable, HA.
Qed.

(** What [normalize] makes of a plain text for hashing: its words in
    lower case, one space apart, each run of punctuation cut down to its
    first mark. *)
Lemma normalize_plain (U : UnicodeData) (t : str) :
  ascii_exact U -> t <> [] -> Forall plain t ->
  TextProcessor.normalize U t true
  = Ok (TextProcessor.sub_punctuation (List.map ascii_to_lower (sub_ws (strip t)))).
Proof.
  intros HU Hne Ht.
  pose proof (squeezed_printable t Ht) as HA.
  unfold TextProcessor.normalize. destruct t as [| c0 r0]; [congruence |].
  set (t := c0 :: r0) in *.
  rewrite filter_fixed.
  2:{ eapply List.Forall_impl; [| exact (plain_replaced_printable t Ht)].
      intros c Hc. destruct (printable_facts c Hc) as (_ & Hctl & _).
      rewrite Hctl. reflexivity. }
  rewrite !sub_ws_replace by reflexivity.
  assert (Hw : is_ascii (sub_ws t)).
  { unfold sub_ws. apply Forall_sub_ws; [unfold SP; lia |].
    eapply List.Forall_impl; [| exact Ht].
    intros c. unfold plain, TAB, LF, CR. lia. }
  rewrite (nfc_ascii U HU _ Hw), sub_ws_strip.
  rewrite (lower_ascii U HU _ (printable_ascii _ HA)).
  rewrite quote_normalization_identity. reflexivity.
Qed.

(** What [generate_hash] hashes of a plain text in which no punctuation
    mark follows another: what [Text.create] hashes. *)
Lemma generate_hash_preimage (U : UnicodeData) (t : str) :
  ascii_exact U -> t <> [] -> Forall plain t -> no_punctuation_run t ->
  TextProcessor.normalize U t true = Ok (List.map ascii_to_lower (sub_ws (strip t))).
Proof.
  intros HU Hne Ht Hrun.
  rewrite (normalize_plain U t HU Hne Ht).
  unfold TextProcessor.sub_punctuation. rewrite sub_punctuation_fixed; [reflexivity |].
  apply no_run_map_lower. unfold sub_ws.
  apply no_run_sub_ws; [discriminate |].
  unfold strip. apply no_run_rstrip, no_run_lstrip, Hrun.
Qed.

Lemma basic_latin_exact : ascii_exact basic_latin.
Proof. split; intros; reflexivity. Qed.

Lemma latin_greek_exact : ascii_exact latin_greek.
Proof.
  split.
  - intros s Hs. cbn [str_lower latin_greek].
    generalize false. induction Hs as [| c r Hc _ IH]; intros b; [reflexivity |].
    cbn [lower_from List.map].
    assert (E1 : (c =? 0x3A3) = false) by (apply N.eqb_neq; lia).
    assert (E2 : greek_upper c = false).
    { unfold greek_upper. destruct (N.leb_spec 0x391 c); [lia | reflexivity]. }
    rewrite E1, E2, IH. reflexivity.
  - intros s _. reflexivity.
  - intros c _. reflexivity.
  - intros c Hc. cbn [isalnum latin_greek].
    assert (E2 : greek_upper c = false).
    { unfold greek_upper. destruct (N.leb_spec 0x391 c); [lia | reflexivity]. }
    assert (E3 : greek_lower c = false).
    { unfold greek_lower. destruct (N.leb_spec 0x3B1 c); [lia | reflexivity]. }
    rewrite E2, E3, !orb_false_r. reflexivity.
Qed.

Lemma utf8_ascii (s : str) : is_ascii s -> utf8_encode s = Ok s.
Proof.
  induction 1 as [| c r Hc _ IH]; simpl; [reflexivity |].
  unfold utf8_char. destruct (N.ltb_spec c 128) as [_ | Hge]; [| lia].
  rewrite IH. reflexivity.
Qed.

Lemma sub_ws_nonempty (s : str) : s <> [] -> sub_ws s <> [].
Proof.
  destruct s as [| c r]; [congruence |]. intros _. unfold sub_ws. simpl.
  destruct (isspace c); discriminate.
Qed.

Lemma head_ok_not_allspace (s : str) :
  s <> [] -> head_ok s -> forallb isspace s = false.
Proof.
  destruct s as [| c r]; [congruence |]. simpl. intros _ H. rewrite H. reflexivity.
Qed.

Lemma normalize_content_plain (U : UnicodeData) (t : str) :
  ascii_exact U -> Forall plain t ->
  Text._normalize_content U (strip t) = sub_ws (strip t).
Proof.
  intros HU Ht.
  pose proof (squeezed_printable t Ht) as HA.
  unfold Text._normalize_content. rewrite strip_idempotent.
  rewrite (nfc_ascii U HU _ (printable_ascii _ HA)).
  apply filter_fixed.
  eapply List.Forall_impl; [| exact HA].
  intros c Hc. destruct (printable_facts c Hc) as (Hlt & _ & Hcat).
  rewrite (category_C_ascii U HU c Hlt), Hcat. reflexivity.
Qed.

Lemma from_text_printable (U : UnicodeData) (A : str) :
  ascii_exact U -> Forall printable A -> A <> [] -> sub_ws (strip A) = A ->
  TextHash.from_text U A
  = Ok (TextHash.Build (SHA256.hexdigest (List.map ascii_to_lower A))).
Proof.
  intros HU HA Hne Hsq.
  unfold TextHash.from_text, TextHash._normalize_text.
  destruct A as [| a0 A']; [congruence |].
  rewrite Hsq.
  rewrite (lower_ascii U HU _ (printable_ascii _ HA)).
  rewrite (nfc_ascii U HU _ (printable_ascii _ (lower_printable _ HA))).
  unfold sha256_hex.
  rewrite (utf8_ascii _ (printable_ascii _ (lower_printable _ HA))).
  unfold bind. apply (texthash_new_digest U _ HU).
Qed.

Lemma text_new_default (U : UnicodeData) (now : Z) (oc nc : str) (h : TextHash.t)
    (wc : Z) :
  ascii_exact U ->
  strip oc = oc -> (10 <= length oc <= 2000)%nat -> (1 <= wc)%Z ->
  exists txt,
    Text.new U now oc nc h (Some Text.DEFAULT_LANGUAGE) wc (Z.of_nat (length oc))
      [] None = Ok txt.
Proof.
  intros HU Hs [Hlo Hhi] Hwc.
  assert (Hne : nonempty oc = true).
  { destruct oc; [simpl in Hlo; lia | reflexivity]. }
  unfold Text.new, Text.validate_content_length.
  rewrite Hs, Hne.
  assert (E1 : (10 <=? length oc)%nat = true) by (apply Nat.leb_le; lia).
  assert (E2 : (length oc <=? 2000)%nat = true) by (apply Nat.leb_le; lia).
  assert (E3 : (length oc <? 10)%nat = false) by (apply Nat.ltb_ge; lia).
  assert (E4 : (2000 <? length oc)%nat = false) by (apply Nat.ltb_ge; lia).
  assert (E5 : (1 <=? wc)%Z = true) by (apply Z.leb_le; lia).
  assert (E6 : (10 <=? Z.of_nat (length oc))%Z = true) by (apply Z.leb_le; lia).
  assert (E7 : (Z.of_nat (length oc) <=? 2000)%Z = true) by (apply Z.leb_le; lia).
  rewrite E1, E2, E3, E4. unfold bind. cbn [negb andb orb].
  rewrite E5, E6, E7. cbn [negb andb orb length Text.DEFAULT_LANGUAGE].
  eexists. reflexivity.
Qed.

(** A plain text of ten to two thousand characters makes a [Text]. *)
Lemma text_create_plain (U : UnicodeData) (now : Z) (t : str) :
  ascii_exact U -> Forall plain t ->
  (10 <= length (strip t) <= 2000)%nat ->
  exists txt, Text.create U now t None None None = Ok txt.
Proof.
  intros HU Ht Hlen.
  assert (Hs : strip t <> []).
  { intros E. rewrite E in Hlen. simpl in Hlen. lia. }
  assert (Hne : t <> []).
  { intros E. apply Hs. rewrite E. reflexivity. }
  pose proof (squeezed_printable t Ht) as HA.
  assert (HAne : sub_ws (strip t) <> []) by (apply sub_ws_nonempty, Hs).
  assert (Hw : split (sub_ws (strip t)) <> []).
  { unfold split. intros E. apply split_from_nil in E. destruct E as [_ E].
    unfold sub_ws in E. rewrite sub_ws_allspace in E.
    rewrite (head_ok_not_allspace _ Hs (strip_head_ok t)) in E. discriminate. }
  unfold Text.create.
  apply nonempty_true in Hne, Hs. rewrite Hne, Hs. cbn [negb orb].
  rewrite (normalize_content_plain U t HU Ht).
  rewrite (from_text_printable U _ HU HA HAne (squeeze_idempotent t)).
  unfold bind, Classification.or_empty.
  apply text_new_default; [exact HU | apply strip_idempotent | exact Hlen |].
  destruct (split (sub_ws (strip t))); [congruence |]. simpl length. lia.
Qed.

(** C3, as amended: the system has two normalisations for hashing.  The
    fingerprint that [Text.create] stores of a text, whatever the text, is
    the one [TextHash.from_text] computes of the normalised content: the
    SHA-256 of what [TextHash._normalize_text] makes of
    [Text._normalize_content] of the stripped text, and no run of
    punctuation is collapsed on the way.  Of a text of printable ASCII
    characters, tabs, line feeds and carriage returns that is the SHA-256
    of its words in lower case, one space apart; it is the digest of
    [generate_hash] when no punctuation mark of the text follows another;
    and such a text of ten to two thousand characters makes a [Text]. *)
Theorem fingerprint_on_plain_text (U : UnicodeData) (now : Z) (t : str) :
  ascii_exact U ->
  (forall url lang kw txt,
      Text.create U now t url lang kw = Ok txt ->
      TextHash.from_text U (Text._normalize_content U (strip t))
      = Ok (Text.text_hash txt)
      /\ sha256_hex (TextHash._normalize_text U (Text._normalize_content U (strip t)))
         = Ok (TextHash.value (Text.text_hash txt)))
  /\ (Forall plain t ->
      (forall url lang kw txt,
          Text.create U now t url lang kw = Ok txt ->
          sha256_hex (List.map ascii_to_lower (sub_ws (strip t)))
          = Ok (TextHash.value (Text.text_hash txt))
          /\ (no_punctuation_run t ->
              TextProcessor.generate_hash U t
              = Ok (TextHash.value (Text.text_hash txt))))
      /\ ((10 <= length (strip t) <= 2000)%nat ->
          exists txt, Text.create U now t None None None = Ok txt)).
Proof.
  intros HU. split.
  - intros url lang kw txt Hc. split.
    + apply (text_create_from_text U now t url lang kw txt Hc).
    + apply (text_create_hash U _ _ _ _ _ _ HU) in Hc. tauto.
  - intros Ht. split; [| apply text_create_plain; assumption].
    intros url lang kw txt Hc.
    apply (text_create_hash U _ _ _ _ _ _ HU) in Hc. destruct Hc as [Hne Hh].
    rewrite (fingerprint_preimage U t HU Ht) in Hh.
    split; [exact Hh |].
    intros Hrun. unfold TextProcessor.generate_hash.
    rewrite (generate_hash_preimage U t HU Hne Ht Hrun).
    destruct t; [congruence | exact Hh].
Qed.

Lemma fingerprint_on_plain_text_witness :
  Text.create basic_latin 0 (u "Hello, World!") None None None
  = Ok (Text.Build (u "Hello, World!") (u "Hello, World!")
          (TextHash.Build
             (u "68e656b251e67e8358bef8483ab0d51c6619f3e7a1a9f0e75838d41ff368f728"))
          (Some (u "pt")) 2 13 [] None 0 ∅)
  /\ TextProcessor.generate_hash basic_latin (u "Hello, World!")
     = Ok (u "68e656b251e67e8358bef8483ab0d51c6619f3e7a1a9f0e75838d41ff368f728").
Proof.
  assert (Hc : Text.create basic_latin 0 (u "Hello, World!") None None None
               = Ok (Text.Build (u "Hello, World!") (u "Hello, World!")
                       (TextHash.Build
                          (u "68e656b251e67e8358bef8483ab0d51c6619f3e7a1a9f0e75838d41ff368f728"))
                       (Some (u "pt")) 2 13 [] None 0 ∅)).
  { vm_compute. reflexivity. }
  split; [exact Hc |].
  refine (proj2 (proj1 (proj2 (fingerprint_on_plain_text basic_latin 0
                                 (u "Hello, World!") basic_latin_exact) _)
                   None None None _ Hc) _).
  - repeat constructor; unfold plain; simpl; lia.
  - vm_compute. intuition discriminate.
Defined.

(** C3 as stated fails: of "Hello World!!" [Text.create] hashes
    "hello world!!" and [generate_hash] hashes "hello world!". *)
Lemma fingerprint_differs_on_punctuation_run :
  Text.create basic_latin 0 (u "Hello World!!") None None None = Ok sample_text
  /\ TextHash.value (Text.text_hash sample_text)
     = u "8380c4c6720e0d5ce4789bf72df03a6e1b3ed80891f3adbe8833c760399b8e91"
  /\ sha256_hex (u "hello world!!") = Ok (TextHash.value (Text.text_hash sample_text))
  /\ TextProcessor.normalize basic_latin (u "Hello World!!") true = Ok (u "hello world!")
  /\ TextProcessor.generate_hash basic_latin (u "Hello World!!")
     = Ok (u "7509e5bda0c762d2bac7f90d758b5b2263fa01ccbc542ab5e3df163be08e6ca9")
  /\ TextProcessor.generate_hash basic_latin (u "Hello World!!")
     <> Ok (TextHash.value (Text.text_hash sample_text)).
Proof.
  repeat split; try (vm_compute; reflexivity).
  vm_compute. discriminate.
Qed.

(** ** Stability of [generate_hash] *)

Lemma same_words_squeezed (a b : str) :
  same_words a b -> Forall2 same_letter (sub_ws (strip a)) (sub_ws (strip b)).
Proof.
  intros H. rewrite !squeeze_join_split.
  apply Forall2_join; [reflexivity | exact H].
Qed.

(** Two plain texts that differ only by letter case or white space have
    the same digest. *)
Lemma generate_hash_same_words (U : UnicodeData) (a b : str) :
  ascii_exact U -> a <> [] -> b <> [] -> Forall plain a -> Forall plain b ->
  same_words a b ->
  TextProcessor.generate_hash U a = TextProcessor.generate_hash U b.
Proof.
  intros HU Ha Hb Pa Pb Hab.
  unfold TextProcessor.generate_hash.
  rewrite (normalize_plain U a HU Ha Pa), (normalize_plain U b HU Hb Pb).
  rewrite (map_lower_same _ _ (same_words_squeezed a b Hab)).
  destruct a; [congruence |]. destruct b; [congruence |]. reflexivity.
Qed.

Example hash_stable_space_case :
  TextProcessor.generate_hash basic_latin (u " T ")
  = TextProcessor.generate_hash basic_latin (u "t")
  /\ TextProcessor.generate_hash basic_latin (u "Test Article")
     = TextProcessor.generate_hash basic_latin (u "test   article")
  /\ TextProcessor.generate_hash basic_latin (u "Really?!  Yes...")
     = TextProcessor.generate_hash basic_latin (u "really? yes.")
  /\ TextProcessor.normalize basic_latin (u "  Hello   World!!  ") true
     = Ok (u "hello world!").
Proof. repeat split; vm_compute; reflexivity. Qed.

(** C2, at its failing input: [generate_hash] leaves curly quotes as they
    are, so the text "abc" between curly double quotes and the same text
    between straight ones have two digests. *)
Theorem generate_hash_curly_quotes :
  TextProcessor.normalize basic_latin curly_quoted true = Ok curly_quoted
  /\ TextProcessor.normalize basic_latin straight_quoted true = Ok straight_quoted
  /\ TextProcessor.generate_hash basic_latin curly_quoted
     = Ok (u "acb3b245c391e8b1db17e32a1a0eb3ae5c9c2b6f34ebf6c11e645183d43dea20")
  /\ TextProcessor.generate_hash basic_latin straight_quoted
     = Ok (u "6cc43f858fbb763301637b5af970e2a46b46f461f27e5a0f41e009c59b827b25")
  /\ TextProcessor.generate_hash basic_latin curly_quoted
     <> TextProcessor.generate_hash basic_latin straight_quoted.
Proof.
  repeat split; try (vm_compute; reflexivity).
  vm_compute. discriminate.
Qed.

(** ** Equality of texts *)

Lemma ascii_same_letter_isspace (c d : char) :
  ascii_same_letter c d -> isspace c = isspace d.
Proof. intros [H _]. apply same_letter_isspace, H. Qed.

Lemma ascii_same_letter_kept (U : UnicodeData) (c d : char) :
  ascii_exact U -> ascii_same_letter c d ->
  negb (category_C U c) || (c =? LF) || (c =? CR) || (c =? TAB)
  = negb (category_C U d) || (d =? LF) || (d =? CR) || (d =? TAB).
Proof.
  intros HU (H & Hc & Hd).
  destruct (same_letter_cases _ _ H) as [-> | [Lc Ld]]; [reflexivity |].
  rewrite (category_C_ascii U HU c Hc), (category_C_ascii U HU d Hd).
  unfold ascii_letter, LF, CR, TAB in *. char_cases.
Qed.

Lemma squeezed_ascii (s : str) : is_ascii s -> is_ascii (sub_ws (strip s)).
Proof.
  intros H. unfold sub_ws. apply Forall_sub_ws; [unfold SP; lia |].
  apply Forall_strip, H.
Qed.

Lemma ascii_same_squeezed (a b : str) :
  Forall2 ascii_same_letter a b ->
  Forall2 ascii_same_letter (sub_ws (strip a)) (sub_ws (strip b)).
Proof.
  intros H. rewrite !squeeze_join_split.
  apply Forall2_join.
  - split; [reflexivity | unfold SP; lia].
  - apply (Forall2_split ascii_same_letter ascii_same_letter_isspace _ _ H).
    constructor.
Qed.

(** Two ASCII texts that differ only by letter case or white space have
    normalized contents that differ only by letter case. *)
Lemma normalized_same_words (U : UnicodeData) (a b : str) :
  ascii_exact U -> is_ascii a -> is_ascii b -> same_words a b ->
  Forall2 ascii_same_letter
    (Text._normalize_content U (strip a)) (Text._normalize_content U (strip b)).
Proof.
  intros HU Ha Hb Hab.
  pose proof (squeezed_ascii a Ha) as HA. pose proof (squeezed_ascii b Hb) as HB.
  unfold Text._normalize_content. rewrite !strip_idempotent.
  rewrite (nfc_ascii U HU _ HA), (nfc_ascii U HU _ HB).
  apply Forall2_filter.
  - intros x y Hxy. apply (ascii_same_letter_kept U x y HU Hxy).
  - apply (Forall2_and same_letter); [apply same_words_squeezed, Hab | exact HA | exact HB].
Qed.

(** [TextHash._normalize_text] forgets the case of ASCII letters. *)
Lemma normalize_text_same_letters (U : UnicodeData) (x y : str) :
  ascii_exact U -> Forall2 ascii_same_letter x y ->
  TextHash._normalize_text U x = TextHash._normalize_text U y.
Proof.
  intros HU H. apply ascii_same_squeezed in H.
  destruct (Forall2_sides _ _ _ _ _ H) as [S1 S2].
  unfold TextHash._normalize_text.
  rewrite (lower_ascii U HU _ S1), (lower_ascii U HU _ S2).
  f_equal. apply map_lower_same.
  apply (Forall2_weaken ascii_same_letter); [| exact H].
  intros c d [Hcd _]. exact Hcd.
Qed.

(** [TextHash.from_text] reads its argument through [_normalize_text]. *)
Lemma from_text_same (U : UnicodeData) (x y : str) :
  length x = length y ->
  TextHash._normalize_text U x = TextHash._normalize_text U y ->
  TextHash.from_text U x = TextHash.from_text U y.
Proof.
  intros Hlen H. unfold TextHash.from_text.
  destruct x as [| c x]; destruct y as [| d y]; try discriminate; [reflexivity |].
  rewrite H. reflexivity.
Qed.

Lemma normalized_same_split (U : UnicodeData) (a b : str) :
  split a = split b ->
  Text._normalize_content U (strip a) = Text._normalize_content U (strip b).
Proof.
  intros H. unfold Text._normalize_content.
  rewrite !strip_idempotent, !squeeze_join_split, H. reflexivity.
Qed.

Lemma text_eq_iff (a b : Text.t) :
  Text.__eq__ a b = true
  <-> TextHash.value (Text.text_hash a) = TextHash.value (Text.text_hash b).
Proof. unfold Text.__eq__, TextHash.__eq__. apply str_eqb_eq. Qed.

Lemma same_fingerprint (a b : Text.t) :
  Text.text_hash a = Text.text_hash b ->
  Text.__eq__ a b = true
  /\ forall hash : str -> Z, Text.__hash__ hash a = Text.__hash__ hash b.
Proof.
  intros H. split; [apply text_eq_iff; rewrite H; reflexivity |].
  intros hash. unfold Text.__hash__. rewrite H. reflexivity.
Qed.

(** C10, as amended: two [Text] entities are equal exactly when their
    fingerprints are the same string; two texts made by [Text.create] from
    contents that split into the same words are equal and have the same
    hash, whatever their keywords, languages and source URLs, and so are
    two texts made from ASCII contents that split into the same words up
    to letter case.  Outside ASCII the case of a letter can tell two texts
    apart. *)
Theorem text_equality_by_fingerprint :
  (forall a b : Text.t,
      Text.__eq__ a b = true
      <-> TextHash.value (Text.text_hash a) = TextHash.value (Text.text_hash b))
  /\ (forall (U : UnicodeData) now now' ca cb url url' lang lang' kw kw' a b,
      split ca = split cb ->
      Text.create U now ca url lang kw = Ok a ->
      Text.create U now' cb url' lang' kw' = Ok b ->
      Text.__eq__ a b = true
      /\ forall hash : str -> Z, Text.__hash__ hash a = Text.__hash__ hash b)
  /\ (forall (U : UnicodeData) now now' ca cb url url' lang lang' kw kw' a b,
      ascii_exact U -> is_ascii ca -> is_ascii cb -> same_words ca cb ->
      Text.create U now ca url lang kw = Ok a ->
      Text.create U now' cb url' lang' kw' = Ok b ->
      Text.__eq__ a b = true
      /\ forall hash : str -> Z, Text.__hash__ hash a = Text.__hash__ hash b).
Proof.
  split; [apply text_eq_iff |]. split.
  - intros U now now' ca cb url url' lang lang' kw kw' a b Hs Ha Hb.
    apply text_create_from_text in Ha, Hb.
    rewrite (normalized_same_split U ca cb Hs), Hb in Ha.
    injection Ha as Ha. apply same_fingerprint. symmetry. exact Ha.
  - intros U now now' ca cb url url' lang lang' kw kw' a b HU Aa Ab Hw Ha Hb.
    apply text_create_from_text in Ha, Hb.
    pose proof (normalized_same_words U ca cb HU Aa Ab Hw) as Hn.
    rewrite (from_text_same U _ _ (List.Forall2_length Hn)
               (normalize_text_same_letters U _ _ HU Hn)), Hb in Ha.
    injection Ha as Ha. apply same_fingerprint. symmetry. exact Ha.
Qed.

Lemma text_equality_witness :
  exists b,
    Text.create basic_latin 0 (u "Hello World!!") None None None = Ok sample_text
    /\ Text.create basic_latin 5 (u "  hello   WORLD!!  ")
         (Some (u "http://example.org/a")) (Some (u "en")) (Some [u "News"]) = Ok b
    /\ Text.keywords b = [u "news"]
    /\ Text.language b = Some (u "en")
    /\ Text.__eq__ sample_text b = true.
Proof.
  eexists. split; [vm_compute; reflexivity |].
  split; [vm_compute; reflexivity |].
  split; [reflexivity |]. split; [reflexivity |].
  refine (proj1 (proj2 (proj2 text_equality_by_fingerprint) basic_latin 0%Z 5%Z
                   (u "Hello World!!") (u "  hello   WORLD!!  ")
                   None (Some (u "http://example.org/a")) None (Some (u "en"))
                   None (Some [u "News"]) sample_text _ basic_latin_exact
                   _ _ _ _ _)).
  - repeat constructor.
  - repeat constructor.
  - unfold same_words. vm_compute. repeat constructor.
  - vm_compute. reflexivity.
  - vm_compute. reflexivity.
Defined.

(** C10 as stated fails: two contents that differ by letter case only
    make two texts that are not equal.  [str.lower] turns the capital sigma
    at the end of a word into the final sigma U+03C2 and leaves the small
    sigma U+03C3 at the end of a word as it is. *)
Lemma text_equality_fails_on_final_sigma :
  odos_small = List.map greek_to_small odos_capitals
  /\ str_lower latin_greek odos_capitals
     = [0x3BF; 0x3B4; 0x3BF; 0x3C2; SP; 0x3BF; 0x3B4; 0x3BF; 0x3C2; SP;
        0x3BF; 0x3B4; 0x3BF; 0x3C2]
  /\ str_lower latin_greek odos_small = odos_small
  /\ exists a b,
       Text.create latin_greek 0 odos_capitals None None None = Ok a
       /\ Text.create latin_greek 0 odos_small None None None = Ok b
       /\ TextHash.value (Text.text_hash a)
          = u "d03a5ebffa6829f45864a1e7f526dd7408f662cf657ea1291f43e46fc18b392f"
       /\ TextHash.value (Text.text_hash b)
          = u "76b068d4a9a3f7838726bb8d71084d4b937471c77e0dd21c5361cf06b09ecc97"
       /\ Text.__eq__ a b = false.
Proof.
  split; [reflexivity |]. split; [vm_compute; reflexivity |].
  split; [vm_compute; reflexivity |].
  eexists. eexists.
  split; [vm_compute; reflexivity |]. split; [vm_compute; reflexivity |].
  split; [vm_compute; reflexivity |]. split; [vm_compute; reflexivity |].
  vm_compute. reflexivity.
Qed.

(** ** Keywords *)

Lemma str_eqb_refl (a : str) : str_eqb a a = true.
Proof. apply str_eqb_eq. reflexivity. Qed.

Lemma str_eqb_neq (a b : str) : str_eqb a b = false <-> a <> b.
Proof.
  rewrite <- str_eqb_eq. destruct (str_eqb a b); split; congruence.
Qed.

Lemma frequency_cons (w a : str) (toks : list str) :
  frequency w (a :: toks)
  = if str_eqb w a then S (frequency w toks) else frequency w toks.
Proof.
  unfold frequency. simpl. destruct (str_eqb w a); reflexivity.
Qed.

Lemma tokens_counted (U : UnicodeData) (words : list str) (d : list (str * nat)) :
  fold_left (TextProcessor.count_word U) words d
  = fold_left (fun acc w => TextProcessor.dict_incr w acc)
      (List.filter
         (fun w => (3 <=? length w)%nat && negb (TextProcessor.in_stop_words w))
         (List.map (TextProcessor.clean_word U) words))
      d.
Proof.
  revert d. induction words as [| word words IH]; intros d; [reflexivity |].
  cbn [fold_left List.map List.filter].
  unfold TextProcessor.count_word at 2.
  destruct ((3 <=? length (TextProcessor.clean_word U word))%nat
            && negb (TextProcessor.in_stop_words (TextProcessor.clean_word U word)));
    cbn [fold_left]; apply IH.
Qed.

Lemma dict_incr_present (w : str) (d : list (str * nat)) :
  In w (List.map fst d) -> List.NoDup (List.map fst d) ->
  List.map fst (TextProcessor.dict_incr w d) = List.map fst d
  /\ forall toks,
      List.map (fun kn => (fst kn, (snd kn + frequency (fst kn) toks)%nat))
        (TextProcessor.dict_incr w d)
      = List.map (fun kn => (fst kn, (snd kn + frequency (fst kn) (w :: toks))%nat)) d.
Proof.
  induction d as [| [k n] d IH]; simpl; [tauto |].
  intros Hin Hnd. inversion Hnd as [| ? ? Hk Hd]; subst.
  destruct (str_eqb k w) eqn:E.
  - apply str_eqb_eq in E. subst k. simpl. split; [reflexivity |].
    intros toks. rewrite frequency_cons, str_eqb_refl. f_equal; [f_equal; lia |].
    apply map_ext_in. intros [k' n'] Hk'. simpl.
    rewrite frequency_cons.
    destruct (str_eqb k' w) eqn:E'; [| reflexivity].
    apply str_eqb_eq in E'. subst k'. exfalso. apply Hk.
    apply in_map_iff. exists (w, n'). split; [reflexivity | exact Hk'].
  - apply str_eqb_neq in E.
    destruct Hin as [Hin | Hin]; [congruence |].
    destruct (IH Hin Hd) as [IH1 IH2]. simpl. split; [rewrite IH1; reflexivity |].
    intros toks. rewrite IH2, frequency_cons.
    destruct (str_eqb k w) eqn:E'; [apply str_eqb_eq in E'; congruence |].
    reflexivity.
Qed.

Lemma dict_incr_absent (w : str) (d : list (str * nat)) :
  ~ In w (List.map fst d) -> TextProcessor.dict_incr w d = d ++ [(w, 1%nat)].
Proof.
  induction d as [| [k n] d IH]; simpl; [reflexivity |].
  intros H. destruct (str_eqb k w) eqn:E.
  - apply str_eqb_eq in E. tauto.
  - rewrite IH by tauto. reflexivity.
Qed.

Lemma fromkeys_seen_ext (s s' l : list str) :
  (forall x, In x s <-> In x s') -> fromkeys_from s l = fromkeys_from s' l.
Proof.
  revert s s'. induction l as [| a l IH]; intros s s' H; simpl; [reflexivity |].
  assert (E : existsb (str_eqb a) s = existsb (str_eqb a) s').
  { destruct (existsb (str_eqb a) s') eqn:E'.
    - apply existsb_str_eqb. apply H. apply existsb_str_eqb. exact E'.
    - apply existsb_str_eqb_false. rewrite H. apply existsb_str_eqb_false. exact E'. }
  rewrite E. destruct (existsb (str_eqb a) s').
  - apply IH, H.
  - f_equal. apply IH. intros x. simpl. rewrite H. reflexivity.
Qed.

(** The dictionary of counts after the loop: the counts it had, raised by
    the new occurrences, then the new words in the order in which they are
    seen first, each with its number of occurrences. *)
Lemma counting_loop (toks : list str) (d : list (str * nat)) :
  List.NoDup (List.map fst d) ->
  fold_left (fun acc w => TextProcessor.dict_incr w acc) toks d
  = List.map (fun kn => (fst kn, (snd kn + frequency (fst kn) toks)%nat)) d
    ++ List.map (fun k => (k, frequency k toks))
         (fromkeys_from (List.map fst d) toks).
Proof.
  revert d. induction toks as [| w toks IH]; intros d Hnd.
  - simpl. rewrite app_nil_r. symmetry.
    rewrite <- (map_id d) at 2. apply map_ext. intros [k n]. simpl.
    f_equal. unfold frequency. simpl. lia.
  - simpl fold_left. simpl fromkeys_from.
    destruct (existsb (str_eqb w) (List.map fst d)) eqn:E.
    + apply existsb_str_eqb in E.
      destruct (dict_incr_present w d E Hnd) as [Hk Hv].
      rewrite IH by (rewrite Hk; exact Hnd).
      rewrite Hk, Hv. f_equal.
      apply map_ext_in. intros k Hin. apply fromkeys_in in Hin.
      rewrite frequency_cons.
      destruct (str_eqb k w) eqn:E'; [| reflexivity].
      apply str_eqb_eq in E'. subst k. tauto.
    + apply existsb_str_eqb_false in E.
      rewrite (dict_incr_absent w d E).
      rewrite IH.
      2:{ rewrite map_app. simpl. apply List.NoDup_app.
          - exact Hnd.
          - constructor; [intros [] | constructor].
          - intros x Hx [<- | []]. tauto. }
      rewrite !map_app. simpl. rewrite <- app_assoc. simpl.
      f_equal.
      * apply map_ext_in. intros [k n] Hin. simpl. rewrite frequency_cons.
        destruct (str_eqb k w) eqn:E'; [| reflexivity].
        apply str_eqb_eq in E'. subst k. exfalso. apply E.
        apply in_map_iff. exists (w, n). split; [reflexivity | exact Hin].
      * rewrite frequency_cons, str_eqb_refl. f_equal.
        rewrite (fromkeys_seen_ext (List.map fst d ++ [w]) (w :: List.map fst d)).
        2:{ intros x. rewrite in_app_iff. simpl. tauto. }
        apply map_ext_in. intros k Hin. apply fromkeys_in in Hin.
        rewrite frequency_cons.
        destruct (str_eqb k w) eqn:E'; [| reflexivity].
        apply str_eqb_eq in E'. subst k. simpl in Hin. tauto.
Qed.

Lemma word_freq_closed_form (toks : list str) :
  fold_left (fun acc w => TextProcessor.dict_incr w acc) toks []
  = List.map (fun k => (k, frequency k toks)) (dict_fromkeys toks).
Proof.
  rewrite counting_loop by constructor. reflexivity.
Qed.

Lemma insert_desc_perm (x : str * nat) (l : list (str * nat)) :
  Permutation (x :: l) (TextProcessor.insert_desc x l).
Proof.
  induction l as [| y t IH]; simpl; [apply Permutation_refl |].
  destruct (snd x <? snd y)%nat; [| apply Permutation_refl].
  apply perm_trans with (y :: x :: t); [apply perm_swap |].
  apply perm_skip, IH.
Qed.

Lemma sorted_desc_perm (l : list (str * nat)) :
  Permutation l (TextProcessor.sorted_desc l).
Proof.
  induction l as [| x l IH]; simpl; [apply perm_nil |].
  apply perm_trans with (x :: TextProcessor.sorted_desc l);
    [apply perm_skip, IH | apply insert_desc_perm].
Qed.

Lemma sorted_before_cons (a : str * nat) (d : list (str * nat)) (x y : str * nat) :
  sorted_before d x y -> sorted_before (a :: d) x y.
Proof.
  intros [H | [H (l1 & l2 & l3 & ->)]]; [left; exact H |].
  right. split; [exact H |]. exists (a :: l1), l2, l3. reflexivity.
Qed.

Lemma strongly_sorted_weaken {A : Type} (R R' : A -> A -> Prop) (l : list A) :
  (forall x y, R x y -> R' x y) -> StronglySorted R l -> StronglySorted R' l.
Proof.
  intros HR H. induction H as [| a l Hl IH Ha]; constructor; [exact IH |].
  eapply List.Forall_impl; [| exact Ha]. intros y. apply HR.
Qed.

Lemma insert_desc_sorted (a : str * nat) (d s : list (str * nat)) :
  (forall z, In z s -> In z d) ->
  StronglySorted (sorted_before (a :: d)) s ->
  StronglySorted (sorted_before (a :: d)) (TextProcessor.insert_desc a s).
Proof.
  intros Hin Hs. induction Hs as [| y t Ht IH Hy]; simpl.
  - constructor; constructor.
  - destruct (Nat.ltb_spec (snd a) (snd y)) as [Hlt | Hge].
    + constructor.
      * apply IH. intros z Hz. apply Hin. right. exact Hz.
      * apply List.Forall_forall. intros z Hz.
        apply (Permutation_in _ (Permutation_sym (insert_desc_perm a t))) in Hz.
        destruct Hz as [<- | Hz]; [left; exact Hlt |].
        rewrite List.Forall_forall in Hy. apply Hy, Hz.
    + constructor; [constructor; assumption |].
      assert (Hafter : forall z, In z (y :: t) -> (snd z <= snd a)%nat).
      { intros z [<- | Hz]; [exact Hge |].
        rewrite List.Forall_forall in Hy. destruct (Hy z Hz) as [H | [H _]]; lia. }
      apply List.Forall_forall. intros z Hz.
      destruct (Nat.eq_dec (snd a) (snd z)) as [E | Hne].
      * right. split; [exact E |].
        destruct (in_split _ _ (Hin z Hz)) as (l1 & l2 & ->).
        exists [], l1, l2. reflexivity.
      * left. specialize (Hafter z Hz). lia.
Qed.

(** The sort puts the larger count first and keeps the order of the
    dictionary among equal counts. *)
Lemma sorted_desc_sorted (d : list (str * nat)) :
  StronglySorted (sorted_before d) (TextProcessor.sorted_desc d).
Proof.
  induction d as [| a d IH]; simpl; [constructor |].
  apply insert_desc_sorted.
  - intros z Hz. apply (Permutation_in _ (Permutation_sym (sorted_desc_perm d))), Hz.
  - apply (strongly_sorted_weaken (sorted_before d)); [| exact IH].
    intros x y. apply sorted_before_cons.
Qed.

Lemma strongly_sorted_stands {A : Type} (R : A -> A -> Prop) (l : list A) (x y : A) :
  StronglySorted R l -> stands_before x y l -> R x y.
Proof.
  intros Hs (l1 & l2 & l3 & ->).
  induction l1 as [| a l1 IH]; simpl in Hs; inversion Hs as [| ? ? Ht Ha]; subst.
  - rewrite List.Forall_forall in Ha. apply Ha.
    apply in_or_app. right. left. reflexivity.
  - apply IH, Ht.
Qed.

Lemma stands_before_map {A B : Type} (f : A -> B) (l : list A) (x' y' : B) :
  stands_before x' y' (List.map f l) ->
  exists x y, f x = x' /\ f y = y' /\ stands_before x y l.
Proof.
  intros (l1 & l2 & l3 & H).
  apply map_eq_app in H. destruct H as (m1 & r1 & -> & <- & H).
  destruct r1 as [| x r1]; [discriminate |]. simpl in H. injection H as <- H.
  apply map_eq_app in H. destruct H as (m2 & r2 & -> & <- & H).
  destruct r2 as [| y r2]; [discriminate |]. simpl in H. injection H as <- H.
  exists x, y. split; [reflexivity |]. split; [reflexivity |].
  exists m1, m2, r2. reflexivity.
Qed.

Lemma stands_before_map_intro {A B : Type} (f : A -> B) (l : list A) (x y : A) :
  stands_before x y l -> stands_before (f x) (f y) (List.map f l).
Proof.
  intros (l1 & l2 & l3 & ->).
  exists (List.map f l1), (List.map f l2), (List.map f l3).
  rewrite map_app. simpl. rewrite map_app. reflexivity.
Qed.

Lemma slice_to_prefix {A : Type} (k : Z) (l : list A) :
  exists n, slice_to k l = firstn n l.
Proof.
  unfold slice_to. destruct (0 <=? k)%Z; eexists; reflexivity.
Qed.

Lemma slice_to_length {A : Type} (k : Z) (l : list A) :
  (0 <= k)%Z -> (Z.of_nat (length (slice_to k l)) <= k)%Z.
Proof.
  intros H. unfold slice_to.
  destruct (Z.leb_spec 0 k) as [_ | Hneg]; [| lia].
  rewrite length_firstn. lia.
Qed.

Lemma filter_all {A : Type} (P : A -> bool) (l : list A) :
  Forall (fun x => P x = true) (List.filter P l).
Proof.
  apply List.Forall_forall. intros x Hx. apply filter_In in Hx. tauto.
Qed.

(** What [extract_keywords_basic] returns: the first occurrences of the
    tokens with their frequencies, sorted, cut and stripped of the
    frequencies. *)
Lemma extract_keywords_closed_form (U : UnicodeData) (text : str) (k : Z) :
  text <> [] ->
  TextProcessor.extract_keywords_basic U text k
  = List.map fst
      (slice_to k
         (TextProcessor.sorted_desc
            (List.map (fun w => (w, frequency w (keyword_tokens U text)))
               (dict_fromkeys (keyword_tokens U text))))).
Proof.
  intros Hne. unfold TextProcessor.extract_keywords_basic.
  destruct text as [| c0 r0]; [congruence |].
  rewrite tokens_counted, word_freq_closed_form. reflexivity.
Qed.

(** C9: of a text that is not empty, [extract_keywords_basic] returns at
    most [max_keywords] words, when that bound is not negative; each is a
    token of the text stripped of its non-word characters, has three
    characters or more and is no stop word; no word comes twice; a word
    that stands in front of another is more frequent, or as frequent and
    seen first in the text; and no token is left out short of the bound. *)
Theorem extract_keywords_basic_spec (U : UnicodeData) (text : str)
    (max_keywords : Z) :
  text <> [] ->
  ((0 <= max_keywords)%Z ->
   (Z.of_nat (length (TextProcessor.extract_keywords_basic U text max_keywords))
    <= max_keywords)%Z
   /\ forall w, In w (keyword_tokens U text) ->
        In w (TextProcessor.extract_keywords_basic U text max_keywords)
        \/ Z.of_nat (length (TextProcessor.extract_keywords_basic U text max_keywords))
           = max_keywords)
  /\ List.NoDup (TextProcessor.extract_keywords_basic U text max_keywords)
  /\ (forall w, In w (TextProcessor.extract_keywords_basic U text max_keywords) ->
      In w (keyword_tokens U text)
      /\ Forall (fun c => TextProcessor.is_word U c = true) w
      /\ (3 <= length w)%nat
      /\ TextProcessor.in_stop_words w = false)
  /\ (forall x y,
      stands_before x y (TextProcessor.extract_keywords_basic U text max_keywords) ->
      (frequency y (keyword_tokens U text) < frequency x (keyword_tokens U text))%nat
      \/ (frequency x (keyword_tokens U text) = frequency y (keyword_tokens U text)
          /\ first_seen_before x y (keyword_tokens U text))).
Proof.
  intros Hne. rewrite (extract_keywords_closed_form U text max_keywords Hne).
  set (toks := keyword_tokens U text).
  set (d := List.map (fun w => (w, frequency w toks)) (dict_fromkeys toks)).
  set (S := TextProcessor.sorted_desc d).
  assert (Hkeys : List.map fst d = dict_fromkeys toks).
  { unfold d. rewrite List.map_map. simpl. apply map_id. }
  assert (HinS : forall p, In p S <-> In p d).
  { intros p. split; intros H.
    - apply (Permutation_in _ (Permutation_sym (sorted_desc_perm d))), H.
    - apply (Permutation_in _ (sorted_desc_perm d)), H. }
  assert (Hd : forall p, In p d -> In (fst p) toks /\ snd p = frequency (fst p) toks).
  { intros p Hp. unfold d in Hp. apply in_map_iff in Hp.
    destruct Hp as (w & <- & Hw). simpl.
    apply fromkeys_in in Hw. tauto. }
  destruct (slice_to_prefix max_keywords S) as (n & Hn).
  repeat apply conj.
  - intros Hk. split.
    + rewrite length_map. apply slice_to_length, Hk.
    + intros w Hw. rewrite length_map.
      assert (HwS : In (w, frequency w toks) S).
      { apply HinS. unfold d. apply in_map_iff. exists w. split; [reflexivity |].
        apply fromkeys_in. split; [exact Hw | intros []]. }
      unfold slice_to. destruct (Z.leb_spec 0 max_keywords) as [_ | Hneg]; [| lia].
      destruct (firstn_in_or_full (Z.to_nat max_keywords) S _ HwS) as [H | H].
      * left. apply in_map_iff. exists (w, frequency w toks).
        split; [reflexivity | exact H].
      * right. rewrite H. lia.
  - rewrite Hn, <- firstn_map. apply firstn_nodup.
    apply (Permutation_NoDup (Permutation_map fst (sorted_desc_perm d))).
    rewrite Hkeys. apply fromkeys_nodup.
  - intros w Hw. rewrite Hn in Hw. apply in_map_iff in Hw.
    destruct Hw as (p & <- & Hp). apply firstn_in, HinS, Hd in Hp.
    destruct Hp as [Hp _]. split; [exact Hp |].
    unfold toks, keyword_tokens in Hp. apply filter_In in Hp.
    destruct Hp as [Hp Hc]. apply andb_true_iff in Hc. destruct Hc as [H3 Hs].
    apply in_map_iff in Hp. destruct Hp as (word & Hword & _).
    split; [rewrite <- Hword; apply filter_all |].
    split; [apply Nat.leb_le, H3 |].
    apply negb_true_iff, Hs.
  - intros x y Hxy. rewrite Hn in Hxy.
    apply stands_before_map in Hxy. destruct Hxy as (px & py & <- & <- & Hxy).
    assert (Hpx : In px d).
    { apply HinS, (firstn_in n). destruct Hxy as (l1 & l2 & l3 & ->).
      apply in_or_app. right. left. reflexivity. }
    assert (Hpy : In py d).
    { apply HinS, (firstn_in n). destruct Hxy as (l1 & l2 & l3 & ->).
      apply in_or_app. right. right. apply in_or_app. right. left. reflexivity. }
    apply firstn_stands_before in Hxy.
    apply (strongly_sorted_stands _ _ _ _ (sorted_desc_sorted d)) in Hxy.
    destruct (Hd px Hpx) as [_ Ex]. destruct (Hd py Hpy) as [_ Ey].
    rewrite <- Ex, <- Ey.
    destruct Hxy as [H | [H Hb]]; [left; exact H |].
    right. split; [exact H |].
    apply (stands_before_map_intro fst) in Hb. rewrite Hkeys in Hb.
    apply fromkeys_order in Hb. exact Hb.
Qed.

Lemma extract_keywords_basic_witness :
  TextProcessor.extract_keywords_basic basic_latin
    (u "The cat and the dog saw the cat. A dog!") 2 = [u "cat"; u "dog"]
  /\ keyword_tokens basic_latin (u "The cat and the dog saw the cat. A dog!")
     = [u "cat"; u "dog"; u "saw"; u "cat"; u "dog"]
  /\ (Z.of_nat (length (TextProcessor.extract_keywords_basic basic_latin
                          (u "The cat and the dog saw the cat. A dog!") 2)) <= 2)%Z.
Proof.
  split; [vm_compute; reflexivity |].
  split; [vm_compute; reflexivity |].
  refine (proj1 (proj1 (extract_keywords_basic_spec basic_latin
                          (u "The cat and the dog saw the cat. A dog!") 2 _) _)).
  - discriminate.
  - lia.
Defined.

Example keywords_ties_in_text_order :
  TextProcessor.extract_keywords_basic basic_latin
    (u "Zeta alpha, zeta alpha: beta (of the gamma) beta zeta!") 20
  = [u "zeta"; u "alpha"; u "beta"; u "gamma"].
Proof. vm_compute. reflexivity. Qed.

(** ** Percentages *)

Local Open Scope Q_scope.

Lemma new_inv (v : Q) (c : ConfidenceScore.t) :
  ConfidenceScore.new v = Ok c ->
  0 <= v /\ v <= 1 /\ c = ConfidenceScore.Build (ConfidenceScore.round v 4).
Proof.
  unfold ConfidenceScore.new, ConfidenceScore.validate_range.
  destruct (Qle_bool 0 v) eqn:E0; [| discriminate].
  destruct (Qle_bool v 1) eqn:E1; [| discriminate].
  simpl. intros H. injection H as <-.
  apply Qle_bool_iff in E0, E1. auto.
Qed.

(** The float quotient of a percentage by 100. *)
Lemma hundredth_near (p : Q) :
  0 <= p -> p <= 100 ->
  0 <= ConfidenceScore.binary64 (ConfidenceScore.binary64 p / 100)
  /\ ConfidenceScore.binary64 (ConfidenceScore.binary64 p / 100) <= 1
  /\ p * 100 - (1 # 4)
     <= ConfidenceScore.binary64 (ConfidenceScore.binary64 p / 100) * 10000
  /\ ConfidenceScore.binary64 (ConfidenceScore.binary64 p / 100) * 10000
     <= p * 100 + (1 # 4).
Proof.
  intros H0 H1.
  assert (Hb : Qabs p <= 128) by (apply Qabs_Qle_condition; split; lra).
  pose proof (binary64_ge p 0 Hb H0) as L0.
  pose proof (binary64_le p 100 Hb H1) as L1.
  change (inject_Z 0) with 0 in L0. change (inject_Z 100) with 100 in L1.
  destruct (binary64_near p Hb) as [Nlo Nhi].
  set (d := ConfidenceScore.binary64 p) in *.
  assert (Hd : d / 100 == d * (1 # 100)) by field.
  set (z := d / 100) in *.
  assert (Hz : Qabs z <= 128).
  { apply Qabs_Qle_condition. split; lra. }
  assert (Z0 : inject_Z 0 <= z) by (change (inject_Z 0) with 0; lra).
  assert (Z1 : z <= inject_Z 1) by (change (inject_Z 1) with 1; lra).
  pose proof (binary64_ge _ 0 Hz Z0) as M0.
  pose proof (binary64_le _ 1 Hz Z1) as M1.
  change (inject_Z 0) with 0 in M0. change (inject_Z 1) with 1 in M1.
  destruct (binary64_near _ Hz) as [Mlo Mhi].
  repeat split; try assumption; lra.
Qed.

Lemma round4_close (x : Q) (m : Z) :
  Qabs x <= 128 ->
  inject_Z m - (1 # 4) <= x * 10000 -> x * 10000 <= inject_Z m + (1 # 4) ->
  ConfidenceScore.round x 4 == inject_Z m / 10000.
Proof.
  intros Hb Hlo Hhi. unfold ConfidenceScore.round.
  change (inject_Z (10 ^ Z.of_nat 4)) with 10000.
  destruct (binary64_near x Hb) as [Nlo Nhi].
  rewrite (round_half_even_nearest _ m); [reflexivity | lra | lra].
Qed.

Lemma from_percentage_in_range (p : Q) :
  0 <= p -> p <= 100 ->
  ConfidenceScore.from_percentage p
  = Ok (ConfidenceScore.Build
          (ConfidenceScore.round
             (ConfidenceScore.binary64 (ConfidenceScore.binary64 p / 100)) 4)).
Proof.
  intros H0 H1. unfold ConfidenceScore.from_percentage.
  apply Qle_bool_iff in H0 as E0. apply Qle_bool_iff in H1 as E1.
  rewrite E0, E1. simpl.
  destruct (hundredth_near p H0 H1) as (L0 & L1 & _).
  apply new_in_range; assumption.
Qed.

(** X1: a score survives the trip through its percentage.  The percentage
    of a constructed score lies between 0 and 100, [from_percentage]
    accepts it and gives back a score of the same value; a percentage that
    is a whole number of hundredths, [k / 100] with [0 <= k <= 10000], is
    given back as it is by [to_percentage] after [from_percentage]; and
    [from_percentage] raises its own [ValueError] below 0 and above 100. *)
Theorem percentage_round_trip :
  (forall (v : Q) (c : ConfidenceScore.t),
      ConfidenceScore.new v = Ok c ->
      0 <= ConfidenceScore.to_percentage c
      /\ ConfidenceScore.to_percentage c <= 100
      /\ exists c',
          ConfidenceScore.from_percentage (ConfidenceScore.to_percentage c) = Ok c'
          /\ ConfidenceScore.value c' == ConfidenceScore.value c)
  /\ (forall k : Z, (0 <= k <= 10000)%Z ->
      exists c,
        ConfidenceScore.from_percentage (inject_Z k / 100) = Ok c
        /\ ConfidenceScore.to_percentage c == inject_Z k / 100)
  /\ (forall p : Q, p < 0 \/ 100 < p ->
      ConfidenceScore.from_percentage p
      = Err (ValueError "Percentage must be between 0 and 100")).
Proof.
  split; [| split].
  - intros v c H. apply new_inv in H as (H0 & H1 & ->).
    unfold ConfidenceScore.to_percentage. cbn [ConfidenceScore.value].
    pose proof (round4_scaled v) as Hs.
    destruct (round4_digits v H0 H1) as [Hlo Hhi].
    destruct (round4_range v H0 H1) as [Rlo Rhi].
    set (m := ConfidenceScore.round_half_even (ConfidenceScore.binary64 v * 10000)) in *.
    assert (Hm : ConfidenceScore.round v 4 * 100 * 100 == inject_Z m) by lra.
    assert (Hb : Qabs (ConfidenceScore.round v 4 * 100) <= 128).
    { apply Qabs_Qle_condition. split; lra. }
    pose proof (round2_hundredths _ _ Hb Hm) as Hp.
    rewrite Zle_Qle in Hlo, Hhi.
    change (inject_Z 0) with 0 in Hlo. change (inject_Z 10000) with 10000 in Hhi.
    assert (Hp0 : 0 <= ConfidenceScore.round (ConfidenceScore.round v 4 * 100) 2).
    { rewrite Hp. apply Qle_shift_div_l; lra. }
    assert (Hp1 : ConfidenceScore.round (ConfidenceScore.round v 4 * 100) 2 <= 100).
    { rewrite Hp. apply Qle_shift_div_r; lra. }
    split; [exact Hp0 |]. split; [exact Hp1 |].
    eexists. split; [apply from_percentage_in_range; assumption |].
    cbn [ConfidenceScore.value].
    destruct (hundredth_near _ Hp0 Hp1) as (L0 & L1 & Llo & Lhi).
    assert (Hpm : ConfidenceScore.round (ConfidenceScore.round v 4 * 100) 2 * 100
                  == inject_Z m) by (rewrite Hp; field).
    rewrite round4_close with (m := m).
    + apply Qmult_inj_r with (z := 10000); [lra |]. rewrite Hs. field.
    + apply unit_magnitude; assumption.
    + lra.
    + lra.
  - intros k [Hlo Hhi].
    rewrite Zle_Qle in Hlo, Hhi.
    change (inject_Z 0) with 0 in Hlo. change (inject_Z 10000) with 10000 in Hhi.
    assert (Hk : inject_Z k / 100 == inject_Z k * (1 # 100)) by field.
    set (q := inject_Z k / 100) in *.
    assert (K0 : 0 <= q) by lra.
    assert (K1 : q <= 100) by lra.
    destruct (hundredth_near q K0 K1) as (L0 & L1 & Llo & Lhi).
    set (y := ConfidenceScore.binary64 (ConfidenceScore.binary64 q / 100)) in *.
    assert (Hr : ConfidenceScore.round y 4 == inject_Z k / 10000).
    { apply round4_close; [apply unit_magnitude; assumption | lra | lra]. }
    eexists. split; [apply from_percentage_in_range; assumption |].
    unfold ConfidenceScore.to_percentage. cbn [ConfidenceScore.value]. fold y.
    assert (Hr' : ConfidenceScore.round y 4 * 100 == inject_Z k * (1 # 100))
      by (rewrite Hr; field).
    assert (Hg : q == inject_Z k / 100) by reflexivity.
    rewrite Hg.
    apply round2_hundredths.
    * apply Qabs_Qle_condition. rewrite Hr'. split; lra.
    * rewrite Hr. field.
  - intros p H. unfold ConfidenceScore.from_percentage.
    destruct H as [H | H]; apply Qle_bool_false in H; rewrite H.
    + reflexivity.
    + rewrite andb_false_r. reflexivity.
Qed.

Lemma percentage_round_trip_witness :
  exists c,
    ConfidenceScore.from_percentage (inject_Z 8125 / 100) = Ok c
    /\ ConfidenceScore.to_percentage c == inject_Z 8125 / 100.
Proof.
  apply (proj1 (proj2 percentage_round_trip) 8125%Z). lia.
Defined.

(** ** Classifications *)

Lemma classification_new_inv (ct : ClassificationType.t) (c : ConfidenceScore.t)
    (r : option str) (v : list str) (k : Classification.t) :
  Classification.new ct c r v = Ok k ->
  match r with Some s => (length s <= 1000)%nat | None => True end
  /\ (length v <= 10)%nat
  /\ k = Classification.Build ct c (Classification.validate_reasoning r)
           (Classification.validate_evidence_sources v) ∅.
Proof.
  unfold Classification.new.
  destruct r as [s |].
  - destruct (length s <=? 1000)%nat eqn:E1; simpl; [| discriminate].
    destruct (length v <=? 10)%nat eqn:E2; simpl; [| discriminate].
    intros H. injection H as <-.
    apply Nat.leb_le in E1, E2. auto.
  - simpl.
    destruct (length v <=? 10)%nat eqn:E2; simpl; [| discriminate].
    intros H. injection H as <-.
    apply Nat.leb_le in E2. auto.
Qed.

Lemma classification_new_intro (ct : ClassificationType.t) (c : ConfidenceScore.t)
    (r : option str) (v : list str) :
  match r with Some s => (length s <= 1000)%nat | None => True end ->
  (length v <= 10)%nat ->
  Classification.new ct c r v
  = Ok (Classification.Build ct c (Classification.validate_reasoning r)
          (Classification.validate_evidence_sources v) ∅).
Proof.
  intros Hr Hv. unfold Classification.new.
  apply Nat.leb_le in Hv. rewrite Hv.
  destruct r as [s |]; simpl; [| reflexivity].
  apply Nat.leb_le in Hr. rewrite Hr. reflexivity.
Qed.

Ltac threshold_cases v :=
  destruct (Qle_bool 0.8 v) eqn:E8; destruct (Qle_bool 0.6 v) eqn:E6;
  destruct (Qle_bool 0.4 v) eqn:E4; destruct (Qle_bool 0.2 v) eqn:E2;
  repeat match goal with
         | H : Qle_bool _ _ = true |- _ => apply Qle_bool_iff in H
         | H : Qle_bool _ _ = false |- _ => apply Qle_bool_false in H
         end;
  try lra.

(** X2: the automatic classification agrees with the predicates of the
    score it is built from.  [Classification.from_confidence_auto] keeps the
    score and gives the type of [ClassificationType.from_confidence]; the
    classification is trustworthy exactly when the score is of high
    confidence at the default threshold 0.8, which is when its level is
    HIGH, and problematic exactly when the score is of low confidence at
    the default threshold 0.4; the level VERY_LOW is the type FAKE and the
    level MEDIUM is within INCONCLUSIVE. *)
Theorem auto_classification_agrees (c : ConfidenceScore.t) (r : option str)
    (e : option (list str)) (k : Classification.t) :
  Classification.from_confidence_auto c r e = Ok k ->
  Classification.confidence k = c
  /\ Classification.classification_type k = ClassificationType.from_confidence c
  /\ Classification.is_trustworthy k = ConfidenceScore.is_high_confidence c 0.8
  /\ Classification.is_problematic k = ConfidenceScore.is_low_confidence c 0.4
  /\ (ConfidenceScore.get_confidence_level c = "HIGH"%string
      <-> Classification.is_trustworthy k = true)
  /\ (ConfidenceScore.get_confidence_level c = "VERY_LOW"%string
      <-> Classification.classification_type k = ClassificationType.FAKE)
  /\ (ConfidenceScore.get_confidence_level c = "MEDIUM"%string
      -> Classification.classification_type k = ClassificationType.INCONCLUSIVE).
Proof.
  unfold Classification.from_confidence_auto.
  intros H. apply classification_new_inv in H as (_ & _ & ->).
  destruct c as [v].
  unfold Classification.is_trustworthy, Classification.is_problematic,
    ClassificationType.from_confidence, ConfidenceScore.is_high_confidence,
    ConfidenceScore.is_low_confidence, ConfidenceScore.get_confidence_level.
  cbn [Classification.confidence Classification.classification_type
       ConfidenceScore.value].
  split; [reflexivity |]. split; [reflexivity |].
  threshold_cases v;
    repeat split; try reflexivity; try discriminate; intros; discriminate.
Qed.

Lemma auto_classification_agrees_witness :
  exists k,
    Classification.from_confidence_auto (ConfidenceScore.Build 0.85) None None = Ok k
    /\ Classification.is_trustworthy k
       = ConfidenceScore.is_high_confidence (ConfidenceScore.Build 0.85) 0.8.
Proof.
  eexists. split; [reflexivity |].
  refine (proj1 (proj2 (proj2
    (auto_classification_agrees (ConfidenceScore.Build 0.85) None None _ _)))).
  reflexivity.
Defined.

(** X3: [ClassificationType.from_confidence] is monotone.  Of two scores
    the one of the higher value never gets the worse type, in the order
    FAKE, UNFOUNDED, INCONCLUSIVE, RELIABLE. *)
Theorem from_confidence_monotone (c1 c2 : ConfidenceScore.t) :
  ConfidenceScore.value c1 <= ConfidenceScore.value c2 ->
  (reliability_rank (ClassificationType.from_confidence c1)
   <= reliability_rank (ClassificationType.from_confidence c2))%nat.
Proof.
  destruct c1 as [v1], c2 as [v2]. cbn [ConfidenceScore.value]. intros H.
  unfold ClassificationType.from_confidence. cbn [ConfidenceScore.value].
  destruct (Qle_bool 0.8 v1) eqn:A8; destruct (Qle_bool 0.4 v1) eqn:A4;
  destruct (Qle_bool 0.2 v1) eqn:A2;
  destruct (Qle_bool 0.8 v2) eqn:B8; destruct (Qle_bool 0.4 v2) eqn:B4;
  destruct (Qle_bool 0.2 v2) eqn:B2;
  cbn [reliability_rank]; try lia;
  repeat match goal with
         | H : Qle_bool _ _ = true |- _ => apply Qle_bool_iff in H
         | H : Qle_bool _ _ = false |- _ => apply Qle_bool_false in H
         end;
  lra.
Qed.

Lemma from_confidence_monotone_witness :
  (reliability_rank (ClassificationType.from_confidence (ConfidenceScore.Build 0.3))
   <= reliability_rank (ClassificationType.from_confidence (ConfidenceScore.Build 0.7)))%nat.
Proof.
  apply from_confidence_monotone. cbn [ConfidenceScore.value]. unfold Qle. simpl. lia.
Defined.

Lemma strip_length (s : str) : (length (strip s) <= length s)%nat.
Proof.
  unfold strip.
  destruct (lstrip_suffix s) as (ws & Hs & _).
  destruct (rstrip_prefix (lstrip s)) as (ws' & Hs' & _).
  rewrite Hs at 2. rewrite Hs' at 2.
  rewrite !length_app. lia.
Qed.

Lemma nonempty_false (s : str) : nonempty s = false <-> s = [].
Proof. destruct s; simpl; split; congruence. Qed.

(** X4: the reasoning a [Classification] stores.  A classification is built
    exactly when the given reasoning has at most 1000 characters, white
    space at its ends included, and at most ten evidence sources are given;
    the reasoning it stores is never blank, has no white space at its ends,
    has at most 1000 characters and is the stripped form of the one given;
    it is [None] when none or a blank one was given. *)
Theorem classification_reasoning (ct : ClassificationType.t)
    (c : ConfidenceScore.t) (r : option str) (v : list str) :
  (is_ok (Classification.new ct c r v) = true
   <-> match r with Some s => (length s <= 1000)%nat | None => True end
       /\ (length v <= 10)%nat)
  /\ forall k, Classification.new ct c r v = Ok k ->
       (forall s, Classification.reasoning k = Some s ->
          s <> [] /\ strip s = s /\ (length s <= 1000)%nat
          /\ exists s0, r = Some s0 /\ s = strip s0)
       /\ (Classification.reasoning k = None
           <-> r = None \/ exists s0, r = Some s0 /\ strip s0 = []).
Proof.
  split.
  - split.
    + destruct (Classification.new ct c r v) as [k |] eqn:E; [| discriminate].
      intros _. apply classification_new_inv in E as (H1 & H2 & _). auto.
    + intros [H1 H2]. rewrite classification_new_intro by assumption. reflexivity.
  - intros k H. apply classification_new_inv in H as (H1 & H2 & ->).
    cbn [Classification.reasoning]. unfold Classification.validate_reasoning.
    destruct r as [s0 |].
    + destruct (nonempty (strip s0)) eqn:E.
      * apply nonempty_true in E. split.
        -- intros s Hs. injection Hs as <-.
           split; [exact E |]. split; [apply strip_idempotent |].
           split; [pose proof (strip_length s0); lia |].
           exists s0. auto.
        -- split; [discriminate |].
           intros [H | (s1 & H & Hb)]; [discriminate |].
           injection H as <-. contradiction.
      * apply nonempty_false in E. split; [discriminate |].
        split; [| reflexivity]. intros _. right. exists s0. auto.
    + split; [discriminate |]. split; auto.
Qed.

Lemma classification_reasoning_witness :
  is_ok (Classification.new ClassificationType.FAKE (ConfidenceScore.Build 0.1)
           (Some (u "  made up ")) []) = true.
Proof.
  apply (proj2 (proj1 (classification_reasoning ClassificationType.FAKE
                         (ConfidenceScore.Build 0.1) (Some (u "  made up ")) []))).
  split; [vm_compute; lia | simpl; lia].
Defined.

(** X5: [Classification.create_inconclusive], whatever the score, builds a
    classification of type INCONCLUSIVE with that score and no evidence
    source, neither trustworthy nor problematic, as soon as the reasoning
    has at most 1000 characters.  Without a reasoning, or with the empty
    one, it stores the default sentence; with a blank reasoning that is not
    empty it stores none; otherwise it stores the reasoning, stripped. *)
Theorem classification_create_inconclusive (c : ConfidenceScore.t)
    (r : option str) :
  match r with Some s => (length s <= 1000)%nat | None => True end ->
  exists k,
    Classification.create_inconclusive c r = Ok k
    /\ Classification.classification_type k = ClassificationType.INCONCLUSIVE
    /\ Classification.confidence k = c
    /\ Classification.evidence_sources k = []
    /\ Classification.is_trustworthy k = false
    /\ Classification.is_problematic k = false
    /\ (r = None \/ r = Some [] ->
        Classification.reasoning k
        = Some (u "Insufficient evidence to determine reliability"))
    /\ (forall s, r = Some s -> s <> [] -> strip s = [] ->
        Classification.reasoning k = None)
    /\ (forall s, r = Some s -> strip s <> [] ->
        Classification.reasoning k = Some (strip s)).
Proof.
  intros Hr. unfold Classification.create_inconclusive.
  eexists. split.
  - apply classification_new_intro; [| simpl; lia].
    destruct r as [[| a s] |]; [vm_compute; lia | exact Hr | vm_compute; lia].
  - cbn [Classification.classification_type Classification.confidence
         Classification.evidence_sources Classification.reasoning
         Classification.is_trustworthy Classification.is_problematic].
    repeat (split; [reflexivity |]).
    split; [| split].
    + intros [-> | ->]; vm_compute; reflexivity.
    + intros s -> Hs Hb. destruct s as [| a s]; [contradiction |].
      unfold Classification.validate_reasoning. rewrite Hb. reflexivity.
    + intros s -> Hb. destruct s as [| a s]; [contradiction |].
      unfold Classification.validate_reasoning.
      apply nonempty_true in Hb. rewrite Hb. reflexivity.
Qed.

Lemma classification_create_inconclusive_witness :
  exists k,
    Classification.create_inconclusive (ConfidenceScore.Build 0.95) (Some (u "  ")) = Ok k
    /\ Classification.classification_type k = ClassificationType.INCONCLUSIVE
    /\ Classification.reasoning k = None.
Proof.
  destruct (classification_create_inconclusive (ConfidenceScore.Build 0.95)
              (Some (u "  ")))
    as (k & H1 & H2 & _ & _ & _ & _ & _ & H8 & _).
  - vm_compute. lia.
  - exists k. split; [exact H1 |]. split; [exact H2 |].
    apply (H8 (u "  ")); [reflexivity | discriminate | reflexivity].
Defined.

(** ** Results of an analysis *)

Lemma analysis_result_new_inv (now : Z) (text : Text.t) (cl : Classification.t)
    (source : AnalysisSource.t) (time cost : Z) (expires : option Z)
    (v : list str) (similar : Z) (raw : option (gmap string py_value))
    (md : gmap string py_value) (r : AnalysisResult.t) :
  AnalysisResult.new now text cl source time cost expires v similar raw md = Ok r ->
  (0 <= time)%Z /\ (0 <= cost)%Z /\ (length v <= 10)%nat /\ (0 <= similar)%Z
  /\ r = AnalysisResult.Build text cl source time cost now expires
           (AnalysisResult.validate_fact_check_sources v) similar raw md.
Proof.
  unfold AnalysisResult.new, AnalysisResult.validate_processing_time,
    AnalysisResult.validate_cost.
  destruct (0 <=? time)%Z eqn:E1; simpl; [| discriminate].
  destruct (time <? 0)%Z eqn:E1'; simpl; [discriminate |].
  destruct (0 <=? cost)%Z eqn:E2; simpl; [| discriminate].
  destruct (cost <? 0)%Z eqn:E2'; simpl; [discriminate |].
  destruct (length v <=? 10)%nat eqn:E3; simpl; [| discriminate].
  destruct (0 <=? similar)%Z eqn:E4; simpl; [| discriminate].
  intros H. injection H as <-.
  apply Z.leb_le in E1, E2, E4. apply Nat.leb_le in E3. auto.
Qed.

Lemma analysis_result_new_intro (now : Z) (text : Text.t) (cl : Classification.t)
    (source : AnalysisSource.t) (time cost : Z) (expires : option Z)
    (v : list str) (similar : Z) (raw : option (gmap string py_value))
    (md : gmap string py_value) :
  (0 <= time)%Z -> (0 <= cost)%Z -> (length v <= 10)%nat -> (0 <= similar)%Z ->
  AnalysisResult.new now text cl source time cost expires v similar raw md
  = Ok (AnalysisResult.Build text cl source time cost now expires
          (AnalysisResult.validate_fact_check_sources v) similar raw md).
Proof.
  intros H1 H2 H3 H4.
  unfold AnalysisResult.new, AnalysisResult.validate_processing_time,
    AnalysisResult.validate_cost.
  assert (E1' : (time <? 0)%Z = false) by (apply Z.ltb_ge; exact H1).
  assert (E2' : (cost <? 0)%Z = false) by (apply Z.ltb_ge; exact H2).
  apply Z.leb_le in H1, H2, H4. apply Nat.leb_le in H3.
  rewrite H1, E1'. simpl. rewrite H2, E2'. simpl. rewrite H3, H4. reflexivity.
Qed.

(** X6: [AnalysisResult.create_inconclusive] builds a result exactly when
    the processing time is not negative and the reason has at most 1000
    characters.  The result is a HYBRID one of type INCONCLUSIVE and
    confidence 0.5 for the given text and time, costs nothing, has no
    expiry and no fact-check source, is neither cached nor of high
    confidence nor trustworthy, and its reasoning is the stripped reason, or
    the default sentence of [Classification.create_inconclusive] when the
    reason is empty. *)
Theorem analysis_create_inconclusive (now : Z) (text : Text.t) (time : Z)
    (reason : str) :
  (is_ok (AnalysisResult.create_inconclusive now text time reason) = true
   <-> (0 <= time)%Z /\ (length reason <= 1000)%nat)
  /\ forall r, AnalysisResult.create_inconclusive now text time reason = Ok r ->
       AnalysisResult.text r = text
       /\ AnalysisResult.source r = AnalysisSource.HYBRID
       /\ Classification.classification_type (AnalysisResult.classification r)
          = ClassificationType.INCONCLUSIVE
       /\ ConfidenceScore.value
            (Classification.confidence (AnalysisResult.classification r)) == 0.5
       /\ AnalysisResult.processing_time_ms r = time
       /\ AnalysisResult.cost_cents r = 0%Z
       /\ AnalysisResult.created_at r = now
       /\ AnalysisResult.expires_at r = None
       /\ AnalysisResult.fact_check_sources r = []
       /\ AnalysisResult.is_cached r = false
       /\ AnalysisResult.is_high_confidence r 0.8 = false
       /\ Classification.is_trustworthy (AnalysisResult.classification r) = false
       /\ (reason = [] ->
           Classification.reasoning (AnalysisResult.classification r)
           = Some (u "Insufficient evidence to determine reliability"))
       /\ (strip reason <> [] ->
           Classification.reasoning (AnalysisResult.classification r)
           = Some (strip reason)).
Proof.
  unfold AnalysisResult.create_inconclusive.
  assert (Hc : ConfidenceScore.new 0.5
               = Ok (ConfidenceScore.Build (ConfidenceScore.round 0.5 4))).
  { apply new_in_range; lra. }
  rewrite Hc. cbn [bind].
  set (c := ConfidenceScore.Build (ConfidenceScore.round 0.5 4)).
  destruct (Classification.create_inconclusive c (Some reason)) as [cl | e] eqn:Ecl.
  - cbn [bind].
    unfold Classification.create_inconclusive in Ecl.
    apply classification_new_inv in Ecl as (Hlen & _ & ->).
    assert (Hreason : (length reason <= 1000)%nat).
    { destruct reason; [simpl; lia | exact Hlen]. }
    split.
    + split.
      * destruct (AnalysisResult.new _ _ _ _ _ _ _ _ _ _ _) eqn:E; [| discriminate].
        intros _. apply analysis_result_new_inv in E as (H1 & _). auto.
      * intros [H1 _].
        rewrite analysis_result_new_intro; [reflexivity | lia | lia | simpl; lia | lia].
    + intros r Hr. apply analysis_result_new_inv in Hr as (_ & _ & _ & _ & ->).
      cbn [AnalysisResult.text AnalysisResult.source AnalysisResult.classification
           AnalysisResult.processing_time_ms AnalysisResult.cost_cents
           AnalysisResult.created_at AnalysisResult.expires_at
           AnalysisResult.fact_check_sources
           Classification.classification_type Classification.confidence
           Classification.reasoning].
      repeat (split; [reflexivity |]).
      split.
      * intros ->. vm_compute. reflexivity.
      * intros Hs. destruct reason as [| a s]; [contradiction |].
        unfold Classification.validate_reasoning.
        apply nonempty_true in Hs. rewrite Hs. reflexivity.
  - cbn [bind]. split.
    + split; [discriminate |]. intros [_ H2].
      unfold Classification.create_inconclusive in Ecl.
      rewrite classification_new_intro in Ecl; [discriminate | | simpl; lia].
      destruct reason; [vm_compute; lia | exact H2].
    + discriminate.
Qed.

Lemma analysis_create_inconclusive_witness :
  is_ok (AnalysisResult.create_inconclusive 0 sample_text 120 (u "timeout")) = true.
Proof.
  apply (proj1 (analysis_create_inconclusive 0 sample_text 120 (u "timeout"))).
  split; [lia | vm_compute; lia].
Defined.

(** X7: expiry.  A result without expiry date is never expired, and neither
    is a result that [create_from_cache] or [create_inconclusive] builds,
    at any time; a result is not yet expired at the instant of its expiry
    date; and a result that is expired stays expired at every later
    time. *)
Theorem expiry_is_monotone (r : AnalysisResult.t) :
  (AnalysisResult.expires_at r = None ->
   forall now, AnalysisResult.is_expired now r = false)
  /\ (forall now0 text cl src time reason,
        AnalysisResult.create_from_cache now0 text cl src time = Ok r
        \/ AnalysisResult.create_inconclusive now0 text time reason = Ok r ->
        forall now, AnalysisResult.is_expired now r = false)
  /\ (forall e, AnalysisResult.expires_at r = Some e ->
        AnalysisResult.is_expired e r = false)
  /\ (forall now now' : Z, (now <= now')%Z ->
        AnalysisResult.is_expired now r = true ->
        AnalysisResult.is_expired now' r = true).
Proof.
  unfold AnalysisResult.is_expired.
  split; [| split; [| split]].
  - intros -> now. reflexivity.
  - intros now0 text cl src time reason [H | H] now.
    + unfold AnalysisResult.create_from_cache in H.
      apply analysis_result_new_inv in H as (_ & _ & _ & _ & ->). reflexivity.
    + unfold AnalysisResult.create_inconclusive in H.
      destruct (ConfidenceScore.new 0.5) as [c |]; [| discriminate].
      cbn [bind] in H.
      destruct (Classification.create_inconclusive c (Some reason)) as [k |];
        [| discriminate].
      cbn [bind] in H.
      apply analysis_result_new_inv in H as (_ & _ & _ & _ & ->). reflexivity.
  - intros e ->. apply Z.ltb_irrefl.
  - intros now now' Hle. destruct (AnalysisResult.expires_at r) as [e |];
      [| discriminate].
    intros H. apply Z.ltb_lt in H. apply Z.ltb_lt. lia.
Qed.

Lemma expiry_is_monotone_witness :
  AnalysisResult.is_expired 20
    (AnalysisResult.Build sample_text sample_classification
       AnalysisSource.LLM 10 1 0 (Some 5%Z) [] 0 None ∅) = true.
Proof.
  apply (proj2 (proj2 (proj2 (expiry_is_monotone _))) 6%Z 20%Z); [lia | reflexivity].
Defined.

Lemma saturated_ratio_antitone (k : Q) (x y m : Z) :
  0 <= k -> (0 < m)%Z -> (x <= y)%Z ->
  Qmin 1.0 (k / inject_Z (Z.max y m)) <= Qmin 1.0 (k / inject_Z (Z.max x m)).
Proof.
  intros Hk Hm Hxy.
  assert (Hx : 0 < inject_Z (Z.max x m)).
  { change 0 with (inject_Z 0). rewrite <- Zlt_Qlt. lia. }
  assert (Hy : inject_Z (Z.max x m) <= inject_Z (Z.max y m)).
  { rewrite <- Zle_Qle. lia. }
  assert (Hdiv : k / inject_Z (Z.max y m) <= k / inject_Z (Z.max x m)).
  { apply Qle_shift_div_l; [lra |].
    assert (E : k / inject_Z (Z.max y m) * inject_Z (Z.max x m)
                == k * (inject_Z (Z.max x m) / inject_Z (Z.max y m))).
    { field. lra. }
    rewrite E.
    assert (H1 : inject_Z (Z.max x m) / inject_Z (Z.max y m) <= 1).
    { apply Qle_shift_div_r; lra. }
    assert (H2 : 0 <= inject_Z (Z.max x m) / inject_Z (Z.max y m)).
    { apply Qle_shift_div_l; lra. }
    nra. }
  apply Q.min_le_compat_l. exact Hdiv.
Qed.

(** X8: the performance score is monotone.  Of two results of the same
    source, the one of the higher confidence that took no more time and
    cost no more has the higher or the same score. *)
Theorem performance_score_monotone (r r' : AnalysisResult.t) :
  AnalysisResult.source r = AnalysisResult.source r' ->
  ConfidenceScore.value (Classification.confidence (AnalysisResult.classification r))
  <= ConfidenceScore.value
       (Classification.confidence (AnalysisResult.classification r')) ->
  (AnalysisResult.processing_time_ms r' <= AnalysisResult.processing_time_ms r)%Z ->
  (AnalysisResult.cost_cents r' <= AnalysisResult.cost_cents r)%Z ->
  AnalysisResult.get_performance_score r <= AnalysisResult.get_performance_score r'.
Proof.
  intros Hs Hc Ht Hk.
  unfold AnalysisResult.get_performance_score, ConfidenceScore.__float__.
  rewrite Hs.
  pose proof (saturated_ratio_antitone 5000 _ _ 100 ltac:(lra) ltac:(lia) Ht) as H1.
  pose proof (saturated_ratio_antitone 50 _ _ 1 ltac:(lra) ltac:(lia) Hk) as H2.
  lra.
Qed.

Lemma performance_score_monotone_witness :
  AnalysisResult.get_performance_score
    (AnalysisResult.Build sample_text sample_classification
       AnalysisSource.FACT_CHECK 9000 80 0 None [] 0 None ∅)
  <= AnalysisResult.get_performance_score sample_result.
Proof.
  apply performance_score_monotone.
  - reflexivity.
  - simpl. unfold Qle. simpl. lia.
  - simpl. lia.
  - simpl. lia.
Defined.

Local Close Scope Q_scope.

(** ** Fingerprints and texts as they are stored *)

Lemma texthash_new_hex (U : UnicodeData) (v : str) :
  ascii_exact U ->
  length (trim v) = 64%nat ->
  Forall (fun c => TextHash.hex_lower c = true) (trim v) ->
  TextHash.new U v = Ok (TextHash.Build (trim v)).
Proof.
  intros HU. unfold TextHash.new.
  generalize (trim v). intros d Hlen Hhex.
  assert (Hl : str_lower U d = d).
  { rewrite (lower_ascii U HU).
    - apply map_fixed. eapply List.Forall_impl; [| exact Hhex].
      intros c Hc. apply hex_lower_plain in Hc. tauto.
    - eapply List.Forall_impl; [| exact Hhex].
      intros c Hc. apply hex_lower_plain in Hc. tauto. }
  apply forallb_Forall in Hhex.
  unfold TextHash.validate_hash_format, TextHash.value_field,
    TextHash.match_hash_format.
  rewrite Hl, Hlen, Hhex. simpl.
  assert (Hf : firstn 64 d = d) by (apply firstn_all2; lia).
  assert (Hk : skipn 64 d = []) by (apply skipn_all2; lia).
  rewrite Hf, Hk, Hlen, Hhex. reflexivity.
Qed.

(** X9: the value of a [TextHash].  pydantic trims the given string first,
    as Rust's [trim] does: the characters with the Unicode property
    White_Space go from its two ends.  [TextHash(value=v)] is built exactly
    when the trimmed [v] is 64 characters of [[a-f0-9]], and stores the
    trimmed string.  A value with an upper-case letter is refused, although
    the validator of the field would have put it in lower case.  A value
    with one of the separators U+001C to U+001F is refused wherever the
    separator stands: [str.strip] would take it from an end, [trim] does
    not.  And the value of every hash that [from_text] returns is 64
    characters of [[a-f0-9]]. *)
Theorem texthash_value_format (U : UnicodeData) (v : str) :
  ascii_exact U ->
  (is_ok (TextHash.new U v) = true
   <-> length (trim v) = 64%nat /\ forallb TextHash.hex_lower (trim v) = true)
  /\ (forall h, TextHash.new U v = Ok h -> TextHash.value h = trim v)
  /\ (forall c, In c (trim v) -> ascii_upper c = true ->
      is_ok (TextHash.new U v) = false)
  /\ (forall c, In c v -> 28 <= c <= 31 ->
      is_ok (TextHash.new U v) = false)
  /\ (forall h, TextHash.from_text U v = Ok h ->
      length (TextHash.value h) = 64%nat
      /\ forallb TextHash.hex_lower (TextHash.value h) = true).
Proof.
  intros HU.
  assert (Hiff : is_ok (TextHash.new U v) = true
                 <-> length (trim v) = 64%nat
                     /\ forallb TextHash.hex_lower (trim v) = true).
  { split.
    - unfold TextHash.new, TextHash.value_field.
      destruct (length (trim v) =? 64)%nat eqn:E1; [| discriminate].
      destruct (forallb TextHash.hex_lower (trim v)) eqn:E2; [| discriminate].
      intros _. apply Nat.eqb_eq in E1. auto.
    - intros [H1 H2]. apply forallb_Forall in H2.
      rewrite (texthash_new_hex U v HU H1 H2). reflexivity. }
  split; [exact Hiff |]. split; [| split; [| split]].
  - intros h H.
    assert (Hok : is_ok (TextHash.new U v) = true) by (rewrite H; reflexivity).
    apply Hiff in Hok as [H1 H2]. apply forallb_Forall in H2.
    rewrite (texthash_new_hex U v HU H1 H2) in H. injection H as <-. reflexivity.
  - intros c Hin Hup.
    apply not_true_is_false. intros E.
    apply Hiff in E as [_ H2]. rewrite forallb_forall in H2.
    specialize (H2 c Hin). revert Hup H2.
    unfold ascii_upper, TextHash.hex_lower. char_cases.
  - intros c Hin Hc.
    apply not_true_is_false. intros E.
    apply Hiff in E as [_ H2]. rewrite forallb_forall in H2.
    assert (Hw : is_whitespace c = false).
    { revert Hc. unfold is_whitespace. char_cases. }
    specialize (H2 c (trim_keeps c v Hin Hw)). revert Hc H2.
    unfold TextHash.hex_lower. char_cases.
  - intros h H. apply (from_text_value U _ _ HU) in H as [_ H].
    apply sha256_hex_inv in H as (msg & _ & ->).
    destruct (hexdigest_format msg) as [H1 H2].
    split; [exact H1 | apply forallb_Forall; exact H2].
Qed.

Lemma texthash_value_format_witness :
  TextHash.new basic_latin (SP :: List.repeat 97 64 ++ [LF])
  = Ok (TextHash.Build (List.repeat 97 64))
  /\ is_ok (TextHash.new basic_latin (31 :: List.repeat 97 64)) = false.
Proof.
  split.
  - vm_compute. reflexivity.
  - apply (proj1 (proj2 (proj2 (proj2 (texthash_value_format basic_latin
             (31 :: List.repeat 97 64) basic_latin_exact)))) 31).
    + left. reflexivity.
    + lia.
Defined.

Lemma validate_content_length_inv (v s : str) :
  Text.validate_content_length v = Ok s ->
  s = strip v /\ (10 <= length (strip v) <= 2000)%nat.
Proof.
  unfold Text.validate_content_length.
  destruct (negb (nonempty v) || negb (nonempty (strip v))); [discriminate |].
  destruct (length (strip v) <? 10)%nat eqn:E1; [discriminate |].
  destruct (2000 <? length (strip v))%nat eqn:E2; [discriminate |].
  intros H. injection H as <-.
  apply Nat.ltb_ge in E1, E2. auto.
Qed.

Lemma text_new_inv (U : UnicodeData) (now : Z) (oc nc : str)
    (h : TextHash.t) (lang : option str) (wc cc : Z) (kw : list str)
    (url : option str) (t : Text.t) :
  Text.new U now oc nc h lang wc cc kw url = Ok t ->
  (10 <= length (strip oc) <= 2000)%nat
  /\ (1 <= wc)%Z /\ (10 <= cc <= 2000)%Z /\ (length kw <= 20)%nat
  /\ match url with Some s => (length s <= 500)%nat | None => True end
  /\ t = Text.Build (strip oc) nc h (Text.validate_language_code U lang) wc cc
           (Text.validate_keywords U kw) url now ∅.
Proof.
  unfold Text.new.
  destruct (negb _); [discriminate |].
  destruct (Text.validate_content_length oc) as [s |] eqn:Es; [| discriminate].
  apply validate_content_length_inv in Es as [-> Hlen].
  cbn [bind].
  destruct (negb _); [discriminate |].
  destruct (1 <=? wc)%Z eqn:E1; [| discriminate].
  destruct (10 <=? cc)%Z eqn:E2; [| discriminate].
  destruct (cc <=? 2000)%Z eqn:E3; [| discriminate].
  destruct (length kw <=? 20)%nat eqn:E4; [| discriminate].
  cbn [negb andb].
  apply Z.leb_le in E1, E2, E3. apply Nat.leb_le in E4.
  destruct url as [s |].
  - destruct (length s <=? 500)%nat eqn:E5; [| discriminate].
    cbn [negb]. intros H. injection H as <-.
    apply Nat.leb_le in E5. auto 10.
  - cbn [negb]. intros H. injection H as <-. auto 10.
Qed.

Lemma text_create_inv (U : UnicodeData) (now : Z) (content : str)
    (url lang : option str) (kw : option (list str)) (t : Text.t) :
  Text.create U now content url lang kw = Ok t ->
  (10 <= length (strip content) <= 2000)%nat
  /\ (1 <= Z.of_nat (length (split (Text._normalize_content U (strip content)))))%Z
  /\ TextHash.from_text U (Text._normalize_content U (strip content))
     = Ok (Text.text_hash t)
  /\ Text.original_content t = strip content
  /\ Text.normalized_content t = Text._normalize_content U (strip content)
  /\ Text.word_count t
     = Z.of_nat (length (split (Text._normalize_content U (strip content))))
  /\ Text.character_count t = Z.of_nat (length (strip content))
  /\ Text.keywords t = Text.validate_keywords U (Classification.or_empty kw)
  /\ Text.source_url t = url
  /\ Text.created_at t = now.
Proof.
  unfold Text.create.
  destruct (negb (nonempty content) || negb (nonempty (strip content)));
    [discriminate |].
  destruct (TextHash.from_text U _) as [h |] eqn:E; [| discriminate].
  cbn [bind]. intros H.
  apply text_new_inv in H as (H1 & H2 & _ & _ & _ & ->).
  rewrite strip_idempotent in H1 |- *.
  cbn [Text.original_content Text.normalized_content Text.word_count
       Text.character_count Text.keywords Text.source_url Text.created_at
       Text.text_hash].
  auto 15.
Qed.

(** X10: what a [Text] built by [Text.create] holds.  The original content
    is the given content without the white space at its ends and has
    between 10 and 2000 characters, the character count is its length, the
    normalised content is [_normalize_content] of it, the word count is the
    number of words of the normalised content and is at least 1, the hash
    is [TextHash.from_text] of the normalised content, and the creation
    time is the time of the call.  No [Text] is built from a content whose
    stripped form has fewer than 10 or more than 2000 characters. *)
Theorem text_create_invariants (U : UnicodeData) (now : Z) (content : str)
    (url lang : option str) (kw : option (list str)) :
  (forall t, Text.create U now content url lang kw = Ok t ->
     Text.original_content t = strip content
     /\ (10 <= length (Text.original_content t) <= 2000)%nat
     /\ Text.character_count t = Z.of_nat (length (Text.original_content t))
     /\ Text.normalized_content t = Text._normalize_content U (Text.original_content t)
     /\ Text.word_count t = Z.of_nat (length (split (Text.normalized_content t)))
     /\ (1 <= Text.word_count t)%Z
     /\ TextHash.from_text U (Text.normalized_content t) = Ok (Text.text_hash t)
     /\ Text.created_at t = now)
  /\ ((length (strip content) < 10)%nat \/ (2000 < length (strip content))%nat ->
      is_ok (Text.create U now content url lang kw) = false).
Proof.
  split.
  - intros t H.
    apply text_create_inv in H
      as (H1 & H2 & H3 & H4 & H5 & H6 & H7 & _ & _ & H10).
    rewrite H4, H5, H6, H7. auto 10.
  - intros Hlen.
    destruct (Text.create U now content url lang kw) as [t |] eqn:E; [| reflexivity].
    apply text_create_inv in E as (H1 & _). lia.
Qed.

Lemma text_create_invariants_witness :
  is_ok (Text.create basic_latin 0 (u "  too short ") None None None) = false.
Proof.
  apply (proj2 (text_create_invariants basic_latin 0 (u "  too short ")
                  None None None)).
  left. vm_compute. lia.
Defined.

(** X11: the length test of [TextProcessor] decides [Text.create] on plain
    text.  For a content of printable ASCII characters, tabs, line feeds
    and carriage returns, given without URL, language and keywords,
    [Text.create] builds a [Text] exactly when
    [TextProcessor.is_valid_length] accepts the content. *)
Theorem create_iff_valid_length (U : UnicodeData) (now : Z) (content : str) :
  ascii_exact U -> Forall plain content ->
  is_ok (Text.create U now content None None None)
  = TextProcessor.is_valid_length content.
Proof.
  intros HU Hp.
  unfold TextProcessor.is_valid_length, TextProcessor.MIN_TEXT_LENGTH,
    TextProcessor.MAX_TEXT_LENGTH.
  destruct content as [| c r]; [reflexivity |].
  destruct ((10 <=? length (strip (c :: r)))%nat
            && (length (strip (c :: r)) <=? 2000)%nat) eqn:E.
  - apply andb_true_iff in E as [E1 E2]. apply Nat.leb_le in E1, E2.
    destruct (text_create_plain U now (c :: r) HU Hp (conj E1 E2)) as [t ->].
    reflexivity.
  - destruct (Text.create U now (c :: r) None None None) as [t |] eqn:Ec;
      [| reflexivity].
    apply text_create_inv in Ec as ([H1 H2] & _).
    apply Nat.leb_le in H1, H2. rewrite H1, H2 in E. discriminate.
Qed.

Lemma create_iff_valid_length_witness :
  is_ok (Text.create basic_latin 0 (u "The sky is blue today.") None None None)
  = TextProcessor.is_valid_length (u "The sky is blue today.").
Proof.
  apply (create_iff_valid_length basic_latin 0 (u "The sky is blue today.")
           basic_latin_exact).
  repeat constructor; vm_compute; intuition discriminate.
Defined.

(** ** Keywords of a text *)

Lemma clean_keywords_fromkeys (U : UnicodeData) (seen v : list str) :
  Text.clean_keywords U seen v
  = fromkeys_from seen
      (List.filter (fun e => (2 <=? length e)%nat)
         (List.map (fun k => str_lower U (strip k)) v)).
Proof.
  revert seen. induction v as [| a v IH]; intros seen; simpl; [reflexivity |].
  destruct (str_lower U (strip a)) as [| c1 [| c2 e]] eqn:E; simpl.
  - apply IH.
  - apply IH.
  - destruct (existsb (str_eqb (c1 :: c2 :: e)) seen); simpl; rewrite IH; reflexivity.
Qed.

Lemma text_create_keywords (U : UnicodeData) (now : Z) (content : str)
    (url lang : option str) (kw : option (list str)) (t : Text.t) :
  Text.create U now content url lang kw = Ok t ->
  (length (Classification.or_empty kw) <= 20)%nat
  /\ Text.keywords t = Text.validate_keywords U (Classification.or_empty kw).
Proof.
  unfold Text.create.
  destruct (negb (nonempty content) || negb (nonempty (strip content)));
    [discriminate |].
  destruct (TextHash.from_text U _) as [h |] eqn:E; [| discriminate].
  cbn [bind]. intros H.
  apply text_new_inv in H as (_ & _ & _ & H4 & _ & ->).
  split; [exact H4 | reflexivity].
Qed.

(** X12: the keywords a [Text] stores.  [validate_keywords] returns at most
    twenty keywords, none twice, each one the stripped and lower-cased form
    of a given keyword and of two characters at least, in the order in
    which the given list shows them first, and leaves out nothing else
    short of the twentieth; a [Text] that [Text.create] builds was given at
    most twenty keywords and stores what [validate_keywords] returns. *)
Theorem keywords_hygiene (U : UnicodeData) (v : list str) :
  (length (Text.validate_keywords U v) <= 20)%nat
  /\ List.NoDup (Text.validate_keywords U v)
  /\ (forall e, In e (Text.validate_keywords U v) ->
        (2 <= length e)%nat
        /\ In e (List.map (fun k => str_lower U (strip k)) v))
  /\ (forall x y, stands_before x y (Text.validate_keywords U v) ->
        first_seen_before x y (List.map (fun k => str_lower U (strip k)) v))
  /\ (forall e, In e (List.map (fun k => str_lower U (strip k)) v) ->
        (2 <= length e)%nat ->
        In e (Text.validate_keywords U v)
        \/ length (Text.validate_keywords U v) = 20%nat)
  /\ (forall now content url lang t,
        Text.create U now content url lang (Some v) = Ok t ->
        (length v <= 20)%nat /\ Text.keywords t = Text.validate_keywords U v).
Proof.
  assert (E : Text.validate_keywords U v
              = firstn 20 (fromkeys_from []
                  (List.filter (fun e => (2 <=? length e)%nat)
                     (List.map (fun k => str_lower U (strip k)) v)))).
  { unfold Text.validate_keywords. destruct v as [| a v]; [reflexivity |].
    change 20%Z with (Z.of_nat 20).
    rewrite slice_to_firstn, clean_keywords_fromkeys. reflexivity. }
  rewrite E.
  set (clean := List.map (fun k => str_lower U (strip k)) v) in *.
  set (full := fromkeys_from [] (List.filter (fun e => (2 <=? length e)%nat) clean)) in *.
  assert (Hin : forall e, In e full <-> In e clean /\ (2 <= length e)%nat).
  { intros e. unfold full. rewrite fromkeys_in, filter_In, Nat.leb_le.
    simpl. tauto. }
  split; [rewrite length_firstn; lia |].
  split; [apply firstn_nodup, fromkeys_nodup |].
  split; [| split; [| split]].
  - intros e H. apply firstn_in, Hin in H. tauto.
  - intros x y H.
    assert (Hy : In y full).
    { destruct H as (l1 & l2 & l3 & H). apply (firstn_in 20). rewrite H.
      apply in_or_app. right. right. apply in_or_app. right. left. reflexivity. }
    apply Hin in Hy. destruct Hy as [_ Hy]. apply Nat.leb_le in Hy.
    apply firstn_stands_before, fromkeys_order in H.
    apply (filter_first_seen (fun e => (2 <=? length e)%nat) _ _ _ Hy H).
  - intros e He Hlen. apply firstn_in_or_full. apply Hin. tauto.
  - intros now content url lang t H.
    apply text_create_keywords in H as [H1 H2]. simpl in H1, H2.
    rewrite H2, E. auto.
Qed.

Lemma keywords_hygiene_witness :
  (2 <= length (u "vaccine"))%nat
  /\ In (u "vaccine")
       (List.map (fun k => str_lower basic_latin (strip k))
          [u " Vaccine "; u "x"; u "vaccine"; u "WHO"]).
Proof.
  apply (proj1 (proj2 (proj2 (keywords_hygiene basic_latin
           [u " Vaccine "; u "x"; u "vaccine"; u "WHO"])))).
  vm_compute. left. reflexivity.
Defined.

(** ** Validation of a text *)

(** X13: what [validate_text] accepts.  It answers [(True, None)] exactly
    for the texts that [is_valid_length] accepts and whose stripped form
    keeps at least five characters once white space and characters outside
    [\w] are taken away; every other answer is [False] with a message.  On
    plain text it is stricter than [Text.create]: what it accepts
    [Text.create] builds. *)
Theorem validate_text_accepts (U : UnicodeData) (text : str) :
  (TextProcessor.validate_text U text = (true, None)
   <-> TextProcessor.is_valid_length text = true
       /\ (5 <= length (TextProcessor.content_chars U (strip text)))%nat)
  /\ (TextProcessor.validate_text U text <> (true, None) ->
      exists msg, TextProcessor.validate_text U text = (false, Some msg))
  /\ (ascii_exact U -> Forall plain text ->
      TextProcessor.validate_text U text = (true, None) ->
      forall now, is_ok (Text.create U now text None None None) = true).
Proof.
  assert (Hiff : TextProcessor.validate_text U text = (true, None)
                 <-> TextProcessor.is_valid_length text = true
                     /\ (5 <= length (TextProcessor.content_chars U (strip text)))%nat).
  { unfold TextProcessor.validate_text, TextProcessor.is_valid_length,
      TextProcessor.MIN_TEXT_LENGTH, TextProcessor.MAX_TEXT_LENGTH.
    destruct text as [| c r]; [split; [discriminate | intros [H _]; discriminate] |].
    destruct (length (strip (c :: r)) <? 10)%nat eqn:E1.
    { apply Nat.ltb_lt in E1. split; [discriminate |].
      intros [H _]. apply andb_true_iff in H as [H _]. apply Nat.leb_le in H. lia. }
    destruct (2000 <? length (strip (c :: r)))%nat eqn:E2.
    { apply Nat.ltb_lt in E2. split; [discriminate |].
      intros [H _]. apply andb_true_iff in H as [_ H]. apply Nat.leb_le in H. lia. }
    apply Nat.ltb_ge in E1, E2.
    destruct (length (TextProcessor.content_chars U (strip (c :: r))) <? 5)%nat eqn:E3.
    { apply Nat.ltb_lt in E3. split; [discriminate |]. intros [_ H]. lia. }
    apply Nat.ltb_ge in E3. split; [| reflexivity].
    intros _. split; [| exact E3].
    apply andb_true_iff. split; apply Nat.leb_le; lia. }
  split; [exact Hiff |]. split.
  - unfold TextProcessor.validate_text.
    destruct text as [| c r]; [eauto |].
    destruct (_ <? _)%nat; [eauto |].
    destruct (_ <? _)%nat; [eauto |].
    destruct (_ <? _)%nat; [eauto |].
    intros H. contradiction.
  - intros HU Hp H now. apply Hiff in H as [H _].
    unfold TextProcessor.is_valid_length, TextProcessor.MIN_TEXT_LENGTH,
      TextProcessor.MAX_TEXT_LENGTH in H.
    destruct text as [| c r]; [discriminate |].
    apply andb_true_iff in H as [H1 H2]. apply Nat.leb_le in H1, H2.
    destruct (text_create_plain U now (c :: r) HU Hp (conj H1 H2)) as [t ->].
    reflexivity.
Qed.

Lemma validate_text_accepts_witness :
  exists msg,
    TextProcessor.validate_text basic_latin (u "!!! ??? ... a1") = (false, Some msg).
Proof.
  apply (proj1 (proj2 (validate_text_accepts basic_latin (u "!!! ??? ... a1")))).
  vm_compute. discriminate.
Defined.

(** X14: the digests of [generate_hash].  Whatever the text, a digest that
    [generate_hash] returns is 64 characters of [[a-f0-9]] and
    [TextHash(value=..)] accepts it as it is; [generate_hash] raises on the
    empty text, and on a text of printable ASCII characters, tabs, line
    feeds and carriage returns that is not empty it returns a digest. *)
Theorem generate_hash_digest (U : UnicodeData) (text : str) :
  ascii_exact U ->
  (forall h, TextProcessor.generate_hash U text = Ok h ->
     length h = 64%nat /\ forallb TextHash.hex_lower h = true
     /\ TextHash.new U h = Ok (TextHash.Build h))
  /\ (text = [] -> is_ok (TextProcessor.generate_hash U text) = false)
  /\ (text <> [] -> Forall plain text ->
      is_ok (TextProcessor.generate_hash U text) = true).
Proof.
  intros HU. split; [| split].
  - intros h H. unfold TextProcessor.generate_hash in H.
    destruct text as [| c r]; [discriminate |].
    destruct (TextProcessor.normalize U (c :: r) true) as [n |]; [| discriminate].
    cbn [bind] in H. apply sha256_hex_inv in H as (msg & _ & ->).
    destruct (hexdigest_format msg) as [H1 H2].
    split; [exact H1 |]. split; [apply forallb_Forall; exact H2 |].
    apply texthash_new_digest. exact HU.
  - intros ->. reflexivity.
  - intros Hne Hp. unfold TextProcessor.generate_hash.
    destruct text as [| c r]; [contradiction |].
    rewrite (normalize_plain U (c :: r) HU Hne Hp). cbn [bind].
    unfold sha256_hex. rewrite utf8_ascii; [reflexivity |].
    apply printable_ascii.
    assert (Hq : Forall printable (List.map ascii_to_lower (sub_ws (strip (c :: r))))).
    { pose proof (squeezed_printable (c :: r) Hp) as Hs.
      apply List.Forall_map. eapply List.Forall_impl; [| exact Hs].
      intros a Ha. unfold printable, ascii_to_lower, ascii_upper in *. char_cases. }
    revert Hq. generalize (List.map ascii_to_lower (sub_ws (strip (c :: r)))).
    intros l. unfold TextProcessor.sub_punctuation. generalize false.
    induction l as [| a l IH]; intros b Hq; simpl; [constructor |].
    inversion Hq as [| ? ? Ha Hl]; subst.
    destruct (TextProcessor.PUNCTUATION a); [destruct b |]; auto.
Qed.

Lemma generate_hash_digest_witness :
  is_ok (TextProcessor.generate_hash basic_latin (u "Hello,, World!!")) = true.
Proof.
  apply (generate_hash_digest basic_latin (u "Hello,, World!!") basic_latin_exact).
  - discriminate.
  - repeat constructor; vm_compute; intuition discriminate.
Defined.

(** ** Sentences *)

Lemma re_split_from_pieces (cls : char -> bool) (b : bool) (cur s p : str) :
  Forall (fun c => cls c = false) cur ->
  In p (re_split_from cls b cur s) ->
  Forall (fun c => cls c = false) p
  /\ exists a z, rev cur ++ s = a ++ p ++ z.
Proof.
  revert b cur. induction s as [| c r IH]; intros b cur Hcur; simpl.
  - intros [<- | []]. split; [apply Forall_rev; exact Hcur |].
    exists [], []. rewrite !app_nil_r. reflexivity.
  - destruct (cls c) eqn:Ec.
    + assert (Hrun : In p (re_split_from cls true [] r) ->
                     Forall (fun c => cls c = false) p
                     /\ exists a z, rev cur ++ c :: r = a ++ p ++ z).
      { intros H. apply IH in H as (Hp & a & z & E); [| constructor].
        split; [exact Hp |]. simpl in E.
        exists (rev cur ++ c :: a), z. rewrite E, <- app_assoc. reflexivity. }
      destruct b; [exact Hrun |].
      intros [<- | H]; [| exact (Hrun H)].
      split; [apply Forall_rev; exact Hcur |].
      exists [], (c :: r). reflexivity.
    + intros H. apply IH in H as (Hp & a & z & E); [| constructor; assumption].
      split; [exact Hp |]. exists a, z. rewrite <- E. simpl.
      rewrite <- app_assoc. reflexivity.
Qed.

Lemma re_split_from_whole (cls : char -> bool) (b : bool) (cur s : str) :
  Forall (fun c => cls c = false) s ->
  re_split_from cls b cur s = [rev cur ++ s].
Proof.
  revert b cur. induction s as [| c r IH]; intros b cur H; simpl.
  - rewrite app_nil_r. reflexivity.
  - inversion H as [| ? ? Hc Hr]; subst. rewrite Hc, IH by exact Hr.
    simpl. rewrite <- app_assoc. reflexivity.
Qed.

Lemma clean_sentences_in (m : Z) (l : list str) (s : str) :
  In s (TextProcessor.clean_sentences m l)
  <-> exists p, In p l /\ s = strip p /\ (m <= Z.of_nat (length s))%Z.
Proof.
  induction l as [| a l IH]; simpl.
  - split; [intros [] | intros (p & [] & _)].
  - destruct (m <=? Z.of_nat (length (strip a)))%Z eqn:E.
    + apply Z.leb_le in E. simpl. rewrite IH. split.
      * intros [<- | (p & Hp & Hs)]; [exists a; auto | exists p; auto].
      * intros (p & [<- | Hp] & Hs & Hm); [left; auto | right; exists p; auto].
    + apply Z.leb_gt in E. rewrite IH. split.
      * intros (p & Hp & Hs). exists p. auto.
      * intros (p & [<- | Hp] & Hs & Hm); [subst s; lia | exists p; auto].
Qed.

Lemma strip_within (p : str) : exists a z, p = a ++ strip p ++ z.
Proof.
  destruct (lstrip_suffix p) as (ws & Hs & _).
  destruct (rstrip_prefix (lstrip p)) as (ws' & Hs' & _).
  exists ws, ws'. unfold strip. rewrite <- Hs'. exact Hs.
Qed.

Lemma sentence_of_piece (cls : char -> bool) (n p : str) :
  In p (re_split cls n) ->
  strip (strip p) = strip p
  /\ Forall (fun c => cls c = false) (strip p)
  /\ exists a z, n = a ++ strip p ++ z.
Proof.
  intros H. apply re_split_from_pieces in H as (Hp & a & z & E); [| constructor].
  simpl in E. split; [apply strip_idempotent |].
  split; [apply Forall_strip; exact Hp |].
  destruct (strip_within p) as (a' & z' & Ep).
  exists (a ++ a'), (z' ++ z). rewrite E. rewrite Ep at 1.
  rewrite <- !app_assoc. reflexivity.
Qed.

Lemma normalize_display (U : UnicodeData) (text : str) :
  text <> [] ->
  exists n, TextProcessor.normalize U text false = Ok n /\ strip n = n.
Proof.
  intros H. unfold TextProcessor.normalize.
  destruct text as [| c r]; [contradiction |].
  eexists. split; [reflexivity | apply strip_idempotent].
Qed.

(** X15: the sentences of [TextProcessor.extract_sentences].  The function
    never raises and returns no sentence for the empty text.  Every
    sentence it returns has at least [min_length] characters, 10 when none
    is given, has no white space at its ends, holds none of the marks
    [.], [!] and [?], and is a piece of the normalised text; a text whose
    normalised form holds none of the three marks is one sentence, or none
    when it is too short. *)
Theorem extract_sentences_spec (U : UnicodeData) (text : str)
    (min_length : option Z) :
  exists l,
    TextProcessor.extract_sentences U text min_length = Ok l
    /\ (text = [] -> l = [])
    /\ (forall s, In s l ->
          (match min_length with Some m => m | None => 10 end
           <= Z.of_nat (length s))%Z
          /\ strip s = s
          /\ Forall (fun c => TextProcessor.SENTENCE_END c = false) s
          /\ exists n a z,
               TextProcessor.normalize U text false = Ok n /\ n = a ++ s ++ z)
    /\ (forall n, TextProcessor.normalize U text false = Ok n ->
          Forall (fun c => TextProcessor.SENTENCE_END c = false) n ->
          l = if (match min_length with Some m => m | None => 10 end
                  <=? Z.of_nat (length n))%Z
              then [n] else []).
Proof.
  unfold TextProcessor.extract_sentences.
  destruct text as [| c r].
  { exists []. split; [reflexivity |]. split; [reflexivity |].
    split; [intros s [] | intros n H; discriminate]. }
  destruct (normalize_display U (c :: r)) as (n & Hn & Hs); [discriminate |].
  rewrite Hn. cbn [bind].
  set (m := match min_length with Some m => m | None => Z.of_nat TextProcessor.MIN_SENTENCE_LENGTH end).
  assert (Em : match min_length with Some m => m | None => 10%Z end = m).
  { unfold m. destruct min_length; reflexivity. }
  rewrite Em.
  eexists. split; [reflexivity |]. split; [discriminate |]. split.
  - intros s H. apply clean_sentences_in in H as (p & Hp & -> & Hm).
    apply sentence_of_piece in Hp as (H1 & H2 & a & z & E).
    split; [exact Hm |]. split; [exact H1 |]. split; [exact H2 |].
    exists n, a, z. auto.
  - intros n' Hn' Hno. injection Hn' as <-.
    unfold re_split. rewrite re_split_from_whole by exact Hno.
    cbn [rev app TextProcessor.clean_sentences]. rewrite Hs. reflexivity.
Qed.

Lemma extract_sentences_spec_witness :
  exists l,
    TextProcessor.extract_sentences basic_latin
      (u "The sky is blue.  Is it?  Grass is green today!") None = Ok l
    /\ forall s, In s l ->
         (10 <= Z.of_nat (length s))%Z
         /\ strip s = s
         /\ Forall (fun c => TextProcessor.SENTENCE_END c = false) s
         /\ exists n a z,
              TextProcessor.normalize basic_latin
                (u "The sky is blue.  Is it?  Grass is green today!") false = Ok n
              /\ n = a ++ s ++ z.
Proof.
  destruct (extract_sentences_spec basic_latin
              (u "The sky is blue.  Is it?  Grass is green today!") None)
    as (l & H1 & _ & H3 & _).
  exists l. split; [exact H1 | exact H3].
Defined.

(** X16: the sentences of a [Text].  Every sentence that
    [Text.extract_sentences] returns has at least 10 characters, has no
    white space at its ends, holds none of the marks [.], [!] and [?], and
    is a piece of the normalised content; a normalised content without the
    three marks is one sentence, its stripped form, or none when that is
    shorter than 10 characters. *)
Theorem text_extract_sentences_spec (t : Text.t) :
  (forall s, In s (Text.extract_sentences t) ->
     (10 <= length s)%nat
     /\ strip s = s
     /\ Forall (fun c => TextProcessor.SENTENCE_END c = false) s
     /\ exists a z, Text.normalized_content t = a ++ s ++ z)
  /\ (Forall (fun c => TextProcessor.SENTENCE_END c = false)
        (Text.normalized_content t) ->
      Text.extract_sentences t
      = if (10 <=? length (strip (Text.normalized_content t)))%nat
        then [strip (Text.normalized_content t)] else []).
Proof.
  unfold Text.extract_sentences. split.
  - intros s H. apply clean_sentences_in in H as (p & Hp & -> & Hm).
    apply sentence_of_piece in Hp as (H1 & H2 & H3).
    split; [lia |]. auto.
  - intros Hno. unfold re_split. rewrite re_split_from_whole by exact Hno.
    cbn [rev app TextProcessor.clean_sentences].
    destruct (10 <=? length (strip (Text.normalized_content t)))%nat eqn:E;
      destruct (10 <=? Z.of_nat (length (strip (Text.normalized_content t))))%Z eqn:E';
      try reflexivity.
    + apply Nat.leb_le in E. apply Z.leb_gt in E'. lia.
    + apply Nat.leb_gt in E. apply Z.leb_le in E'. lia.
Qed.

Lemma text_extract_sentences_spec_witness :
  Text.extract_sentences sample_text = [u "Hello World"]
  /\ ((10 <= length (u "Hello World"))%nat
      /\ strip (u "Hello World") = u "Hello World"
      /\ Forall (fun c => TextProcessor.SENTENCE_END c = false) (u "Hello World")
      /\ exists a z, Text.normalized_content sample_text = a ++ u "Hello World" ++ z).
Proof.
  split; [reflexivity |].
  apply (proj1 (text_extract_sentences_spec sample_text)).
  left. reflexivity.
Defined.

(** ** Previews *)

Lemma rfind_from_spec (c : char) (i found : Z) (s : str) :
  (rfind_from c i found s = found)
  \/ ((i <= rfind_from c i found s < i + Z.of_nat (length s))%Z
      /\ nth_error s (Z.to_nat (rfind_from c i found s - i)) = Some c).
Proof.
  revert i found. induction s as [| d r IH]; intros i found; simpl rfind_from.
  - left. reflexivity.
  - destruct (IH (i + 1)%Z (if d =? c then i else found)) as [H | [H1 H2]].
    + rewrite H. destruct (d =? c) eqn:E; [| left; reflexivity].
      right. apply N.eqb_eq in E. subst d.
      split; [simpl length; lia |].
      rewrite Z.sub_diag. reflexivity.
    + right. split; [simpl length; lia |].
      replace (Z.to_nat (rfind_from c (i + 1) (if d =? c then i else found) r - i))
        with (S (Z.to_nat (rfind_from c (i + 1) (if d =? c then i else found) r - (i + 1))))
        by lia.
      exact H2.
Qed.

Lemma nth_error_split_at {A : Type} (l : list A) (n : nat) (x : A) :
  nth_error l n = Some x -> exists q, l = firstn n l ++ x :: q.
Proof.
  revert n. induction l as [| a l IH]; intros [| n]; simpl; try discriminate.
  - intros H. injection H as ->. exists l. reflexivity.
  - intros H. destruct (IH n H) as [q Hq]. exists q. rewrite <- Hq. reflexivity.
Qed.

Local Open Scope Q_scope.

(** X17: the shape of a preview.  For a maximum length that is not
    negative, [get_preview] returns the original content itself when it is
    no longer than the maximum; otherwise it returns a beginning of the
    content followed by three dots, where the beginning has exactly the
    maximum length, or is shorter but longer than 0.8 times the maximum and
    is followed by a space in the content.  So a preview is the content or
    has at most three characters more than the maximum. *)
Theorem get_preview_shape (t : Text.t) (m : Z) :
  (0 <= m)%Z ->
  ((Z.of_nat (length (Text.original_content t)) <= m)%Z ->
   Text.get_preview t m = Text.original_content t)
  /\ ((m < Z.of_nat (length (Text.original_content t)))%Z ->
      exists p q,
        Text.original_content t = p ++ q
        /\ Text.get_preview t m = p ++ u "..."
        /\ (Z.of_nat (length p) = m
            \/ ((4 * m < 5 * Z.of_nat (length p))%Z
                /\ (Z.of_nat (length p) < m)%Z
                /\ exists q', q = SP :: q'))
        /\ (Z.of_nat (length (Text.get_preview t m)) <= m + 3)%Z).
Proof.
  intros Hm. unfold Text.get_preview.
  generalize (Text.original_content t). intros content.
  split.
  - intros H. apply Z.leb_le in H. rewrite H. reflexivity.
  - intros H.
    assert (E : (Z.of_nat (length content) <=? m)%Z = false) by (apply Z.leb_gt; exact H).
    rewrite E.
    assert (Et : slice_to m content = firstn (Z.to_nat m) content).
    { rewrite <- (Z2Nat.id m) at 1 by exact Hm. apply slice_to_firstn. }
    rewrite Et.
    set (truncated := firstn (Z.to_nat m) content).
    assert (Hlen : length truncated = Z.to_nat m).
    { unfold truncated. rewrite length_firstn. lia. }
    destruct (Qle_bool (inject_Z (rfind SP truncated)) (inject_Z m * 0.8)) eqn:Ecut;
      cbn [negb].
    + exists truncated, (skipn (Z.to_nat m) content).
      split; [symmetry; apply firstn_skipn |].
      split; [reflexivity |].
      split; [left; lia |].
      rewrite length_app. simpl length. lia.
    + apply Qle_bool_false in Ecut.
      assert (Hls : (4 * m < 5 * rfind SP truncated)%Z).
      { unfold Qlt in Ecut. simpl in Ecut. lia. }
      unfold rfind in *.
      destruct (rfind_from_spec SP 0 (-1) truncated) as [Hnone | [Hin Hnth]];
        [lia |].
      set (ls := rfind_from SP 0 (-1) truncated) in *.
      rewrite Z.sub_0_r in Hnth.
      assert (Es : slice_to ls truncated = firstn (Z.to_nat ls) truncated).
      { rewrite <- (Z2Nat.id ls) at 1 by lia. apply slice_to_firstn. }
      rewrite Es.
      destruct (nth_error_split_at _ _ _ Hnth) as [q' Hq'].
      exists (firstn (Z.to_nat ls) truncated), (SP :: q' ++ skipn (Z.to_nat m) content).
      assert (Hp : length (firstn (Z.to_nat ls) truncated) = Z.to_nat ls).
      { rewrite length_firstn. lia. }
      split.
      { rewrite <- (firstn_skipn (Z.to_nat m) content) at 1.
        fold truncated. rewrite Hq' at 1. rewrite <- app_assoc. reflexivity. }
      split; [reflexivity |].
      split.
      { right. rewrite Hp. split; [lia |]. split; [lia |]. eauto. }
      rewrite length_app, Hp. simpl length. lia.
Qed.

Lemma get_preview_shape_witness :
  Text.get_preview sample_text 20 = Text.original_content sample_text.
Proof.
  apply (proj1 (get_preview_shape sample_text 20 ltac:(lia))).
  vm_compute. discriminate.
Defined.

Example get_preview_cuts_at_space :
  Text.get_preview sample_text 6 = u "Hello..."
  /\ Text.get_preview sample_text 8 = u "Hello Wo...".
Proof. split; vm_compute; reflexivity. Qed.

Local Close Scope Q_scope.

(** ** Similarity *)

Local Open Scope Q_scope.

Lemma str_eqb_sym (a b : str) : str_eqb a b = str_eqb b a.
Proof.
  unfold str_eqb. destruct (decide (a = b)) as [-> | H].
  - reflexivity.
  - rewrite !bool_decide_eq_false_2; [reflexivity | congruence | exact H].
Qed.

Lemma jaccard_comm (A B : gset str) : jaccard A B = jaccard B A.
Proof.
  unfold jaccard.
  assert (E1 : A ∩ B = B ∩ A) by apply (comm_L (∩)).
  assert (E2 : A ∪ B = B ∪ A) by apply (comm_L (∪)).
  rewrite E1, E2. reflexivity.
Qed.

Lemma jaccard_range (A B : gset str) : 0 <= jaccard A B /\ jaccard A B <= 1.
Proof.
  unfold jaccard.
  destruct (0 <? size (A ∪ B))%nat eqn:E.
  - apply Nat.ltb_lt in E.
    assert (Hsub : (size (A ∩ B) <= size (A ∪ B))%nat).
    { apply subseteq_size. transitivity A.
      - apply intersection_subseteq_l.
      - apply union_subseteq_l. }
    assert (H0 : 0 < inject_Z (Z.of_nat (size (A ∪ B)))).
    { change 0 with (inject_Z 0). rewrite <- Zlt_Qlt. lia. }
    assert (H1 : 0 <= inject_Z (Z.of_nat (size (A ∩ B)))).
    { change 0 with (inject_Z 0). rewrite <- Zle_Qle. lia. }
    assert (H2 : inject_Z (Z.of_nat (size (A ∩ B)))
                 <= inject_Z (Z.of_nat (size (A ∪ B)))).
    { rewrite <- Zle_Qle. lia. }
    split.
    + apply Qle_shift_div_l; [exact H0 | lra].
    + apply Qle_shift_div_r; [exact H0 | lra].
  - split; [unfold Qle; simpl; lia | unfold Qle; simpl; lia].
Qed.

Lemma jaccard_same (A : gset str) : A <> ∅ -> jaccard A A == 1.
Proof.
  intros H. unfold jaccard.
  assert (E1 : A ∩ A = A) by apply (idemp_L (∩)).
  assert (E2 : A ∪ A = A) by apply (idemp_L (∪)).
  rewrite E1, E2.
  assert (Hpos : (0 < size A)%nat).
  { destruct (size A) eqn:E; [| lia]. apply size_empty_inv in E.
    exfalso. apply H. apply leibniz_equiv. exact E. }
  apply Nat.ltb_lt in Hpos as Hb. rewrite Hb.
  assert (H0 : 0 < inject_Z (Z.of_nat (size A))).
  { change 0 with (inject_Z 0). rewrite <- Zlt_Qlt. lia. }
  field. lra.
Qed.

(** X18: [is_similar_to] is reflexive, symmetric and antitone in the
    threshold.  A text is similar to itself and to every text equal to it,
    at any threshold; the answer does not depend on which of two texts is
    asked; a pair that is similar at a threshold is similar at every lower
    one; and at a threshold above 1 the similar texts are the equal
    ones. *)
Theorem is_similar_to_properties (U : UnicodeData) (a b : Text.t) (th th' : Q) :
  Text.is_similar_to U a a th = true
  /\ Text.is_similar_to U a b th = Text.is_similar_to U b a th
  /\ (Text.__eq__ a b = true -> Text.is_similar_to U a b th = true)
  /\ (th' <= th -> Text.is_similar_to U a b th = true ->
      Text.is_similar_to U a b th' = true)
  /\ (1 < th -> Text.is_similar_to U a b th = Text.__eq__ a b).
Proof.
  unfold Text.is_similar_to, Text.__eq__, TextHash.__eq__.
  split; [rewrite str_eqb_refl; reflexivity |].
  split.
  { rewrite (str_eqb_sym (TextHash.value (Text.text_hash b))).
    destruct (str_eqb _ _); [reflexivity |].
    rewrite (orb_comm (bool_decide (_ = ∅))), jaccard_comm. reflexivity. }
  split; [intros ->; reflexivity |].
  split.
  - intros Hle. destruct (str_eqb _ _); [reflexivity |].
    destruct (_ || _); [discriminate |].
    intros H. apply Qle_bool_iff in H. apply Qle_bool_iff. lra.
  - intros Hth. destruct (str_eqb _ _); [reflexivity |].
    destruct (_ || _); [reflexivity |].
    apply Qle_bool_false.
    match goal with |- jaccard ?A ?B < _ => pose proof (jaccard_range A B) end.
    lra.
Qed.

Lemma is_similar_to_properties_witness :
  Text.is_similar_to basic_latin sample_text sample_text (1 # 2) = true.
Proof.
  apply (proj1 (proj2 (proj2 (proj2
           (is_similar_to_properties basic_latin sample_text sample_text 2 (1 # 2)))))).
  - unfold Qle. simpl. lia.
  - apply (proj1 (is_similar_to_properties basic_latin sample_text sample_text 2 2)).
Defined.

Lemma normalize_hashing_total (U : UnicodeData) (text : str) :
  text <> [] -> exists n, TextProcessor.normalize U text true = Ok n.
Proof.
  intros H. unfold TextProcessor.normalize.
  destruct text as [| c r]; [contradiction |].
  eexists. reflexivity.
Qed.

Lemma similarity_score_unfold (U : UnicodeData) (a b n1 n2 : str) :
  a <> [] -> b <> [] ->
  TextProcessor.normalize U a true = Ok n1 ->
  TextProcessor.normalize U b true = Ok n2 ->
  TextProcessor.similarity_score U a b
  = if str_eqb n1 n2 then Ok 1.0
    else if bool_decide (word_set n1 = ∅) || bool_decide (word_set n2 = ∅)
         then Ok 0.0
         else Ok (jaccard (word_set n1) (word_set n2)).
Proof.
  intros Ha Hb H1 H2. unfold TextProcessor.similarity_score.
  destruct a as [| c r]; [contradiction |].
  destruct b as [| c' r']; [contradiction |].
  rewrite H1, H2. reflexivity.
Qed.

(** X19: the similarity score is a symmetric number between 0 and 1.
    [similarity_score] never raises, its value lies between 0 and 1 and
    does not depend on the order of the two texts; it is 0.0 as soon as one
    text is empty and 1.0 for a text that is not empty and itself. *)
Theorem similarity_score_properties (U : UnicodeData) (a b : str) :
  (exists q, TextProcessor.similarity_score U a b = Ok q /\ 0 <= q /\ q <= 1)
  /\ TextProcessor.similarity_score U a b = TextProcessor.similarity_score U b a
  /\ (a = [] \/ b = [] -> TextProcessor.similarity_score U a b = Ok 0.0)
  /\ (a <> [] -> TextProcessor.similarity_score U a a = Ok 1.0).
Proof.
  assert (Hempty : a = [] \/ b = [] ->
                   TextProcessor.similarity_score U a b = Ok 0.0
                   /\ TextProcessor.similarity_score U b a = Ok 0.0).
  { unfold TextProcessor.similarity_score.
    intros [-> | ->]; [destruct b | destruct a]; split; reflexivity. }
  assert (Hself : forall x, x <> [] -> TextProcessor.similarity_score U x x = Ok 1.0).
  { intros x Hx. destruct (normalize_hashing_total U x Hx) as [n Hn].
    rewrite (similarity_score_unfold U x x n n Hx Hx Hn Hn), str_eqb_refl.
    reflexivity. }
  split; [| split; [| split]].
  - destruct a as [| c r]; [exists 0.0; split; [reflexivity | split; unfold Qle; simpl; lia] |].
    destruct b as [| c' r']; [exists 0.0; split; [reflexivity | split; unfold Qle; simpl; lia] |].
    destruct (normalize_hashing_total U (c :: r)) as [n1 H1]; [discriminate |].
    destruct (normalize_hashing_total U (c' :: r')) as [n2 H2]; [discriminate |].
    rewrite (similarity_score_unfold U (c :: r) (c' :: r') n1 n2
              ltac:(discriminate) ltac:(discriminate) H1 H2).
    destruct (str_eqb n1 n2); [exists 1.0; split; [reflexivity | split; unfold Qle; simpl; lia] |].
    destruct (_ || _); [exists 0.0; split; [reflexivity | split; unfold Qle; simpl; lia] |].
    eexists. split; [reflexivity | apply jaccard_range].
  - destruct a as [| c r]; [destruct (Hempty (or_introl eq_refl)); congruence |].
    destruct b as [| c' r']; [destruct (Hempty (or_intror eq_refl)); congruence |].
    destruct (normalize_hashing_total U (c :: r)) as [n1 H1]; [discriminate |].
    destruct (normalize_hashing_total U (c' :: r')) as [n2 H2]; [discriminate |].
    rewrite (similarity_score_unfold U (c :: r) (c' :: r') n1 n2
              ltac:(discriminate) ltac:(discriminate) H1 H2).
    rewrite (similarity_score_unfold U (c' :: r') (c :: r) n2 n1
              ltac:(discriminate) ltac:(discriminate) H2 H1).
    rewrite (str_eqb_sym n2 n1).
    destruct (str_eqb n1 n2); [reflexivity |].
    rewrite (orb_comm (bool_decide (word_set n2 = ∅))), (jaccard_comm (word_set n2)).
    reflexivity.
  - intros H. apply Hempty. exact H.
  - apply Hself.
Qed.

Lemma similarity_score_properties_witness :
  TextProcessor.similarity_score basic_latin (u "so it goes") (u "so it goes") = Ok 1.0.
Proof.
  apply (proj2 (proj2 (proj2
           (similarity_score_properties basic_latin (u "so it goes") (u "so it goes"))))).
  discriminate.
Defined.

(** X20: which texts score 1 and which 0.  Two plain texts that are not
    empty and differ only by letter case and white space score 1.0.  Of two
    texts whose normalised forms differ, the score is 1 when the two forms
    have the same set of words, whatever their order and number, and 0 when
    they have no word in common. *)
Theorem similarity_score_extremes (U : UnicodeData) (a b : str) :
  a <> [] -> b <> [] ->
  (ascii_exact U -> Forall plain a -> Forall plain b -> same_words a b ->
   TextProcessor.similarity_score U a b = Ok 1.0)
  /\ (forall n1 n2,
        TextProcessor.normalize U a true = Ok n1 ->
        TextProcessor.normalize U b true = Ok n2 ->
        n1 <> n2 ->
        (word_set n1 = word_set n2 -> word_set n1 <> ∅ ->
         exists q, TextProcessor.similarity_score U a b = Ok q /\ q == 1)
        /\ (word_set n1 ∩ word_set n2 = ∅ ->
            exists q, TextProcessor.similarity_score U a b = Ok q /\ q == 0)).
Proof.
  intros Ha Hb. split.
  - intros HU Pa Pb Hab.
    pose proof (normalize_plain U a HU Ha Pa) as H1.
    pose proof (normalize_plain U b HU Hb Pb) as H2.
    rewrite (map_lower_same _ _ (same_words_squeezed a b Hab)) in H1.
    rewrite (similarity_score_unfold U a b _ _ Ha Hb H1 H2), str_eqb_refl.
    reflexivity.
  - intros n1 n2 H1 H2 Hne.
    rewrite (similarity_score_unfold U a b n1 n2 Ha Hb H1 H2).
    apply str_eqb_neq in Hne. rewrite Hne. split.
    + intros Heq Hw. rewrite <- Heq.
      rewrite (bool_decide_eq_false_2 _ Hw). cbn [orb].
      eexists. split; [reflexivity | apply jaccard_same; exact Hw].
    + intros Hdis. destruct (_ || _); [exists 0.0; split; reflexivity |].
      eexists. split; [reflexivity |].
      unfold jaccard. rewrite Hdis, size_empty.
      destruct (0 <? _)%nat; [| reflexivity].
      unfold Qeq. simpl. lia.
Qed.

Lemma similarity_score_extremes_witness :
  exists q,
    TextProcessor.similarity_score basic_latin (u "to be or not") (u "not to be or")
    = Ok q /\ q == 1.
Proof.
  refine (proj1 (proj2 (similarity_score_extremes basic_latin
            (u "to be or not") (u "not to be or") _ _)
            (u "to be or not") (u "not to be or") _ _ _) _ _).
  - discriminate.
  - discriminate.
  - reflexivity.
  - reflexivity.
  - discriminate.
  - vm_compute. reflexivity.
  - vm_compute. discriminate.
Defined.

Local Close Scope Q_scope.

(** ** API keys *)

Lemma xor_bytes_involutive (data kr : list byte) :
  length data = length kr ->
  ApiKey.xor_bytes (ApiKey.xor_bytes data kr) kr = data.
Proof.
  unfold ApiKey.xor_bytes.
  revert kr. induction data as [| a data IH]; intros [| b kr] H; simpl in *;
    try discriminate; [reflexivity |].
  injection H as H. rewrite IH by exact H.
  rewrite N.lxor_assoc, N.lxor_nilpotent, N.lxor_0_r. reflexivity.
Qed.

Lemma xor_bytes_length (data kr : list byte) :
  length data = length kr -> length (ApiKey.xor_bytes data kr) = length data.
Proof.
  intros H. unfold ApiKey.xor_bytes.
  rewrite length_map, length_combine. lia.
Qed.

Lemma concat_repeat_length {A : Type} (l : list A) (k : nat) :
  length (concat (repeat l k)) = (k * length l)%nat.
Proof.
  induction k as [| k IH]; simpl; [reflexivity |].
  rewrite length_app, IH. reflexivity.
Qed.

Lemma key_repeated_length (key : list byte) (n : nat) :
  key <> [] -> length (ApiKey.key_repeated key n) = n.
Proof.
  intros Hk. unfold ApiKey.key_repeated.
  rewrite length_firstn, concat_repeat_length.
  assert (Hpos : (0 < length key)%nat).
  { destruct key; [contradiction | simpl; lia]. }
  pose proof (Nat.div_mod_eq n (length key)) as Hd.
  pose proof (Nat.mod_upper_bound n (length key) ltac:(lia)) as Hm.
  nia.
Qed.

Lemma api_key_new_inv (U : UnicodeData) (C : Codecs) (e s : str) (d : bool)
    (k : ApiKey.t) :
  ApiKey.new U C e s d = Ok k ->
  e <> [] /\ b64decode C e <> None
  /\ In (str_lower U s) ApiKey.allowed_services
  /\ k = ApiKey.Build e (str_lower U s) d.
Proof.
  unfold ApiKey.new, ApiKey.validate_encrypted_value, ApiKey.validate_service_name.
  destruct e as [| c e]; [discriminate |].
  cbn [length Nat.leb negb].
  destruct (b64decode C (c :: e)); [| discriminate].
  cbn [bind].
  destruct (negb _); [discriminate |].
  destruct (existsb _ ApiKey.allowed_services) eqn:E; [| discriminate].
  cbn [negb bind]. intros H. injection H as <-.
  apply existsb_exists in E as (x & Hx & Ex). apply str_eqb_eq in Ex. subst x.
  repeat split; try discriminate; assumption.
Qed.

(** X21: a key that is created can be decrypted.  When [ApiKey.create]
    returns a key, encrypted with the 32 bytes of [secrets.token_bytes] or
    with a given encryption key of 32 bytes, and the codecs of the library
    decode what they encoded, then [decrypt] returns the raw key, the
    service name of the key is one of the four allowed names in lower case,
    and the decoded value begins with the encryption key in clear. *)
Theorem api_key_round_trip (U : UnicodeData) (C : Codecs)
    (token_bytes : list byte) (raw_key service_name : str) (is_default : bool)
    (encryption_key : option (list byte)) (k : ApiKey.t) :
  length (key_used token_bytes encryption_key) = 32%nat ->
  decodes_utf8 C raw_key ->
  (forall data bs,
     utf8_encode raw_key = Ok data ->
     ApiKey._simple_encrypt data (key_used token_bytes encryption_key)
     = ApiKey.Returns bs ->
     decodes_b64 C bs) ->
  ApiKey.create U C token_bytes raw_key service_name is_default encryption_key
  = ApiKey.Returns k ->
  ApiKey.decrypt C k = Ok raw_key
  /\ In (ApiKey.service_name k) ApiKey.allowed_services
  /\ ApiKey.service_name k = str_lower U service_name
  /\ ApiKey.is_default k = is_default
  /\ (8 <= length raw_key)%nat
  /\ exists bs, b64decode C (ApiKey.encrypted_value k) = Some bs
                /\ firstn 32 bs = key_used token_bytes encryption_key.
Proof.
  intros Hlen Hutf Hb64. unfold ApiKey.create.
  fold (key_used token_bytes encryption_key).
  set (key := key_used token_bytes encryption_key) in *.
  destruct raw_key as [| c r] eqn:Eraw; [discriminate |]. rewrite <- Eraw in *.
  destruct (length (strip raw_key) <? 8)%nat eqn:E8; [discriminate |].
  apply Nat.ltb_ge in E8.
  destruct (utf8_encode raw_key) as [data |] eqn:Edata; [| discriminate].
  assert (Hkey : key <> []).
  { intros E. rewrite E in Hlen. discriminate. }
  assert (Henc : ApiKey._simple_encrypt data key
                 = ApiKey.Returns
                     (key ++ ApiKey.xor_bytes data
                               (ApiKey.key_repeated key (length data)))).
  { unfold ApiKey._simple_encrypt. destruct key; [contradiction | reflexivity]. }
  rewrite Henc.
  destruct (ApiKey.new U C _ service_name is_default) as [k' |] eqn:Enew;
    [| discriminate].
  intros H. injection H as ->.
  apply api_key_new_inv in Enew as (_ & _ & Hsvc & ->).
  cbn [ApiKey.service_name ApiKey.is_default ApiKey.encrypted_value].
  pose proof (Hb64 _ _ eq_refl Henc) as Hdec. unfold decodes_b64 in Hdec.
  assert (Hkr : length data
                = length (ApiKey.key_repeated key (length data))).
  { symmetry. apply key_repeated_length. exact Hkey. }
  assert (Hfirst : firstn 32
                     (key ++ ApiKey.xor_bytes data
                               (ApiKey.key_repeated key (length data))) = key).
  { rewrite <- Hlen. rewrite firstn_app, Nat.sub_diag, firstn_all.
    simpl. apply app_nil_r. }
  assert (Hskip : skipn 32
                    (key ++ ApiKey.xor_bytes data
                              (ApiKey.key_repeated key (length data)))
                  = ApiKey.xor_bytes data (ApiKey.key_repeated key (length data))).
  { rewrite <- Hlen. rewrite skipn_app, Nat.sub_diag, skipn_all.
    reflexivity. }
  split.
  - unfold ApiKey.decrypt. cbn [ApiKey.encrypted_value].
    rewrite Hdec, Hfirst, Hskip.
    destruct key as [| k0 key'] eqn:Ek; [contradiction |]. rewrite <- Ek in *.
    rewrite (xor_bytes_length _ _ Hkr).
    rewrite (xor_bytes_involutive _ _ Hkr).
    rewrite (Hutf data Edata). reflexivity.
  - split; [exact Hsvc |]. split; [reflexivity |]. split; [reflexivity |].
    split; [pose proof (strip_length raw_key); lia |].
    eexists. split; [exact Hdec | exact Hfirst].
Qed.

Lemma api_key_round_trip_witness :
  ApiKey.decrypt rfc_codecs
    (ApiKey.Build
       (rfc_b64encode
          (List.repeat 7 32
           ++ ApiKey.xor_bytes (u "gsk_0123456789")
                (ApiKey.key_repeated (List.repeat 7 32) 14)))
       (u "groq_llm") true)
  = Ok (u "gsk_0123456789").
Proof.
  refine (proj1 (api_key_round_trip basic_latin rfc_codecs (List.repeat 7 32)
                   (u "gsk_0123456789") (u "Groq_LLM") true None _ _ _ _ _)).
  - reflexivity.
  - intros data H. vm_compute in H. injection H as <-. vm_compute. reflexivity.
  - intros data bs H. vm_compute in H. injection H as <-.
    intros H. vm_compute in H. injection H as <-. vm_compute. reflexivity.
  - vm_compute. reflexivity.
Defined.

(** With an encryption key that has not 32 bytes the trip fails: a key of
    16 bytes gives back the last eight characters only. *)
Example api_key_short_encryption_key :
  exists k,
    ApiKey.create basic_latin rfc_codecs (List.repeat 7 32)
      (u "abcdefgh12345678ABCDEFGH") (u "custom") false
      (Some (List.repeat 9 16)) = ApiKey.Returns k
    /\ ApiKey.decrypt rfc_codecs k = Ok (u "ABCDEFGH").
Proof. eexists. split; vm_compute; reflexivity. Qed.

Lemma repeat_filter_none (n : nat) :
  List.filter (fun c => negb (c =? ApiKey.STAR)) (repeat ApiKey.STAR n) = [].
Proof. induction n as [| n IH]; simpl; [reflexivity | exact IH]. Qed.

(** X22: what [mask_for_display] shows.  For a key that decrypts, the mask
    has the length of the decrypted key; a key of eight characters or fewer
    is masked by stars only; of a longer key the mask shows the first four
    and the last four characters and stars in between; so the mask shows
    eight characters of the key at most.  A key that does not decrypt is
    displayed as [***INVALID***]. *)
Theorem mask_for_display_shape (C : Codecs) (k : ApiKey.t) :
  (forall d, ApiKey.decrypt C k = Ok d ->
     length (ApiKey.mask_for_display C k) = length d
     /\ ((length d <= 8)%nat ->
         ApiKey.mask_for_display C k = repeat ApiKey.STAR (length d))
     /\ ((8 < length d)%nat ->
         ApiKey.mask_for_display C k
         = firstn 4 d ++ repeat ApiKey.STAR (length d - 8)
           ++ skipn (length d - 4) d)
     /\ (shown (ApiKey.mask_for_display C k) <= 8)%nat)
  /\ (is_ok (ApiKey.decrypt C k) = false ->
      ApiKey.mask_for_display C k = u "***INVALID***").
Proof.
  unfold shown, ApiKey.mask_for_display. split.
  - intros d ->.
    destruct (length d <=? 8)%nat eqn:E.
    + apply Nat.leb_le in E.
      split; [apply repeat_length |]. split; [reflexivity |].
      split; [lia |]. rewrite repeat_filter_none. simpl. lia.
    + apply Nat.leb_gt in E.
      split.
      { rewrite !length_app, length_firstn, repeat_length, length_skipn. lia. }
      split; [lia |]. split; [reflexivity |].
      rewrite !List.filter_app, repeat_filter_none, !length_app. cbn [length].
      match goal with
      | |- (length ?a + (0 + length ?b) <= 8)%nat =>
          assert (H1 : (length a <= 4)%nat)
            by (etransitivity;
                [apply filter_length_le | rewrite length_firstn; lia]);
          assert (H2 : (length b <= 4)%nat)
            by (etransitivity;
                [apply filter_length_le | rewrite length_skipn; lia])
      end.
      lia.
  - destruct (ApiKey.decrypt C k); [discriminate | reflexivity].
Qed.

Lemma mask_for_display_shape_witness :
  ApiKey.mask_for_display rfc_codecs
    (ApiKey.Build
       (rfc_b64encode
          (List.repeat 7 32
           ++ ApiKey.xor_bytes (u "gsk_0123456789")
                (ApiKey.key_repeated (List.repeat 7 32) 14)))
       (u "groq_llm") true)
  = firstn 4 (u "gsk_0123456789")
    ++ repeat ApiKey.STAR (length (u "gsk_0123456789") - 8)
    ++ skipn (length (u "gsk_0123456789") - 4) (u "gsk_0123456789").
Proof.
  refine (proj1 (proj2 (proj2 (proj1 (mask_for_display_shape rfc_codecs _)
            (u "gsk_0123456789") _))) _).
  - vm_compute. reflexivity.
  - vm_compute. lia.
Defined.

(** ** Users and their keys *)

Lemma find_app_key {A : Type} (f : A -> bool) (l l' : list A) :
  List.find f (l ++ l')
  = match List.find f l with
    | Some x => Some x
    | None => List.find f l'
    end.
Proof.
  induction l as [| a l IH]; simpl; [reflexivity |].
  destruct (f a); [reflexivity | exact IH].
Qed.

Lemma find_filter_other {A : Type} (f g : A -> bool) (l : list A) :
  (forall x, f x = true -> g x = true) ->
  List.find f (List.filter g l) = List.find f l.
Proof.
  intros H. induction l as [| a l IH]; simpl; [reflexivity |].
  destruct (g a) eqn:Eg; simpl.
  - destruct (f a); [reflexivity | exact IH].
  - destruct (f a) eqn:Ef; [apply H in Ef; congruence | exact IH].
Qed.

Lemma find_filter_none {A : Type} (f g : A -> bool) (l : list A) :
  (forall x, g x = true -> f x = false) ->
  List.find f (List.filter g l) = None.
Proof.
  intros H. induction l as [| a l IH]; simpl; [reflexivity |].
  destruct (g a) eqn:Eg; simpl; [rewrite (H a Eg) |]; exact IH.
Qed.

Lemma existsb_find {A : Type} (f : A -> bool) (l : list A) :
  existsb f l = match List.find f l with Some _ => true | None => false end.
Proof.
  induction l as [| a l IH]; simpl; [reflexivity |].
  destruct (f a); [reflexivity | exact IH].
Qed.

Lemma filter_negb_length {A : Type} (f : A -> bool) (l : list A) :
  (length (List.filter (fun x => negb (f x)) l) <? length l)%nat = existsb f l.
Proof.
  induction l as [| a l IH]; simpl length; [reflexivity |].
  pose proof (filter_length_le (fun x => negb (f x)) l) as Hle.
  cbn [List.filter existsb]. destruct (f a); cbn [negb orb].
  - apply Nat.ltb_lt. lia.
  - rewrite <- IH. cbn [length].
    destruct (length (List.filter (fun x => negb (f x)) l) <? length l)%nat eqn:E.
    + apply Nat.ltb_lt in E. apply Nat.ltb_lt. lia.
    + apply Nat.ltb_ge in E. apply Nat.ltb_ge. lia.
Qed.

Lemma nodup_map_filter {A B : Type} (h : A -> B) (g : A -> bool) (l : list A) :
  List.NoDup (List.map h l) -> List.NoDup (List.map h (List.filter g l)).
Proof.
  induction l as [| a l IH]; simpl; [auto |].
  intros H. inversion H as [| ? ? Hn Hd]; subst.
  destruct (g a); simpl; [| auto].
  constructor; [| auto].
  intros Hin. apply Hn. apply in_map_iff in Hin as (x & Hx & Hin).
  apply filter_In in Hin as [Hin _]. apply in_map_iff. eauto.
Qed.

Lemma filter_idempotent {A : Type} (g : A -> bool) (l : list A) :
  List.filter g (List.filter g l) = List.filter g l.
Proof.
  induction l as [| a l IH]; simpl; [reflexivity |].
  destruct (g a) eqn:E; simpl; [rewrite E, IH; reflexivity | exact IH].
Qed.

Lemma same_service_dec (s s' : str) : s' <> s -> str_eqb s' s = false.
Proof. intros H. apply str_eqb_neq. exact H. Qed.

(** X23: adding a key.  After [add_api_key] the key of the service of the
    added key is the added key, the keys of the other services are the
    ones there were, the user has one key more at most, and if no two keys
    were of the same service before, no two are afterwards. *)
Theorem add_api_key_lookup (self : User.t) (k : ApiKey.t) :
  User.get_api_key (User.add_api_key self k) (ApiKey.service_name k) = Some k
  /\ User.has_api_key (User.add_api_key self k) (ApiKey.service_name k) = true
  /\ (forall s, s <> ApiKey.service_name k ->
        User.get_api_key (User.add_api_key self k) s = User.get_api_key self s
        /\ User.has_api_key (User.add_api_key self k) s = User.has_api_key self s)
  /\ (length (User.api_keys (User.add_api_key self k))
      <= S (length (User.api_keys self)))%nat
  /\ (List.NoDup (List.map ApiKey.service_name (User.api_keys self)) ->
      List.NoDup (List.map ApiKey.service_name
                    (User.api_keys (User.add_api_key self k)))).
Proof.
  unfold User.get_api_key, User.has_api_key, User.add_api_key, User.set_api_keys.
  cbn [User.api_keys].
  set (l := User.api_keys self).
  set (g := fun key => negb (str_eqb (ApiKey.service_name key) (ApiKey.service_name k))).
  assert (Hget : List.find
                   (fun key => str_eqb (ApiKey.service_name key) (ApiKey.service_name k))
                   (List.filter g l ++ [k]) = Some k).
  { rewrite find_app_key, find_filter_none.
    - simpl. rewrite str_eqb_refl. reflexivity.
    - intros x Hx. unfold g in Hx. apply negb_true_iff in Hx. exact Hx. }
  assert (Hother : forall s, s <> ApiKey.service_name k ->
            List.find (fun key => str_eqb (ApiKey.service_name key) s)
              (List.filter g l ++ [k])
            = List.find (fun key => str_eqb (ApiKey.service_name key) s) l).
  { intros s Hs. rewrite find_app_key, find_filter_other.
    - destruct (List.find _ l); [reflexivity |].
      simpl. rewrite (same_service_dec s); [reflexivity |]. congruence.
    - intros x Hx. apply str_eqb_eq in Hx. unfold g.
      apply negb_true_iff, str_eqb_neq. congruence. }
  split; [exact Hget |].
  split; [rewrite existsb_find, Hget; reflexivity |].
  split; [intros s Hs; rewrite !existsb_find, (Hother s Hs); auto |].
  split.
  - rewrite length_app. simpl.
    pose proof (filter_length_le g l). lia.
  - intros Hnd. rewrite map_app. simpl.
    apply List.NoDup_app.
    + apply nodup_map_filter. exact Hnd.
    + repeat constructor. intros [].
    + intros a Ha [<- | []].
      apply in_map_iff in Ha as (x & Hx & Hin).
      apply filter_In in Hin as [_ Hg]. unfold g in Hg.
      apply negb_true_iff, str_eqb_neq in Hg. congruence.
Qed.

Lemma add_api_key_lookup_witness :
  User.get_api_key (User.add_api_key sample_user (sample_key "groq_llm" "R0hJ"))
    (u "custom")
  = User.get_api_key sample_user (u "custom").
Proof.
  apply (proj1 (proj2 (proj2
           (add_api_key_lookup sample_user (sample_key "groq_llm" "R0hJ"))))).
  vm_compute. discriminate.
Defined.

(** X24: removing a key.  [remove_api_key] answers whether the user had a
    key of the service; afterwards the user has none, the keys of the
    other services are the ones there were, and no two keys are of the same
    service if none were before.  Removing the key of a service the user
    has no key of changes nothing, and removing the service of a key just
    added leaves the user that removing it before the addition leaves. *)
Theorem remove_api_key_lookup (self : User.t) (s : str) :
  snd (User.remove_api_key self s) = User.has_api_key self s
  /\ User.has_api_key (fst (User.remove_api_key self s)) s = false
  /\ User.get_api_key (fst (User.remove_api_key self s)) s = None
  /\ (forall s', s' <> s ->
        User.get_api_key (fst (User.remove_api_key self s)) s'
        = User.get_api_key self s')
  /\ (List.NoDup (List.map ApiKey.service_name (User.api_keys self)) ->
      List.NoDup (List.map ApiKey.service_name
                    (User.api_keys (fst (User.remove_api_key self s)))))
  /\ (User.has_api_key self s = false -> fst (User.remove_api_key self s) = self)
  /\ (forall k, ApiKey.service_name k = s ->
        fst (User.remove_api_key (User.add_api_key self k) s)
        = fst (User.remove_api_key self s)).
Proof.
  unfold User.get_api_key, User.has_api_key, User.remove_api_key,
    User.add_api_key, User.set_api_keys.
  cbn [fst snd User.api_keys].
  set (l := User.api_keys self).
  set (g := fun key => negb (str_eqb (ApiKey.service_name key) s)).
  assert (Hnone : List.find (fun key => str_eqb (ApiKey.service_name key) s)
                    (List.filter g l) = None).
  { apply find_filter_none. intros x Hx. unfold g in Hx.
    apply negb_true_iff in Hx. exact Hx. }
  split; [apply (filter_negb_length
                   (fun key => str_eqb (ApiKey.service_name key) s)) |].
  split; [rewrite existsb_find, Hnone; reflexivity |].
  split; [exact Hnone |].
  split.
  { intros s' Hs. apply find_filter_other.
    intros x Hx. apply str_eqb_eq in Hx. unfold g.
    apply negb_true_iff, str_eqb_neq. congruence. }
  split; [apply nodup_map_filter |].
  split.
  - intros H.
    assert (E : List.filter g l = l).
    { apply filter_fixed. apply List.Forall_forall. intros x Hx. unfold g.
      apply negb_true_iff.
      destruct (str_eqb (ApiKey.service_name x) s) eqn:Ex; [| reflexivity].
      assert (Ht : existsb (fun key => str_eqb (ApiKey.service_name key) s) l = true).
      { apply existsb_exists. eauto. }
      congruence. }
    rewrite E. unfold l. destruct self. reflexivity.
  - intros k <-. cbn [User.user_id User.analysis_mode User.ui_theme
      User.auto_analyze User.cache_enabled User.cache_duration_days
      User.language_preference User.confidence_threshold User.created_at
      User.last_active_at User.total_analyses User.total_cost_cents
      User.metadata].
    f_equal. rewrite List.filter_app, filter_idempotent.
    assert (Eg : g k = false) by (unfold g; rewrite str_eqb_refl; reflexivity).
    cbn [List.filter]. rewrite Eg. apply app_nil_r.
Qed.

Lemma remove_api_key_lookup_witness :
  fst (User.remove_api_key sample_user (u "openrouter")) = sample_user.
Proof.
  apply (proj1 (proj2 (proj2 (proj2 (proj2 (proj2
           (remove_api_key_lookup sample_user (u "openrouter")))))))).
  vm_compute. reflexivity.
Defined.

Lemma unique_keys_in (seen : list str) (v : list ApiKey.t) (k : ApiKey.t) :
  In k (User.unique_keys seen v) -> In k v /\ ~ In (ApiKey.service_name k) seen.
Proof.
  revert seen. induction v as [| a v IH]; intros seen; simpl; [intros [] |].
  destruct (existsb (str_eqb (ApiKey.service_name a)) seen) eqn:E; simpl.
  - intros H. apply IH in H. tauto.
  - intros [<- | H].
    + split; [auto |]. apply existsb_str_eqb_false in E. exact E.
    + apply IH in H as [H1 H2]. split; [auto |].
      intros Hs. apply H2. right. exact Hs.
Qed.

Lemma unique_keys_nodup (seen : list str) (v : list ApiKey.t) :
  List.NoDup (List.map ApiKey.service_name (User.unique_keys seen v)).
Proof.
  revert seen. induction v as [| a v IH]; intros seen; simpl; [constructor |].
  destruct (existsb (str_eqb (ApiKey.service_name a)) seen); simpl; [apply IH |].
  constructor; [| apply IH].
  intros H. apply in_map_iff in H as (x & Hx & Hin).
  apply unique_keys_in in Hin as [_ Hn]. apply Hn. left. congruence.
Qed.

Lemma unique_keys_find (seen : list str) (v : list ApiKey.t) (s : str) :
  ~ In s seen ->
  List.find (fun key => str_eqb (ApiKey.service_name key) s)
    (User.unique_keys seen v)
  = List.find (fun key => str_eqb (ApiKey.service_name key) s) v.
Proof.
  revert seen. induction v as [| a v IH]; intros seen Hs; simpl; [reflexivity |].
  destruct (existsb (str_eqb (ApiKey.service_name a)) seen) eqn:E; simpl.
  - apply existsb_str_eqb in E.
    destruct (str_eqb (ApiKey.service_name a) s) eqn:Ea.
    + apply str_eqb_eq in Ea. subst s. contradiction.
    + apply IH. exact Hs.
  - destruct (str_eqb (ApiKey.service_name a) s) eqn:Ea; [reflexivity |].
    apply IH. intros [H | H]; [| contradiction].
    apply str_eqb_neq in Ea. contradiction.
Qed.

Lemma unique_keys_fixed (seen : list str) (v : list ApiKey.t) :
  List.NoDup (List.map ApiKey.service_name v) ->
  (forall k, In k v -> ~ In (ApiKey.service_name k) seen) ->
  User.unique_keys seen v = v.
Proof.
  revert seen. induction v as [| a v IH]; intros seen Hnd Hs; simpl; [reflexivity |].
  inversion Hnd as [| ? ? Hn Hd]; subst.
  assert (E : existsb (str_eqb (ApiKey.service_name a)) seen = false).
  { apply existsb_str_eqb_false. apply Hs. left. reflexivity. }
  rewrite E. simpl. f_equal. apply IH; [exact Hd |].
  intros k Hk [H | H].
  - apply Hn. rewrite H. apply in_map. exact Hk.
  - apply (Hs k); [right; exact Hk | exact H].
Qed.

Lemma user_new_inv (U : UnicodeData) (id : str) (mode : AnalysisMode.t)
    (theme : UITheme.t) (keys : list ApiKey.t) (aa ce : bool) (days : Z)
    (lang : str) (th : Q) (c l ta tc : Z) (md : gmap string py_value)
    (usr : User.t) :
  User.new U id mode theme keys aa ce days lang th c l ta tc md = Ok usr ->
  (8 <= length id <= 64)%nat
  /\ User.validate_user_id U id = Ok (strip id)
  /\ (1 <= days <= 365)%Z /\ (0 <= ta)%Z /\ (0 <= tc)%Z
  /\ usr = User.Build (strip id) mode theme (User.validate_api_keys keys) aa ce
             days (User.validate_language_code U lang) th c l ta tc md.
Proof.
  unfold User.new.
  destruct (8 <=? length id)%nat eqn:E1; [| discriminate].
  destruct (length id <=? 64)%nat eqn:E2; [| discriminate].
  cbn [andb negb].
  destruct (User.validate_user_id U id) as [id' |] eqn:Eid; [| discriminate].
  assert (Hid : id' = strip id).
  { unfold User.validate_user_id in Eid.
    destruct (_ || _); [discriminate |].
    destruct (_ && _); [discriminate |]. congruence. }
  subst id'. cbn [bind].
  destruct (1 <=? days)%Z eqn:E3; [| discriminate].
  destruct (days <=? 365)%Z eqn:E4; [| discriminate].
  cbn [andb negb].
  destruct (negb _); [discriminate |].
  destruct (negb _); [discriminate |].
  destruct (0 <=? ta)%Z eqn:E5; [| discriminate].
  destruct (0 <=? tc)%Z eqn:E6; [| discriminate].
  cbn [negb]. intros H. injection H as <-.
  apply Nat.leb_le in E1, E2. apply Z.leb_le in E3, E4, E5, E6.
  auto 10.
Qed.

(** X25: the keys a [User] is built with.  [validate_api_keys] keeps, of
    the keys given, the first one of every service: no two keys it returns
    are of the same service, each of them was given, the key that
    [get_api_key] would find for a service in the given list is the one it
    finds in the returned list, and a list without two keys of the same
    service is returned as it is.  A [User] that is built stores what
    [validate_api_keys] returns. *)
Theorem validate_api_keys_first (v : list ApiKey.t) :
  List.NoDup (List.map ApiKey.service_name (User.validate_api_keys v))
  /\ (forall k, In k (User.validate_api_keys v) -> In k v)
  /\ (forall s,
        List.find (fun key => str_eqb (ApiKey.service_name key) s)
          (User.validate_api_keys v)
        = List.find (fun key => str_eqb (ApiKey.service_name key) s) v)
  /\ (List.NoDup (List.map ApiKey.service_name v) -> User.validate_api_keys v = v)
  /\ (forall U id mode theme aa ce days lang th c l ta tc md usr,
        User.new U id mode theme v aa ce days lang th c l ta tc md = Ok usr ->
        User.api_keys usr = User.validate_api_keys v
        /\ forall s, User.get_api_key usr s
                     = List.find (fun key => str_eqb (ApiKey.service_name key) s) v).
Proof.
  assert (E : User.validate_api_keys v = User.unique_keys [] v).
  { destruct v; reflexivity. }
  rewrite E.
  split; [apply unique_keys_nodup |].
  split; [intros k H; apply unique_keys_in in H; tauto |].
  split; [intros s; apply unique_keys_find; intros [] |].
  split; [intros H; apply unique_keys_fixed; [exact H | intros k _ []] |].
  intros U id mode theme aa ce days lang th c l ta tc md usr H.
  apply user_new_inv in H as (_ & _ & _ & _ & _ & ->).
  unfold User.get_api_key. cbn [User.api_keys]. rewrite E.
  split; [reflexivity |].
  intros s. apply unique_keys_find. intros [].
Qed.

Lemma validate_api_keys_first_witness :
  User.validate_api_keys (User.api_keys sample_user) = User.api_keys sample_user.
Proof.
  apply (proj1 (proj2 (proj2 (proj2
           (validate_api_keys_first (User.api_keys sample_user)))))).
  vm_compute. repeat constructor; simpl; intuition discriminate.
Defined.

(** X26: the record of the analyses.  After a series of calls of
    [record_analysis] the number of analyses has grown by the number of
    calls and the total cost by the sum of the costs that are not negative:
    a negative cost counts for nothing, so the total never goes down.  The
    identifier and the keys of the user stay as they are, and the user was
    last active at the time of the last call. *)
Theorem record_analysis_totals (self : User.t) (calls : list (Z * Z)) :
  User.total_analyses
    (fold_left (fun u nc => User.record_analysis (fst nc) u (snd nc)) calls self)
  = (User.total_analyses self + Z.of_nat (length calls))%Z
  /\ User.total_cost_cents
       (fold_left (fun u nc => User.record_analysis (fst nc) u (snd nc)) calls self)
     = (User.total_cost_cents self
        + fold_right Z.add 0 (List.map (fun nc => Z.max 0 (snd nc)) calls))%Z
  /\ (User.total_cost_cents self
      <= User.total_cost_cents
           (fold_left (fun u nc => User.record_analysis (fst nc) u (snd nc))
              calls self))%Z
  /\ User.user_id
       (fold_left (fun u nc => User.record_analysis (fst nc) u (snd nc)) calls self)
     = User.user_id self
  /\ User.api_keys
       (fold_left (fun u nc => User.record_analysis (fst nc) u (snd nc)) calls self)
     = User.api_keys self
  /\ User.last_active_at
       (fold_left (fun u nc => User.record_analysis (fst nc) u (snd nc)) calls self)
     = List.last (List.map fst calls) (User.last_active_at self).
Proof.
  revert self. induction calls as [| [now cost] calls IH]; intros self.
  - simpl. repeat split; lia.
  - cbn [fold_left fst snd].
    destruct (IH (User.record_analysis now self cost))
      as (H1 & H2 & H3 & H4 & H5 & H6).
    rewrite H1, H2, H4, H5, H6.
    cbn [User.record_analysis User.total_analyses User.total_cost_cents
         User.user_id User.api_keys User.last_active_at List.map fold_right
         length fst snd] in *.
    split; [lia |]. split; [lia |]. split; [lia |].
    split; [reflexivity |]. split; [reflexivity |].
    destruct calls as [| p calls]; [reflexivity |].
    cbn [List.map]. generalize (fst p) (List.map fst calls).
    intros x l. change (List.last (now :: x :: l) (User.last_active_at self))
      with (List.last (x :: l) (User.last_active_at self)).
    revert x. induction l as [| y l IHl]; intros x; [reflexivity |].
    change (List.last (x :: y :: l) now) with (List.last (y :: l) now).
    change (List.last (x :: y :: l) (User.last_active_at self))
      with (List.last (y :: l) (User.last_active_at self)).
    apply IHl.
Qed.

Lemma record_analysis_totals_witness :
  User.total_cost_cents
    (fold_left (fun u nc => User.record_analysis (fst nc) u (snd nc))
       [(1, 5); (2, -7); (3, 2)]%Z sample_user) = 7%Z.
Proof.
  rewrite (proj1 (proj2 (record_analysis_totals sample_user
                           [(1, 5); (2, -7); (3, 2)]%Z))).
  reflexivity.
Defined.

Lemma hex_lower_alnum (U : UnicodeData) (c : char) :
  ascii_exact U -> TextHash.hex_lower c = true -> isalnum U c = true.
Proof.
  intros HU H.
  assert (Hc : c < 128) by (apply hex_lower_plain in H; tauto).
  rewrite (isalnum_ascii U HU c Hc).
  revert H. unfold TextHash.hex_lower, ascii_upper, ascii_lower, ascii_digit.
  char_cases.
Qed.

Lemma generated_user_id (U : UnicodeData) (h : str) :
  ascii_exact U ->
  Forall (fun c => TextHash.hex_lower c = true) h ->
  User.validate_user_id U (u "user_" ++ h) = Ok (u "user_" ++ h).
Proof.
  intros HU Hh.
  assert (Hs : strip (u "user_" ++ h) = u "user_" ++ h).
  { apply strip_fixed. apply Forall_app. split.
    - repeat constructor.
    - eapply List.Forall_impl; [| exact Hh].
      intros c Hc. apply hex_lower_plain in Hc. tauto. }
  unfold User.validate_user_id. rewrite Hs.
  change (nonempty (u "user_" ++ h)) with true. cbn [negb orb].
  assert (Hall : forallb (fun c => isalnum U c || (c =? 45) || (c =? 95))
                   (u "user_" ++ h) = true).
  { apply forallb_forall. intros c Hc. apply in_app_or in Hc as [Hc | Hc].
    - assert (Hlt : c < 128).
      { simpl in Hc. intuition (subst; reflexivity). }
      rewrite (isalnum_ascii U HU c Hlt).
      simpl in Hc. intuition (subst; reflexivity).
    - rewrite List.Forall_forall in Hh.
      rewrite (hex_lower_alnum U c HU (Hh c Hc)). reflexivity. }
  rewrite Hall. cbn [negb andb]. rewrite andb_false_r. reflexivity.
Qed.

(** X27: new users.  For a blank identifier and the 32 hexadecimal digits
    of a UUID, [create_new] builds a user whose identifier is [user_]
    followed by the first twelve digits.  Every user it builds has the
    default settings: no key, the automatic mode, the theme of the system,
    no automatic analysis, the cache enabled for 30 days, the threshold
    0.8, no analysis and no cost recorded, and the two times of the call;
    its identifier, when one was given, is the given one, of 8 to 64
    characters.  From an identifier that is not blank and shorter than 8
    characters no user is built. *)
Theorem create_new_user (U : UnicodeData) (uuid_hex : str) (now now' : Z)
    (id : str) :
  (ascii_exact U -> length uuid_hex = 32%nat ->
   forallb TextHash.hex_lower uuid_hex = true -> strip id = [] ->
   exists usr,
     User.create_new U uuid_hex now now' id = Ok usr
     /\ User.user_id usr = u "user_" ++ firstn 12 uuid_hex
     /\ User.language_preference usr = u "pt")
  /\ (forall usr, User.create_new U uuid_hex now now' id = Ok usr ->
        (strip id <> [] ->
         User.user_id usr = strip id /\ (8 <= length id <= 64)%nat)
        /\ User.api_keys usr = []
        /\ (forall s, User.has_api_key usr s = false)
        /\ User.analysis_mode usr = AnalysisMode.AUTOMATIC
        /\ User.ui_theme usr = UITheme.SYSTEM
        /\ User.auto_analyze usr = false
        /\ User.cache_enabled usr = true
        /\ User.cache_duration_days usr = 30%Z
        /\ (User.confidence_threshold usr == 0.8)%Q
        /\ User.total_analyses usr = 0%Z
        /\ User.total_cost_cents usr = 0%Z
        /\ User.created_at usr = now
        /\ User.last_active_at usr = now')
  /\ (strip id <> [] -> (length id < 8)%nat ->
      is_ok (User.create_new U uuid_hex now now' id) = false).
Proof.
  split; [| split].
  - intros HU Hlen Hhex Hblank.
    unfold User.create_new. rewrite Hblank.
    cbn [nonempty negb]. rewrite orb_true_r.
    change 12%Z with (Z.of_nat 12). rewrite slice_to_firstn.
    assert (Hh : Forall (fun c => TextHash.hex_lower c = true) (firstn 12 uuid_hex)).
    { apply forallb_Forall in Hhex. rewrite List.Forall_forall in *.
      intros c Hc. apply Hhex. eapply firstn_in. exact Hc. }
    assert (Hl : length (u "user_" ++ firstn 12 uuid_hex) = 17%nat).
    { rewrite length_app, length_firstn, Hlen. reflexivity. }
    unfold User.new. rewrite Hl. cbn [Nat.leb andb negb].
    rewrite (generated_user_id U _ HU Hh). cbn [bind].
    assert (Hpt : User.validate_language_code U (u "pt") = u "pt").
    { unfold User.validate_language_code.
      change (Text.match_language_code (u "pt")) with true. cbn [negb].
      rewrite (lower_ascii U HU); [reflexivity | repeat constructor]. }
    rewrite Hpt.
    eexists. split; [reflexivity |]. split; reflexivity.
  - intros usr H. unfold User.create_new in H.
    apply user_new_inv in H as (Hlen & Hid & _ & _ & _ & ->).
    cbn [User.user_id User.api_keys User.analysis_mode User.ui_theme
         User.auto_analyze User.cache_enabled User.cache_duration_days
         User.confidence_threshold User.total_analyses User.total_cost_cents
         User.created_at User.last_active_at User.has_api_key].
    split.
    { intros Hne.
      assert (E : negb (nonempty id) || negb (nonempty (strip id)) = false).
      { apply nonempty_true in Hne as Hn2.
        assert (Hn1 : nonempty id = true).
        { destruct id; [contradiction Hne; reflexivity | reflexivity]. }
        rewrite Hn1, Hn2. reflexivity. }
      rewrite E in Hlen |- *. auto. }
    repeat (split; [reflexivity |]). reflexivity.
  - intros Hne Hshort.
    destruct (User.create_new U uuid_hex now now' id) as [usr |] eqn:E;
      [| reflexivity].
    unfold User.create_new in E.
    apply user_new_inv in E as (Hlen & _).
    assert (E' : negb (nonempty id) || negb (nonempty (strip id)) = false).
    { apply nonempty_true in Hne as Hn2.
      assert (Hn1 : nonempty id = true).
      { destruct id; [contradiction Hne; reflexivity | reflexivity]. }
      rewrite Hn1, Hn2. reflexivity. }
    rewrite E' in Hlen. lia.
Qed.

Lemma create_new_user_witness :
  exists usr,
    User.create_new basic_latin (u "0123456789abcdef0123456789abcdef") 1 2 (u "  ")
    = Ok usr
    /\ User.user_id usr = u "user_" ++ firstn 12 (u "0123456789abcdef0123456789abcdef")
    /\ User.language_preference usr = u "pt".
Proof.
  apply (proj1 (create_new_user basic_latin (u "0123456789abcdef0123456789abcdef")
                  1 2 (u "  ")) basic_latin_exact);
    reflexivity.
Defined.

(** ** Normalising twice *)

Lemma split_from_words (cur s : str) :
  Forall (fun c => isspace c = false) cur ->
  Forall word (split_from cur s).
Proof.
  revert cur. induction s as [| c r IH]; intros cur Hcur; simpl.
  - destruct cur as [| d cur]; [constructor |].
    constructor; [| constructor]. split.
    + intros E. apply (f_equal (@length _)) in E.
      rewrite length_rev in E. discriminate.
    + apply Forall_rev. exact Hcur.
  - destruct (isspace c) eqn:E.
    + destruct cur as [| d cur]; [apply IH; constructor |].
      constructor; [| apply IH; constructor]. split.
      * intros E'. apply (f_equal (@length _)) in E'.
        rewrite length_rev in E'. discriminate.
      * apply Forall_rev. exact Hcur.
    + apply IH. constructor; assumption.
Qed.

Lemma split_from_word (cur w rest : str) :
  Forall (fun c => isspace c = false) w ->
  split_from cur (w ++ rest) = split_from (rev w ++ cur) rest.
Proof.
  revert cur. induction w as [| c w IH]; intros cur H; simpl; [reflexivity |].
  inversion H as [| ? ? Hc Hw]; subst. rewrite Hc, IH by exact Hw.
  rewrite <- app_assoc. reflexivity.
Qed.

Lemma split_join (ws : list str) : Forall word ws -> split (join_sp ws) = ws.
Proof.
  induction 1 as [| w ws [Hne Hw] Hws IH]; [reflexivity |].
  unfold split in *. destruct ws as [| w' ws'].
  - change (join_sp [w]) with w.
    rewrite <- (app_nil_r w) at 1. rewrite split_from_word by exact Hw.
    rewrite app_nil_r. simpl.
    destruct (rev w) eqn:E.
    + apply (f_equal (@rev _)) in E. rewrite rev_involutive in E. contradiction.
    + rewrite <- E, rev_involutive. reflexivity.
  - change (join_sp (w :: w' :: ws')) with (w ++ SP :: join_sp (w' :: ws')).
    revert IH. generalize (join_sp (w' :: ws')). intros rest IH.
    rewrite split_from_word by exact Hw. rewrite app_nil_r.
    cbn [split_from]. change (isspace SP) with true. cbv iota.
    destruct (rev w) eqn:E.
    + apply (f_equal (@rev _)) in E. rewrite rev_involutive in E. contradiction.
    + rewrite <- E, rev_involutive, IH. reflexivity.
Qed.

Lemma squeezed_join (ws : list str) :
  Forall word ws -> sub_ws (strip (join_sp ws)) = join_sp ws.
Proof.
  intros H. rewrite squeeze_join_split, split_join by exact H. reflexivity.
Qed.

Lemma sub_punctuation_app_space (b : bool) (w rest : str) :
  TextProcessor.sub_punctuation_from b (w ++ SP :: rest)
  = TextProcessor.sub_punctuation_from b w
    ++ SP :: TextProcessor.sub_punctuation_from false rest.
Proof.
  revert b. induction w as [| c w IH]; intros b; simpl; [reflexivity |].
  destruct (TextProcessor.PUNCTUATION c); [destruct b |]; rewrite IH; reflexivity.
Qed.

Lemma Forall_sub_punctuation (P : char -> Prop) (b : bool) (s : str) :
  Forall P s -> Forall P (TextProcessor.sub_punctuation_from b s).
Proof.
  intros H. revert b. induction H as [| c r Hc Hr IH]; intros b; simpl;
    [constructor |].
  destruct (TextProcessor.PUNCTUATION c);
    [destruct b; [apply IH |] |]; (constructor; [exact Hc | apply IH]).
Qed.

Lemma sub_punctuation_word (w : str) :
  word w -> word (TextProcessor.sub_punctuation_from false w).
Proof.
  intros [Hne Hw]. split.
  - destruct w as [| c w]; [contradiction |]. simpl.
    destruct (TextProcessor.PUNCTUATION c); discriminate.
  - apply Forall_sub_punctuation. exact Hw.
Qed.

Lemma sub_punctuation_join (ws : list str) :
  Forall word ws ->
  TextProcessor.sub_punctuation (join_sp ws)
  = join_sp (List.map (TextProcessor.sub_punctuation_from false) ws).
Proof.
  unfold TextProcessor.sub_punctuation.
  induction 1 as [| w ws Hw Hws IH]; [reflexivity |].
  simpl join_sp. destruct ws as [| w' ws']; [reflexivity |].
  rewrite sub_punctuation_app_space, IH. reflexivity.
Qed.

Lemma sub_punctuation_squeezed (y : str) :
  sub_ws (strip y) = y ->
  sub_ws (strip (TextProcessor.sub_punctuation y)) = TextProcessor.sub_punctuation y.
Proof.
  intros Hy. rewrite squeeze_join_split in Hy. rewrite <- Hy.
  assert (Hw : Forall word (split y)).
  { apply split_from_words. constructor. }
  rewrite (sub_punctuation_join _ Hw).
  apply squeezed_join.
  apply List.Forall_map. eapply List.Forall_impl; [| exact Hw].
  intros w. apply sub_punctuation_word.
Qed.

Lemma sub_punctuation_no_run (b : bool) (s : str) :
  no_run_from b (TextProcessor.sub_punctuation_from b s).
Proof.
  revert b. induction s as [| c r IH]; intros b; simpl; [exact I |].
  destruct (TextProcessor.PUNCTUATION c) eqn:E.
  - destruct b; [apply IH |]. simpl. rewrite E. split; [discriminate | apply IH].
  - simpl. rewrite E. split; [reflexivity | apply IH].
Qed.

Lemma sub_punctuation_map_lower (b : bool) (s : str) :
  List.map ascii_to_lower (TextProcessor.sub_punctuation_from b s)
  = TextProcessor.sub_punctuation_from b (List.map ascii_to_lower s).
Proof.
  revert b. induction s as [| c r IH]; intros b; simpl; [reflexivity |].
  rewrite lower_punctuation.
  destruct (TextProcessor.PUNCTUATION c); [destruct b |]; simpl; rewrite IH;
    reflexivity.
Qed.

Lemma lower_idempotent (c : char) :
  ascii_to_lower (ascii_to_lower c) = ascii_to_lower c.
Proof. unfold ascii_to_lower, ascii_upper. char_cases. Qed.

Lemma lower_isspace (c : char) : isspace (ascii_to_lower c) = isspace c.
Proof. unfold isspace, ascii_to_lower, ascii_upper. char_cases. Qed.

Lemma split_from_map_lower (cur s : str) :
  split_from (List.map ascii_to_lower cur) (List.map ascii_to_lower s)
  = List.map (List.map ascii_to_lower) (split_from cur s).
Proof.
  revert cur. induction s as [| c r IH]; intros cur.
  - destruct cur as [| d cur]; [reflexivity |].
    simpl. rewrite map_app, map_rev. reflexivity.
  - cbn [List.map split_from]. rewrite lower_isspace.
    destruct (isspace c).
    + destruct cur as [| d cur]; [apply (IH []) |].
      cbn [List.map]. rewrite <- (IH []). simpl.
      rewrite map_app, map_rev. reflexivity.
    + apply (IH (c :: cur)).
Qed.

Lemma join_sp_map_lower (ws : list str) :
  join_sp (List.map (List.map ascii_to_lower) ws)
  = List.map ascii_to_lower (join_sp ws).
Proof.
  induction ws as [| w ws IH]; [reflexivity |].
  cbn [List.map join_sp]. destruct ws as [| w' ws']; [reflexivity |].
  rewrite map_app. cbn [List.map]. rewrite <- IH. reflexivity.
Qed.

Lemma normalize_display_plain (U : UnicodeData) (t : str) :
  ascii_exact U -> t <> [] -> Forall plain t ->
  TextProcessor.normalize U t false = Ok (sub_ws (strip t)).
Proof.
  intros HU Hne Ht.
  unfold TextProcessor.normalize. destruct t as [| c0 r0]; [congruence |].
  set (t := c0 :: r0) in *.
  rewrite filter_fixed.
  2:{ eapply List.Forall_impl; [| exact (plain_replaced_printable t Ht)].
      intros c Hc. destruct (printable_facts c Hc) as (_ & Hctl & _).
      rewrite Hctl. reflexivity. }
  rewrite !sub_ws_replace by reflexivity.
  assert (Hw : is_ascii (sub_ws t)).
  { unfold sub_ws. apply Forall_sub_ws; [unfold SP; lia |].
    eapply List.Forall_impl; [| exact Ht].
    intros c. unfold plain, TAB, LF, CR. lia. }
  rewrite (nfc_ascii U HU _ Hw), sub_ws_strip. reflexivity.
Qed.

Lemma printable_plain (s : str) : Forall printable s -> Forall plain s.
Proof.
  intros H. eapply List.Forall_impl; [| exact H].
  intros c Hc. left. exact Hc.
Qed.

(** X28: normalising twice is normalising once.  On a text of printable
    ASCII characters, tabs, line feeds and carriage returns, in each of its
    two modes, [normalize] gives back its own result when it is applied to
    it; the result is the empty string exactly for a text of white space
    only, and on the empty string [normalize] raises. *)
Theorem normalize_idempotent (U : UnicodeData) (t n : str) (b : bool) :
  ascii_exact U -> Forall plain t ->
  TextProcessor.normalize U t b = Ok n ->
  (n <> [] -> TextProcessor.normalize U n b = Ok n)
  /\ (n = [] <-> forallb isspace t = true)
  /\ (n = [] -> is_ok (TextProcessor.normalize U n b) = false).
Proof.
  intros HU Ht Hn.
  assert (Hne : t <> []).
  { intros ->. discriminate. }
  pose proof (squeezed_printable t Ht) as Hx.
  pose proof (squeeze_idempotent t) as Hsq.
  assert (Hblank : sub_ws (strip t) = [] <-> forallb isspace t = true).
  { rewrite squeeze_join_split. unfold split. split.
    - intros E. destruct (split_from [] t) as [| w ws] eqn:Es.
      + apply split_from_nil in Es. tauto.
      + pose proof (split_from_words [] t ltac:(constructor)) as Hw.
        rewrite Es in Hw. inversion Hw as [| ? ? [Hw1 _] _]; subst.
        simpl in E. destruct ws; [contradiction |].
        destruct w; [contradiction | discriminate].
    - intros E.
      assert (Es : split_from [] t = []) by (apply split_from_nil; tauto).
      rewrite Es. reflexivity. }
  destruct b.
  - rewrite (normalize_plain U t HU Hne Ht) in Hn. injection Hn as <-.
    set (x := sub_ws (strip t)) in *.
    set (y := List.map ascii_to_lower x).
    assert (Hy : sub_ws (strip y) = y).
    { unfold y. rewrite <- Hsq at 2. fold x.
      rewrite !squeeze_join_split. unfold split.
      rewrite <- join_sp_map_lower, <- split_from_map_lower. reflexivity. }
    assert (Hprint : Forall printable (TextProcessor.sub_punctuation y)).
    { apply Forall_sub_punctuation, lower_printable, Hx. }
    split; [| split].
    + intros Hnn.
      rewrite (normalize_plain U _ HU Hnn (printable_plain _ Hprint)).
      rewrite (sub_punctuation_squeezed y Hy).
      unfold TextProcessor.sub_punctuation.
      rewrite sub_punctuation_map_lower. unfold y.
      rewrite map_map.
      rewrite (map_ext _ ascii_to_lower lower_idempotent).
      rewrite (sub_punctuation_fixed false _ (sub_punctuation_no_run false _)).
      reflexivity.
    + rewrite <- Hblank. unfold TextProcessor.sub_punctuation, y. split.
      * destruct x as [| c r]; [reflexivity |]. simpl.
        destruct (TextProcessor.PUNCTUATION _); discriminate.
      * intros ->. reflexivity.
    + intros ->. reflexivity.
  - rewrite (normalize_display_plain U t HU Hne Ht) in Hn. injection Hn as <-.
    split; [| split].
    + intros Hnn.
      rewrite (normalize_display_plain U _ HU Hnn (printable_plain _ Hx)).
      rewrite Hsq. reflexivity.
    + exact Hblank.
    + intros ->. reflexivity.
Qed.

Lemma normalize_idempotent_witness :
  TextProcessor.normalize basic_latin (u "hello, world!") true
  = Ok (u "hello, world!").
Proof.
  refine (proj1 (normalize_idempotent basic_latin (u " Hello,,  WORLD!?! ")
                   (u "hello, world!") true basic_latin_exact _ _) _).
  - repeat constructor; vm_compute; intuition discriminate.
  - vm_compute. reflexivity.
  - discriminate.
Defined.

(** ** Statistics of a text *)

Lemma sub_ws_length (b : bool) (s : str) :
  (length (sub_ws_from b s) <= length s)%nat.
Proof.
  revert b. induction s as [| c r IH]; intros b; simpl; [lia |].
  pose proof (IH true). pose proof (IH false).
  destruct (isspace c); [destruct b |]; simpl; lia.
Qed.

Lemma words_length (ws : list str) :
  Forall word ws -> (length ws <= length (join_sp ws))%nat.
Proof.
  induction 1 as [| w ws [Hne _] Hws IH]; [simpl; lia |].
  assert (Hw : (1 <= length w)%nat).
  { destruct w; [contradiction | simpl; lia]. }
  destruct ws as [| w' ws'].
  - change (join_sp [w]) with w. simpl. lia.
  - change (join_sp (w :: w' :: ws')) with (w ++ SP :: join_sp (w' :: ws')).
    rewrite length_app. cbn [length] in *. lia.
Qed.

Lemma strip_blank (s : str) : strip s = [] <-> forallb isspace s = true.
Proof.
  split.
  - intros E. unfold strip in E.
    destruct (lstrip_suffix s) as (ws & Hs & Hws).
    destruct (rstrip_prefix (lstrip s)) as (ws' & Hs' & Hws').
    rewrite E in Hs'. simpl in Hs'. rewrite Hs' in Hs. rewrite Hs.
    rewrite forallb_app, Hws, Hws'. reflexivity.
  - intros H. unfold strip. rewrite (lstrip_allspace s H). reflexivity.
Qed.

Lemma generate_hash_plain (U : UnicodeData) (text : str) :
  ascii_exact U -> text <> [] -> Forall plain text ->
  exists h, TextProcessor.generate_hash U text = Ok h.
Proof.
  intros HU Hne Hp. unfold TextProcessor.generate_hash.
  destruct text as [| c r]; [contradiction |].
  rewrite (normalize_plain U (c :: r) HU Hne Hp). cbn [bind].
  unfold sha256_hex. rewrite utf8_ascii; [eexists; reflexivity |].
  apply printable_ascii. apply Forall_sub_punctuation, lower_printable.
  apply squeezed_printable. exact Hp.
Qed.

Lemma extract_sentences_total (U : UnicodeData) (text : str)
    (min_length : option Z) :
  exists l, TextProcessor.extract_sentences U text min_length = Ok l.
Proof.
  unfold TextProcessor.extract_sentences.
  destruct text as [| c r]; [eexists; reflexivity |].
  destruct (normalize_display U (c :: r)) as (n & Hn & _); [discriminate |].
  rewrite Hn. eexists. reflexivity.
Qed.

Lemma get_text_stats_unfold (U : UnicodeData) (text : str) :
  text <> [] ->
  TextProcessor.get_text_stats U text
  = let* normalized := TextProcessor.normalize U text false in
    let* sentences := TextProcessor.extract_sentences U text None in
    let* hash :=
      match strip text with
      | [] => Ok None
      | _ => let* h := TextProcessor.generate_hash U text in Ok (Some h)
      end in
    Ok (TextProcessor.Stats.Build
          (Z.of_nat (length text))
          (match normalized with
           | [] => 0
           | _ => Z.of_nat (length (split normalized))
           end)
          (Z.of_nat (length sentences))
          (TextProcessor.is_valid_length text)
          (Z.of_nat (length normalized))
          hash
          (Some (match TextProcessor.content_chars U (strip text) with
                 | [] => false
                 | _ => true
                 end))).
Proof. destruct text; [contradiction | reflexivity]. Qed.

Lemma validate_text_inv (U : UnicodeData) (text : str) :
  TextProcessor.validate_text U text = (true, None) ->
  (10 <= length (strip text) <= 2000)%nat
  /\ (5 <= length (TextProcessor.content_chars U (strip text)))%nat
  /\ TextProcessor.is_valid_length text = true.
Proof.
  unfold TextProcessor.validate_text, TextProcessor.is_valid_length,
    TextProcessor.MIN_TEXT_LENGTH, TextProcessor.MAX_TEXT_LENGTH.
  destruct text as [| c r]; [discriminate |].
  destruct (length (strip (c :: r)) <? 10)%nat eqn:E1; [discriminate |].
  destruct (2000 <? length (strip (c :: r)))%nat eqn:E2; [discriminate |].
  destruct (length (TextProcessor.content_chars U (strip (c :: r))) <? 5)%nat eqn:E3;
    [discriminate |].
  intros _. apply Nat.ltb_ge in E1, E2, E3.
  split; [lia |]. split; [lia |].
  apply andb_true_iff; split; apply Nat.leb_le; lia.
Qed.

(** X29: the statistics agree with the functions they summarise.  On a
    text of printable ASCII characters, tabs, line feeds and carriage
    returns that is not empty, [get_text_stats] does not raise; it counts
    the characters of the text and the words of the text, reports the
    answer of [is_valid_length], the number of sentences of
    [extract_sentences] and the digest of [generate_hash], which is absent
    exactly for a text of white space only; the normalised length is at
    most the number of characters and at least the number of words; and a
    text that [validate_text] accepts is reported as of valid length, with
    meaningful content and with one word at least. *)
Theorem get_text_stats_consistent (U : UnicodeData) (text : str) :
  ascii_exact U -> Forall plain text -> text <> [] ->
  exists s,
    TextProcessor.get_text_stats U text = Ok s
    /\ TextProcessor.Stats.character_count s = Z.of_nat (length text)
    /\ TextProcessor.Stats.word_count s = Z.of_nat (length (split text))
    /\ (TextProcessor.Stats.word_count s
        <= TextProcessor.Stats.normalized_length s
        <= TextProcessor.Stats.character_count s)%Z
    /\ TextProcessor.Stats.is_valid_length s = TextProcessor.is_valid_length text
    /\ (exists l, TextProcessor.extract_sentences U text None = Ok l
                  /\ TextProcessor.Stats.sentence_count s = Z.of_nat (length l))
    /\ (TextProcessor.Stats.hash s = None <-> forallb isspace text = true)
    /\ (forall h, TextProcessor.Stats.hash s = Some h ->
          TextProcessor.generate_hash U text = Ok h)
    /\ (TextProcessor.validate_text U text = (true, None) ->
        TextProcessor.Stats.is_valid_length s = true
        /\ TextProcessor.Stats.has_meaningful_content s = Some true
        /\ (1 <= TextProcessor.Stats.word_count s)%Z).
Proof.
  intros HU Hp Hne.
  pose proof (normalize_display_plain U text HU Hne Hp) as Hn.
  assert (Hw : Forall word (split text)).
  { apply split_from_words. constructor. }
  assert (Hsplit : split (sub_ws (strip text)) = split text).
  { rewrite squeeze_join_split. apply split_join. exact Hw. }
  assert (Hwc : match sub_ws (strip text) with
                | [] => 0%Z
                | _ => Z.of_nat (length (split (sub_ws (strip text))))
                end = Z.of_nat (length (split text))).
  { rewrite Hsplit. destruct (sub_ws (strip text)) eqn:E; [| reflexivity].
    rewrite <- Hsplit. reflexivity. }
  assert (Hes : exists l, TextProcessor.extract_sentences U text None = Ok l).
  { destruct (extract_sentences_total U text None) as [l Hl]. eauto. }
  destruct Hes as [l Hl].
  destruct (generate_hash_plain U text HU Hne Hp) as [h Hh].
  assert (Hlen : (length (split text) <= length (sub_ws (strip text)) <= length text)%nat).
  { split.
    - rewrite squeeze_join_split. apply words_length. exact Hw.
    - pose proof (sub_ws_length false (strip text)).
      pose proof (strip_length text). unfold sub_ws. lia. }
  assert (Hvalid : TextProcessor.validate_text U text = (true, None) ->
            TextProcessor.is_valid_length text = true
            /\ match TextProcessor.content_chars U (strip text) with
               | [] => false
               | _ => true
               end = true
            /\ (1 <= length (split text))%nat).
  { intros Hv. apply validate_text_inv in Hv as (H1 & H2 & H3).
    split; [exact H3 |]. split.
    - destruct (TextProcessor.content_chars U (strip text));
        [simpl in H2; lia | reflexivity].
    - destruct (split text) eqn:Es; [| simpl; lia].
      apply split_from_nil in Es as [_ Es]. apply strip_blank in Es.
      rewrite Es in H1. simpl in H1. lia. }
  rewrite (get_text_stats_unfold U text Hne), Hn, Hl. cbn [bind].
  destruct (strip text) as [| c' r'] eqn:Es.
  - cbn [bind]. eexists. split; [reflexivity |].
    cbn [TextProcessor.Stats.character_count TextProcessor.Stats.word_count
         TextProcessor.Stats.sentence_count TextProcessor.Stats.is_valid_length
         TextProcessor.Stats.normalized_length TextProcessor.Stats.hash
         TextProcessor.Stats.has_meaningful_content].
    split; [reflexivity |]. split; [exact Hwc |].
    rewrite Hwc. split; [lia |]. split; [reflexivity |].
    split; [eauto |].
    split; [split; [intros _; apply strip_blank; exact Es | reflexivity] |].
    split; [discriminate |].
    intros Hv. destruct (Hvalid Hv) as (H1 & H2 & H3).
    split; [exact H1 |]. split; [rewrite H2; reflexivity | lia].
  - rewrite Hh. cbn [bind]. eexists. split; [reflexivity |].
    cbn [TextProcessor.Stats.character_count TextProcessor.Stats.word_count
         TextProcessor.Stats.sentence_count TextProcessor.Stats.is_valid_length
         TextProcessor.Stats.normalized_length TextProcessor.Stats.hash
         TextProcessor.Stats.has_meaningful_content].
    split; [reflexivity |]. split; [exact Hwc |].
    rewrite Hwc. split; [lia |]. split; [reflexivity |].
    split; [eauto |].
    split.
    { split; [discriminate |]. intros Hb.
      apply strip_blank in Hb. congruence. }
    split; [intros h' H'; injection H' as <-; reflexivity |].
    intros Hv. destruct (Hvalid Hv) as (H1 & H2 & H3).
    split; [exact H1 |]. split; [rewrite H2; reflexivity | lia].
Qed.

Lemma get_text_stats_consistent_witness :
  exists s,
    TextProcessor.get_text_stats basic_latin (u " The sky is  blue. ") = Ok s
    /\ TextProcessor.Stats.character_count s = 19%Z
    /\ TextProcessor.Stats.word_count s = 4%Z.
Proof.
  destruct (get_text_stats_consistent basic_latin (u " The sky is  blue. ")
              basic_latin_exact) as (s & H1 & H2 & H3 & _).
  - repeat constructor; vm_compute; intuition discriminate.
  - discriminate.
  - exists s. split; [exact H1 |]. split; [exact H2 | exact H3].
Defined.

(** ** Cleaning for the analysis *)

Lemma Forall_sub_runs_last (P : char -> Prop) (cls : char -> bool) (s : str) :
  Forall P s -> Forall P (TextProcessor.sub_runs_last cls s).
Proof.
  induction 1 as [| c r Hc Hr IH]; [constructor |].
  cbn [TextProcessor.sub_runs_last].
  destruct (cls c).
  - destruct r as [| d r']; [constructor; [exact Hc | constructor] |].
    destruct (cls d); [exact IH | constructor; [exact Hc | exact IH]].
  - constructor; [exact Hc | exact IH].
Qed.

Lemma Forall_before_punct (P : char -> Prop) (pend s : str) :
  Forall P pend -> Forall P s ->
  Forall P (TextProcessor.sub_space_before_punct pend s).
Proof.
  intros Hp Hs. revert pend Hp.
  induction Hs as [| c r Hc Hr IH]; intros pend Hp; simpl.
  - apply Forall_rev. exact Hp.
  - destruct (isspace c); [apply IH; constructor; assumption |].
    destruct (_ || _).
    + constructor; [exact Hc | apply IH; constructor].
    + apply Forall_app. split; [apply Forall_rev; exact Hp |].
      constructor; [exact Hc | apply IH; constructor].
Qed.

Lemma Forall_after_sentence (P : char -> Prop) (st : option (char * str))
    (s : str) :
  P SP ->
  match st with
  | Some (p, ws) => P p /\ Forall P ws
  | None => True
  end ->
  Forall P s ->
  Forall P (TextProcessor.sub_space_after_sentence st s).
Proof.
  intros HSP Hst Hs. revert st Hst.
  induction Hs as [| c r Hc Hr IH]; intros st Hst; simpl.
  - destruct st as [[p ws] |]; [| constructor].
    destruct Hst as [Hp Hws]. constructor; [exact Hp | apply Forall_rev; exact Hws].
  - destruct st as [[p ws] |].
    + destruct Hst as [Hp Hws].
      destruct (isspace c).
      { apply IH. split; [exact Hp | constructor; assumption]. }
      destruct (ascii_upper c).
      { repeat (constructor; [assumption |]). apply IH. exact I. }
      constructor; [exact Hp |].
      apply Forall_app. split; [apply Forall_rev; exact Hws |].
      destruct (TextProcessor.SENTENCE_END c).
      * apply IH. split; [exact Hc | constructor].
      * constructor; [exact Hc | apply IH; exact I].
    + destruct (TextProcessor.SENTENCE_END c).
      * apply IH. split; [exact Hc | constructor].
      * constructor; [exact Hc | apply IH; exact I].
Qed.

Lemma sub_runs_last_fixed (cls : char -> bool) (s : str) :
  Forall (fun c => cls c = false) s -> TextProcessor.sub_runs_last cls s = s.
Proof.
  induction 1 as [| c r Hc Hr IH]; [reflexivity |].
  cbn [TextProcessor.sub_runs_last]. rewrite Hc, IH. reflexivity.
Qed.

Lemma before_punct_fixed (pend s : str) :
  Forall (fun c => TextProcessor.SENTENCE_END c || TextProcessor.CLAUSE_END c = false) s ->
  TextProcessor.sub_space_before_punct pend s = rev pend ++ s.
Proof.
  intros H. revert pend. induction H as [| c r Hc Hr IH]; intros pend; simpl.
  - rewrite app_nil_r. reflexivity.
  - destruct (isspace c).
    + rewrite IH. simpl. rewrite <- app_assoc. reflexivity.
    + rewrite Hc, IH. reflexivity.
Qed.

Lemma after_sentence_fixed (s : str) :
  Forall (fun c => TextProcessor.SENTENCE_END c = false) s ->
  TextProcessor.sub_space_after_sentence None s = s.
Proof.
  induction 1 as [| c r Hc Hr IH]; simpl; [reflexivity |].
  rewrite Hc, IH. reflexivity.
Qed.

(** X30: what [clean_for_analysis] returns.  The cleaned text of the empty
    text is empty.  A cleaned text has no white space at its ends, its only
    white space is single spaces, and it holds characters of the class
    [[\w\s.,!?;:-]] only.  A text of ASCII letters, digits, spaces, tabs,
    line feeds and carriage returns is cleaned to its words joined by single
    spaces.  (The other white space of ASCII is outside this: a form feed
    between two words is deleted and not replaced by a space.) *)
Theorem clean_for_analysis_shape (U : UnicodeData) (text : str) :
  (text = [] -> TextProcessor.clean_for_analysis U text = [])
  /\ strip (TextProcessor.clean_for_analysis U text)
     = TextProcessor.clean_for_analysis U text
  /\ sub_ws (TextProcessor.clean_for_analysis U text)
     = TextProcessor.clean_for_analysis U text
  /\ Forall (fun c => analysis_char U c = true)
       (TextProcessor.clean_for_analysis U text)
  /\ (ascii_exact U -> Forall alnum_or_space text ->
      TextProcessor.clean_for_analysis U text = join_sp (split text)).
Proof.
  split; [intros ->; reflexivity |].
  unfold TextProcessor.clean_for_analysis.
  destruct text as [| c0 r0] eqn:Et.
  { split; [reflexivity |]. split; [reflexivity |]. split; [constructor |].
    intros _ _. reflexivity. }
  rewrite <- Et. assert (Hne : text <> []) by (rewrite Et; discriminate).
  clear Et c0 r0.
  destruct (TextProcessor.normalize U text false) as [n |] eqn:En.
  2:{ destruct (normalize_display U text Hne) as (n & Hn & _). congruence. }
  set (kept := fun c => TextProcessor.is_word U c || isspace c
                        || TextProcessor.SENTENCE_END c
                        || TextProcessor.CLAUSE_END c || (c =? 45)).
  set (x := TextProcessor.sub_space_after_sentence None
              (TextProcessor.sub_space_before_punct []
                 (TextProcessor.sub_runs_last TextProcessor.CLAUSE_END
                    (TextProcessor.sub_runs_last TextProcessor.SENTENCE_END
                       (List.filter kept n))))).
  split; [apply strip_idempotent |].
  split.
  { rewrite sub_ws_strip. unfold sub_ws. apply sub_ws_idempotent. }
  split.
  { assert (HSP : analysis_char U SP = true).
    { unfold analysis_char. change (isspace SP) with true.
      rewrite orb_true_r. reflexivity. }
    apply Forall_strip. unfold sub_ws. apply Forall_sub_ws; [exact HSP |].
    unfold x. apply Forall_after_sentence; [exact HSP | exact I |].
    apply Forall_before_punct; [constructor |].
    apply Forall_sub_runs_last, Forall_sub_runs_last.
    apply List.Forall_forall. intros c Hc. apply filter_In in Hc as [_ Hc].
    exact Hc. }
  intros HU Ht.
  assert (Hp : Forall plain text).
  { eapply List.Forall_impl; [| exact Ht].
    intros c [H | [-> | H]]; [| left; unfold SP; lia | right; exact H].
    left. revert H. unfold ascii_upper, ascii_lower, ascii_digit. char_cases. }
  rewrite (normalize_display_plain U text HU Hne Hp) in En. injection En as <-.
  assert (Hx : Forall (fun c => (ascii_upper c || ascii_lower c || ascii_digit c = true)
                                \/ c = SP) (sub_ws (strip text))).
  { unfold sub_ws. apply (Forall_sub_ws_nonspace alnum_or_space).
    - right. reflexivity.
    - intros c [H | [-> | [-> | [-> | ->]]]] E; try discriminate. left. exact H.
    - apply Forall_strip. exact Ht. }
  assert (Hkept : List.filter kept (sub_ws (strip text)) = sub_ws (strip text)).
  { apply filter_fixed. eapply List.Forall_impl; [| exact Hx].
    intros c [H | ->].
    2:{ unfold kept. change (isspace SP) with true.
        rewrite orb_true_r. reflexivity. }
    unfold kept, TextProcessor.is_word.
    assert (Hc : c < 128).
    { revert H. unfold ascii_upper, ascii_lower, ascii_digit. char_cases. }
    rewrite (isalnum_ascii U HU c Hc), H. reflexivity. }
  assert (Hnp : Forall (fun c => TextProcessor.SENTENCE_END c = false
                                 /\ TextProcessor.CLAUSE_END c = false)
                  (sub_ws (strip text))).
  { eapply List.Forall_impl; [| exact Hx].
    intros c [H | ->]; [| split; reflexivity].
    revert H. unfold ascii_upper, ascii_lower, ascii_digit,
      TextProcessor.SENTENCE_END, TextProcessor.CLAUSE_END.
    split; char_cases. }
  unfold x. rewrite Hkept.
  rewrite (sub_runs_last_fixed TextProcessor.SENTENCE_END).
  2:{ eapply List.Forall_impl; [| exact Hnp]. intros c [H _]. exact H. }
  rewrite (sub_runs_last_fixed TextProcessor.CLAUSE_END).
  2:{ eapply List.Forall_impl; [| exact Hnp]. intros c [_ H]. exact H. }
  rewrite before_punct_fixed.
  2:{ eapply List.Forall_impl; [| exact Hnp]. intros c [H1 H2].
      rewrite H1, H2. reflexivity. }
  cbn [rev app].
  rewrite after_sentence_fixed.
  2:{ eapply List.Forall_impl; [| exact Hnp]. intros c [H _]. exact H. }
  rewrite sub_ws_strip, squeeze_idempotent. apply squeeze_join_split.
Qed.

Lemma clean_for_analysis_shape_witness :
  TextProcessor.clean_for_analysis basic_latin (u "  Cats 9  lives ")
  = join_sp (split (u "  Cats 9  lives ")).
Proof.
  apply (proj2 (proj2 (proj2 (proj2
           (clean_for_analysis_shape basic_latin (u "  Cats 9  lives "))))) basic_latin_exact).
  repeat (apply List.Forall_cons;
          [first [left; reflexivity | right; left; reflexivity] |]).
  apply List.Forall_nil.
Defined.
